(** * Dependency extraction and clustering pipeline

    A shallow embedding of the dependency normaliser, the repository
    aggregator ([functions/collect.py]), the feature-matrix builder, the
    elbow method ([functions/cluster.py]) and the cluster summariser
    ([main.py]), followed by the properties proved about them.

    Conventions.
    - A Python [str] is a [string]; every character stands for the code
      point of the same number (code points below 256).  [isspace],
      [splitlines] and [lower] are Python's, restricted to that range.
    - A Python [dict] is an association list in insertion order whose keys
      are pairwise distinct; a [set] is a [gset].
    - Code that can raise returns a [result]; [try_except] is
      [try: ... except Exception: ...].
    - Library calls the source makes ([ast.literal_eval], [toml.loads],
      [ConfigParser], [KMeans]) are fields of an interface class. *)

From Stdlib Require Import ZArith QArith Ascii String List Sorted Permutation Lia.
From stdpp Require Import base list strings gmap sorting pretty.

Local Open Scope bool_scope.
Set Warnings "-register-all,-clear-no-such-hyp".

(** ** Exceptions *)

Inductive exn : Type :=
  | TypeError
  | AttributeError
  | KeyError
  | ValueError
  | SyntaxError
  | ParsingError
  | MissingSectionHeaderError
  | TomlDecodeError
  | NoOptionError
  | UnknownObjectException
  | OtherError (msg : string).

Inductive result (A : Type) : Type :=
  | Ok (a : A)
  | Raise (e : exn).
Arguments Ok {A} a.
Arguments Raise {A} e.

Global Instance result_ret : MRet result := λ A a, Ok a.

Global Instance result_bind : MBind result := λ A B k m,
  match m with
  | Ok a => k a
  | Raise e => Raise e
  end.

Global Instance result_fmap : FMap result := λ A B f m,
  match m with
  | Ok a => Ok (f a)
  | Raise e => Raise e
  end.

(** [try: body  except Exception: handler] *)
Definition try_except {A} (body : result A) (handler : result A) : result A :=
  match body with
  | Ok a => Ok a
  | Raise _ => handler
  end.

Definition raises {A} (m : result A) : bool :=
  match m with Ok _ => false | Raise _ => true end.

(** ** Python string primitives *)

Definition code (c : ascii) : N := N_of_ascii c.

(** [str.isspace] on one character; it is also the class [\s] of [re]. *)
Definition isspace (c : ascii) : bool :=
  let n := code c in
  ((9 <=? n) && (n <=? 13) || (28 <=? n) && (n <=? 32)
   || (n =? 133) || (n =? 160))%N.

(** The line boundaries of [str.splitlines]. *)
Definition is_linebreak (c : ascii) : bool :=
  let n := code c in
  ((10 <=? n) && (n <=? 13) || (28 <=? n) && (n <=? 30) || (n =? 133))%N.

Definition lower_char (c : ascii) : ascii :=
  let n := code c in
  if ((65 <=? n) && (n <=? 90)
      || (192 <=? n) && (n <=? 222) && negb (n =? 215))%N
  then ascii_of_N (n + 32) else c.

(** [s.lower()] *)
Fixpoint lower (s : string) : string :=
  match s with
  | EmptyString => EmptyString
  | String c s' => String (lower_char c) (lower s')
  end.

Definition is_empty (s : string) : bool :=
  match s with EmptyString => true | _ => false end.

(** [s.startswith(p)] *)
Fixpoint startswith (p s : string) : bool :=
  match p, s with
  | EmptyString, _ => true
  | String a p', String b s' => if Ascii.eqb a b then startswith p' s' else false
  | String _ _, EmptyString => false
  end.

(** [s.endswith(p)] *)
Fixpoint endswith (p s : string) : bool :=
  if String.eqb p s then true
  else match s with
       | EmptyString => false
       | String _ s' => endswith p s'
       end.

(** [p in s] for two strings *)
Fixpoint contains (p s : string) : bool :=
  if startswith p s then true
  else match s with
       | EmptyString => false
       | String _ s' => contains p s'
       end.

Fixpoint lstrip (s : string) : string :=
  match s with
  | EmptyString => EmptyString
  | String c s' => if isspace c then lstrip s' else s
  end.

Fixpoint rstrip (s : string) : string :=
  match s with
  | EmptyString => EmptyString
  | String c s' =>
      let r := rstrip s' in
      if isspace c && is_empty r then EmptyString else String c r
  end.

(** [s.strip()] *)
Definition strip (s : string) : string := rstrip (lstrip s).

(** [s.splitlines()]: [cur] is the line being read, reversed.  A carriage
    return directly followed by a line feed is one boundary; the text after
    the last boundary is a line only when it is not empty. *)
Fixpoint rev_string (acc s : string) : string :=
  match s with
  | EmptyString => acc
  | String c s' => rev_string (String c acc) s'
  end.

Fixpoint splitlines_from (cur : string) (s : string) : list string :=
  match s with
  | EmptyString => if is_empty cur then [] else [rev_string "" cur]
  | String c rest =>
      if is_linebreak c then
        rev_string "" cur ::
          match rest with
          | String d rest' =>
              if (code c =? 13)%N && (code d =? 10)%N
              then splitlines_from "" rest'
              else splitlines_from "" rest
          | EmptyString => splitlines_from "" rest
          end
      else splitlines_from (String c cur) rest
  end.

Definition splitlines (s : string) : list string := splitlines_from "" s.

(** [re.split(r'\s+#', s)[0]]: the text before the leftmost place where a
    run of white space is directly followed by [#]. *)
Definition at_space_hash (s : string) : bool :=
  match s with
  | String c s' => isspace c && startswith "#" (lstrip s')
  | EmptyString => false
  end.

Fixpoint before_comment (s : string) : string :=
  if at_space_hash s then EmptyString
  else match s with
       | EmptyString => EmptyString
       | String c s' => String c (before_comment s')
       end.

Definition is_comparator (c : ascii) : bool :=
  let n := code c in ((60 <=? n) && (n <=? 62))%N.

(** [re.split(r'[<=>]', s)[0]] *)
Fixpoint before_comparator (s : string) : string :=
  match s with
  | EmptyString => EmptyString
  | String c s' =>
      if is_comparator c then EmptyString else String c (before_comparator s')
  end.

(** ** Dependency normaliser: the line-oriented list *)

(** The loop of [extract_packages_from_requirements]; [packages] is the
    list built so far. *)
Fixpoint requirements_loop (lines : list string) (packages : list string)
  : list string :=
  match lines with
  | [] => packages
  | line :: rest =>
      let line := strip line in
      if is_empty line || startswith "#" line || startswith "-" line
      then requirements_loop rest packages
      else
        let line := before_comment line in
        let pkg := strip (before_comparator line) in
        if negb (is_empty pkg)
        then requirements_loop rest (packages ++ [lower pkg])
        else requirements_loop rest packages
  end.

Definition extract_packages_from_requirements (text : string) : list string :=
  requirements_loop (splitlines text) [].

(** ** Values returned by the parsing libraries *)

(** A value of a TOML document, as [toml.loads] returns it: a table is a
    [dict] with string keys, an array a [list]. *)
Inductive toml : Type :=
  | TStr (s : string)
  | TInt (z : Z)
  | TFloat (repr : string)
  | TBool (b : bool)
  | TDatetime (repr : string)
  | TArray (items : list toml)
  | TTable (entries : list (string * toml)).

(** A value [ast.literal_eval] can return. *)
Inductive pylit : Type :=
  | LStr (s : string)
  | LBytes (s : string)
  | LNum (repr : string)
  | LBool (b : bool)
  | LNone
  | LEllipsis
  | LList (items : list pylit)
  | LTuple (items : list pylit)
  | LSet (items : list pylit)
  | LDict (entries : list (pylit * pylit)).

(** ** Dictionaries in insertion order *)

Section dict.
Context {K V : Type} `{EqDecision K}.

(** [d.get(k)] *)
Fixpoint dict_get (d : list (K * V)) (k : K) : option V :=
  match d with
  | [] => None
  | (k', v) :: d' => if decide (k' = k) then Some v else dict_get d' k
  end.

(** [k in d] *)
Definition dict_has (d : list (K * V)) (k : K) : bool :=
  match dict_get d k with Some _ => true | None => false end.

(** [d[k] = v]: an existing key keeps its place, a new key goes last. *)
Fixpoint dict_set (d : list (K * V)) (k : K) (v : V) : list (K * V) :=
  match d with
  | [] => [(k, v)]
  | (k', v') :: d' =>
      if decide (k' = k) then (k', v) :: d' else (k', v') :: dict_set d' k v
  end.

Definition dict_keys (d : list (K * V)) : list K := fmap fst d.
Definition dict_values (d : list (K * V)) : list V := fmap snd d.
End dict.

(** ** Operations of Python on these values *)

Definition chars (s : string) : list string :=
  fmap (λ c, String c EmptyString) (list_ascii_of_string s).

Definition is_TStr (key : string) (v : toml) : bool :=
  match v with TStr s => String.eqb s key | _ => false end.

(** [key in v] *)
Definition toml_in (key : string) (v : toml) : result bool :=
  match v with
  | TTable d => Ok (dict_has d key)
  | TStr s => Ok (contains key s)
  | TArray l => Ok (existsb (is_TStr key) l)
  | _ => Raise TypeError
  end.

(** [v[key]] *)
Definition toml_getitem (v : toml) (key : string) : result toml :=
  match v with
  | TTable d =>
      match dict_get d key with Some x => Ok x | None => Raise KeyError end
  | _ => Raise TypeError
  end.

(** [v.get(key, {})] *)
Definition toml_get_or_empty (v : toml) (key : string) : result toml :=
  match v with
  | TTable d =>
      match dict_get d key with Some x => Ok x | None => Ok (TTable []) end
  | _ => Raise AttributeError
  end.

(** The elements [for x in v] goes through. *)
Definition toml_iter (v : toml) : result (list toml) :=
  match v with
  | TArray l => Ok l
  | TTable d => Ok (fmap TStr (dict_keys d))
  | TStr s => Ok (fmap TStr (chars s))
  | _ => Raise TypeError
  end.

Definition pylit_iter (v : pylit) : result (list pylit) :=
  match v with
  | LList l | LTuple l | LSet l => Ok l
  | LDict d => Ok (fmap fst d)
  | LStr s => Ok (fmap LStr (chars s))
  | LBytes s => Ok (fmap (λ c, LNum (String c EmptyString)) (list_ascii_of_string s))
  | _ => Raise TypeError
  end.

(** [re.split(r'[<=>]', dep)[0]]: a [TypeError] unless [dep] is a [str]. *)
Definition toml_before_comparator (dep : toml) : result string :=
  match dep with
  | TStr s => Ok (before_comparator s)
  | _ => Raise TypeError
  end.

Definition pylit_before_comparator (dep : pylit) : result string :=
  match dep with
  | LStr s => Ok (before_comparator s)
  | _ => Raise TypeError
  end.

(** [pkg.lower()] *)
Definition toml_lower (pkg : toml) : result string :=
  match pkg with
  | TStr s => Ok (lower s)
  | _ => Raise AttributeError
  end.

(** ** The libraries behind the normaliser *)

Class ParserLibs : Type := {
  (** [ast.literal_eval] *)
  literal_eval : string → result pylit;
  (** [toml.loads] *)
  toml_loads : string → result (list (string * toml));
  (** the state of a [ConfigParser] after [read_string] *)
  config : Type;
  read_string : string → result config;
  has_option : config → string → string → bool;
  config_get : config → string → string → result string
}.

(** ** Dependency normaliser: the other three formats *)

Fixpoint strip_prefix (p s : string) : option string :=
  match p, s with
  | EmptyString, _ => Some s
  | String a p', String b s' => if Ascii.eqb a b then strip_prefix p' s' else None
  | String _ _, EmptyString => None
  end.

Definition expect (c : ascii) (s : string) : option string :=
  match s with
  | String d s' => if Ascii.eqb c d then Some s' else None
  | EmptyString => None
  end.

(** The text matched by [\[[^\]]*\]] when [s] is what follows the opening
    bracket: everything up to the first closing bracket, which must exist. *)
Fixpoint bracket_body (s : string) : option string :=
  match s with
  | EmptyString => None
  | String c s' =>
      if Ascii.eqb c "]" then Some EmptyString
      else match bracket_body s' with
           | Some b => Some (String c b)
           | None => None
           end
  end.

(** Group 1 of [install_requires\s*=\s*(\[[^\]]*\])] matched at the start
    of [s]. *)
Definition match_install_requires (s : string) : option string :=
  s1 ← strip_prefix "install_requires" s;
  s2 ← expect "=" (lstrip s1);
  s3 ← expect "[" (lstrip s2);
  b ← bracket_body s3;
  Some ("[" +:+ b +:+ "]").

(** [pattern.search(text)], then [match.group(1)]: the leftmost match. *)
Fixpoint search_install_requires (text : string) : option string :=
  match match_install_requires text with
  | Some g => Some g
  | None =>
      match text with
      | EmptyString => None
      | String _ text' => search_install_requires text'
      end
  end.

Section normaliser.
Context `{ParserLibs}.

Fixpoint setup_py_loop (deps : list pylit) (packages : list string)
  : result (list string) :=
  match deps with
  | [] => Ok packages
  | dep :: rest =>
      head ← pylit_before_comparator dep;
      let dep_clean := lower (strip head) in
      if negb (is_empty dep_clean)
      then setup_py_loop rest (packages ++ [dep_clean])
      else setup_py_loop rest packages
  end.

Definition extract_packages_from_setup_py (text : string)
  : result (list string) :=
  match search_install_requires text with
  | Some list_str =>
      try_except
        (deps ← literal_eval list_str;
         items ← pylit_iter deps;
         setup_py_loop items [])
        (Ok [])
  | None => Ok []
  end.

Fixpoint setup_cfg_loop (lines : list string) (packages : list string)
  : list string :=
  match lines with
  | [] => packages
  | line :: rest =>
      let line := strip line in
      if negb (is_empty line) && negb (startswith "#" line) then
        let pkg := strip (before_comparator line) in
        if negb (is_empty pkg)
        then setup_cfg_loop rest (packages ++ [lower pkg])
        else setup_cfg_loop rest packages
      else setup_cfg_loop rest packages
  end.

(** There is no [try] in this function: what [read_string] or [get]
    raises leaves it. *)
Definition extract_packages_from_setup_cfg (text : string)
  : result (list string) :=
  cfg ← read_string text;
  if has_option cfg "options" "install_requires" then
    deps_str ← config_get cfg "options" "install_requires";
    Ok (setup_cfg_loop (splitlines deps_str) [])
  else Ok [].

Fixpoint pyproject_loop (deps : list toml) (packages : list string)
  : result (list string) :=
  match deps with
  | [] => Ok packages
  | dep :: rest =>
      head ← toml_before_comparator dep;
      let pkg := strip head in
      if negb (is_empty pkg)
      then pyproject_loop rest (packages ++ [lower pkg])
      else pyproject_loop rest packages
  end.

(** [[pkg.lower() for pkg in poetry_deps if pkg.lower() != 'python']] *)
Fixpoint poetry_names (keys : list toml) : result (list string) :=
  match keys with
  | [] => Ok []
  | pkg :: rest =>
      low ← toml_lower pkg;
      if negb (String.eqb low "python")
      then (low' ← toml_lower pkg; names ← poetry_names rest; Ok (low' :: names))
      else poetry_names rest
  end.

(** [key1 in data and key2 in data[key1]] *)
Definition has_nested (data : list (string * toml)) (key1 key2 : string)
  : result bool :=
  if dict_has data key1 then
    inner ← toml_getitem (TTable data) key1;
    toml_in key2 inner
  else Ok false.

Definition pyproject_of_data (data : list (string * toml))
  : result (list string) :=
  in_project ← has_nested data "project" "dependencies";
  if (in_project : bool) then
    project ← toml_getitem (TTable data) "project";
    deps ← toml_getitem project "dependencies";
    items ← toml_iter deps;
    pyproject_loop items []
  else
    in_poetry ← has_nested data "tool" "poetry";
    if (in_poetry : bool) then
      tool ← toml_getitem (TTable data) "tool";
      poetry ← toml_getitem tool "poetry";
      poetry_deps ← toml_get_or_empty poetry "dependencies";
      keys ← toml_iter poetry_deps;
      poetry_names keys
    else Ok [].

Definition extract_packages_from_pyproject (text : string)
  : result (list string) :=
  try_except (data ← toml_loads text; pyproject_of_data data) (Ok []).

Definition extract_from_file (file_name file_text : string)
  : result (list string) :=
  if endswith "requirements.txt" file_name then
    Ok (extract_packages_from_requirements file_text)
  else if String.eqb file_name "setup.py" then
    extract_packages_from_setup_py file_text
  else if String.eqb file_name "setup.cfg" then
    extract_packages_from_setup_cfg file_text
  else if endswith "pyproject.toml" file_name then
    extract_packages_from_pyproject file_text
  else Ok (extract_packages_from_requirements file_text).
End normaliser.

(** ** Repository aggregator *)

(** A raw repository: its name and the content source.  [get_contents]
    stands for [repo.get_contents(file_name)] followed by the decoding of
    the file; it raises when the file is absent or the request fails. *)
Record repo : Type := {
  full_name : string;
  get_contents : string → result string
}.

Definition dependency_files : list string :=
  ["requirements.txt"; "setup.py"; "setup.cfg"; "pyproject.toml"].

Section aggregator.
Context `{ParserLibs}.

(** The body of the [try] in [process_repo], up to the [extend]. *)
Definition packages_of_file (r : repo) (file_name : string)
  : result (list string) :=
  file_text ← get_contents r file_name;
  extract_from_file file_name file_text.

(** The loop of [process_repo]; [aggregated_packages] is the list so
    far.  [except Exception: continue] leaves it as it is. *)
Fixpoint process_files (r : repo) (files : list string)
    (aggregated_packages : list string) : list string :=
  match files with
  | [] => aggregated_packages
  | file_name :: rest =>
      match packages_of_file r file_name with
      | Ok packages => process_files r rest (aggregated_packages ++ packages)
      | Raise _ => process_files r rest aggregated_packages
      end
  end.

(** [list(set(xs))].  Python leaves the order of the result open; the
    properties below use its members and their distinctness only. *)
Definition list_of_set (xs : list string) : list string :=
  elements (list_to_set xs : gset string).

Definition process_repo (r : repo) : option (string * list string) :=
  let aggregated_packages :=
    list_of_set (process_files r dependency_files []) in
  match aggregated_packages with
  | [] => None
  | _ :: _ => Some (full_name r, aggregated_packages)
  end.

(** The loop over [as_completed]: [completed] lists the repositories in
    the order in which their tasks finish. *)
Fixpoint collect_results (completed : list repo)
    (repos_dependencies : list (string * list string))
  : list (string * list string) :=
  match completed with
  | [] => repos_dependencies
  | r :: rest =>
      match process_repo r with
      | Some (repo_name, aggregated_packages) =>
          collect_results rest
            (dict_set repos_dependencies repo_name aggregated_packages)
      | None => collect_results rest repos_dependencies
      end
  end.

(** [extract_dependencies(raw_repos)] returns [out]: one task per value
    of [raw_repos], finishing in any order. *)
Definition extract_dependencies (raw_repos : list (string * repo))
    (out : list (string * list string)) : Prop :=
  ∃ completed, completed ≡ₚ dict_values raw_repos
               ∧ out = collect_results completed [].
End aggregator.

(** ** Feature matrix builder *)

Definition str_le (a b : string) : Prop := String.leb a b = true.

Global Instance str_le_dec a b : Decision (str_le a b).
Proof. unfold str_le. apply _. Defined.

(** [sorted(xs)] on strings *)
Definition sorted (xs : list string) : list string := merge_sort str_le xs.

Section matrix.
Variable repos : list (string * list string).

Definition repo_names : list string := dict_keys repos.
Definition num_repos : nat := length repo_names.

(** [set(pkg for pkgs in repos.values() for pkg in pkgs)] *)
Definition package_set : gset string :=
  list_to_set (concat (dict_values repos)).

Definition all_packages : list string := sorted (elements package_set).
Definition num_packages : nat := length all_packages.

(** [np.zeros((num_repos, num_packages), dtype=int)] *)
Definition zeros (rows cols : nat) : list (list Z) :=
  replicate rows (replicate cols 0%Z).

(** [{pkg: idx for idx, pkg in enumerate(all_packages)}] *)
Fixpoint index_from (idx : nat) (pkgs : list string) (m : gmap string nat)
  : gmap string nat :=
  match pkgs with
  | [] => m
  | pkg :: rest => index_from (S idx) rest (<[pkg := idx]> m)
  end.

Definition package_to_index : gmap string nat := index_from 0 all_packages ∅.

(** [X[i, j] = 1].  The indices the loops produce are those of a row and
    of a column of [X], so the assignment never fails. *)
Definition set_one (X : list (list Z)) (i j : nat) : list (list Z) :=
  match X !! i with
  | Some row => <[i := <[j := 1%Z]> row]> X
  | None => X
  end.

(** The inner loop: [for pkg in repos[repo]]. *)
Fixpoint fill_row (i : nat) (pkgs : list string) (X : list (list Z))
  : list (list Z) :=
  match pkgs with
  | [] => X
  | pkg :: rest =>
      match package_to_index !! pkg with
      | Some j => fill_row i rest (set_one X i j)
      | None => fill_row i rest X
      end
  end.

(** The outer loop: [for i, repo in enumerate(repo_names)]. *)
Fixpoint fill_from (i : nat) (names : list string) (X : list (list Z))
  : list (list Z) :=
  match names with
  | [] => X
  | repo :: rest =>
      fill_from (S i) rest (fill_row i (default [] (dict_get repos repo)) X)
  end.

Definition feature_matrix : list (list Z) :=
  fill_from 0 repo_names (zeros num_repos num_packages).
End matrix.

(** [X[i][j]], 0 outside the matrix *)
Definition entry (X : list (list Z)) (i j : nat) : Z :=
  default 0%Z (X !! i ≫= (.!! j)).

(** ** Cluster count selector and partitioner *)

Record fitted : Type := {
  labels_ : list nat;
  inertia_ : Q
}.

(** [KMeans(n_clusters, random_state).fit(X)].  [entropy] is the state of
    the process-wide random generator, which the library draws from when
    [random_state] is [None]. *)
Class ClusterLib : Type := {
  kmeans_fit : nat → option Z → Z → list (list Z) → result fitted
}.

(** One call of the clustering library: the cluster count, the seed and
    whether the fit ran to its end. *)
Inductive event : Type :=
  | Fit (n_clusters : nat) (random_state : Z) (completed : bool).

Section clustering.
Context `{ClusterLib}.
Variable X : list (list Z).
Variable entropy : Z.

(** The loop of [elbow_method]; [sse] and [log] are the values so far. *)
Fixpoint elbow_loop (k_values : list nat) (sse : list Q) (log : list event)
  : list event * result (list Q) :=
  match k_values with
  | [] => (log, Ok sse)
  | k :: rest =>
      match kmeans_fit k (Some 42%Z) entropy X with
      | Ok kmeans =>
          elbow_loop rest (sse ++ [inertia_ kmeans]) (log ++ [Fit k 42 true])
      | Raise e => (log ++ [Fit k 42 false], Raise e)
      end
  end.

(** [elbow_method(X, fname, max_k)]: the points [(k, sse)] it plots. *)
Definition elbow_method (max_k : nat) (log : list event)
  : list event * result (list (nat * Q)) :=
  let k_values := seq 1 max_k in
  let '(log', r) := elbow_loop k_values [] log in
  (log', sse ← r; Ok (zip k_values sse)).

(** [KMeans(n_clusters=k, random_state=8675309).fit_predict(X)] *)
Definition partition (k : nat) (log : list event)
  : list event * result (list nat) :=
  match kmeans_fit k (Some 8675309%Z) entropy X with
  | Ok kmeans => (log ++ [Fit k 8675309 true], Ok (labels_ kmeans))
  | Raise e => (log ++ [Fit k 8675309 false], Raise e)
  end.

(** The clustering part of [main.py]: the elbow method with its default
    [max_k], then the partitioner with [optimal_k]. *)
Definition cluster_stage (optimal_k : nat) : list event * result (list nat) :=
  let '(log, r) := elbow_method 10 [] in
  match r with
  | Ok _ => partition optimal_k log
  | Raise e => (log, Raise e)
  end.

Definition optimal_k : nat := 5.

Definition clusters : list event * result (list nat) :=
  cluster_stage optimal_k.
End clustering.

(** ** Iterative relocation *)

(** The partitioning algorithm is the [KMeans] of an external library,
    which is not part of the repository.  This module follows its
    description in section 4.5 of the specification, with exact
    arithmetic. *)
Module Lloyd.
Definition point : Type := list Q.

Definition of_row (row : list Z) : point := fmap inject_Z row.

Definition sqdist (p c : point) : Q :=
  foldr Qplus 0%Q (zip_with (λ x y, (x - y) * (x - y))%Q p c).

Definition Qlt_bool (a b : Q) : bool := negb (Qle_bool b a).

(** The index of the first centroid at the least distance; [j] is the
    index of the head of [cs]. *)
Fixpoint nearest_from (cs : list point) (p : point) (j best : nat)
    (best_d : Q) : nat :=
  match cs with
  | [] => best
  | c :: cs' =>
      let d := sqdist p c in
      if Qlt_bool d best_d then nearest_from cs' p (S j) j d
      else nearest_from cs' p (S j) best best_d
  end.

Definition nearest (cs : list point) (p : point) : nat :=
  match cs with
  | [] => 0
  | c :: cs' => nearest_from cs' p 1 0 (sqdist p c)
  end.

Definition assign (cs : list point) (pts : list point) : list nat :=
  fmap (nearest cs) pts.

Definition vec_add (p q : point) : point := zip_with Qplus p q.

Definition mean (c : point) (members : list point) : point :=
  match members with
  | [] => c
  | m :: ms =>
      fmap (λ s, s / inject_Z (Z.of_nat (length members)))%Q
          (foldl vec_add m ms)
  end.

Definition members_of (j : nat) (labels : list nat) (pts : list point)
  : list point :=
  fmap snd (filter (λ lp, lp.1 = j) (zip labels pts)).

Definition recompute (cs : list point) (labels : list nat)
    (pts : list point) : list point :=
  imap (λ j c, mean c (members_of j labels pts)) cs.

Fixpoint relocate (cap : nat) (cs : list point) (pts : list point)
  : list point :=
  match cap with
  | 0 => cs
  | S cap' =>
      let labels := assign cs pts in
      let cs' := recompute cs labels pts in
      if decide (assign cs' pts = labels) then cs'
      else relocate cap' cs' pts
  end.

Definition inertia (cs : list point) (labels : list nat) (pts : list point)
  : Q :=
  foldr Qplus 0%Q
    (zip_with (λ l p, sqdist p (default [] (cs !! l))) labels pts).

Definition max_iter : nat := 300.

Section fit.
(** [init seed k pts]: the first centroids *)
Variable init : Z → nat → list point → list point.

(** Modelled from the spec: the [fit] of the clustering library, which is
    missing from the sources.  It rejects a cluster count of zero or above
    the number of rows, initialises the centroids, assigns every point to
    its nearest centroid, recomputes every centroid as the mean of its
    points and repeats until the assignment is stable or the iteration cap
    is reached.  The seeded choice of the first centroids is a parameter,
    and a centroid without points keeps its place. *)
Definition fit (k : nat) (seed : Z) (X : list (list Z)) : result fitted :=
  if (k =? 0) || (length X <? k) then Raise ValueError
  else
    let pts := fmap of_row X in
    let cs := relocate max_iter (init seed k pts) pts in
    let labels := assign cs pts in
    Ok {| labels_ := labels; inertia_ := inertia cs labels pts |}.

Definition lib : ClusterLib :=
  {| kmeans_fit k random_state entropy X :=
       fit k (default entropy random_state) X |}.
End fit.

(** A choice of first centroids: [k] consecutive points, starting at a
    position given by the seed. *)
Definition rotate_init (seed : Z) (k : nat) (pts : list point) : list point :=
  take k (rotate (Z.to_nat (seed `mod` Z.of_nat (length pts))) pts).
End Lloyd.

(** ** Cluster summariser *)

(** [d.setdefault(label, []).append(repo)] *)
Fixpoint setdefault_append (d : list (nat * list string)) (label : nat)
    (repo : string) : list (nat * list string) :=
  match d with
  | [] => [(label, [repo])]
  | (l, members) :: d' =>
      if decide (l = label) then (l, members ++ [repo]) :: d'
      else (l, members) :: setdefault_append d' label repo
  end.

(** The loop over [zip(repo_names, clusters)]. *)
Fixpoint group_repos (pairs : list (string * nat))
    (cluster_repo_map : list (nat * list string)) : list (nat * list string) :=
  match pairs with
  | [] => cluster_repo_map
  | (repo, label) :: rest =>
      group_repos rest (setdefault_append cluster_repo_map label repo)
  end.

(** [counter[x] += 1], as [Counter] does it when it reads [x]. *)
Fixpoint counter_add (counter : list (string * nat)) (x : string)
  : list (string * nat) :=
  match counter with
  | [] => [(x, 1)]
  | (y, n) :: counter' =>
      if decide (y = x) then (y, S n) :: counter'
      else (y, n) :: counter_add counter' x
  end.

(** [Counter(xs)] *)
Definition Counter (xs : list string) : list (string * nat) :=
  foldl counter_add [] xs.

(** [sorted(items, key=itemgetter(1), reverse=True)].  The sort is stable,
    also when reversed: [x], which comes before all of [sorted_rest] in
    the input, goes before the first item whose count is not larger. *)
Fixpoint insert_by_count (x : string * nat) (sorted_rest : list (string * nat))
  : list (string * nat) :=
  match sorted_rest with
  | [] => [x]
  | y :: rest =>
      if x.2 <? y.2 then y :: insert_by_count x rest else x :: y :: rest
  end.

Definition sorted_by_count (items : list (string * nat))
  : list (string * nat) :=
  foldr insert_by_count [] items.

(** [counter.most_common(n)], which is [heapq.nlargest(n, counter.items(),
    key=itemgetter(1))]: the first [n] of the items sorted as above. *)
Definition most_common (n : nat) (counter : list (string * nat))
  : list (string * nat) :=
  take n (sorted_by_count counter).

Section summariser.
Variable repos : list (string * list string).

(** [cluster_packages] after the loop over [repo_list] *)
Definition cluster_packages (repo_list : list string) : list string :=
  concat (fmap (λ repo, default [] (dict_get repos repo)) repo_list).

(** The loop over [cluster_repo_map.items()]. *)
Fixpoint summarise (items : list (nat * list string))
    (cluster_top_packages : list (nat * list (string * nat)))
  : list (nat * list (string * nat)) :=
  match items with
  | [] => cluster_top_packages
  | (label, repo_list) :: rest =>
      let counter := Counter (cluster_packages repo_list) in
      let top_10 := most_common 10 counter in
      summarise rest (dict_set cluster_top_packages label top_10)
  end.

Definition cluster_top_packages (labels : list nat)
  : list (nat * list (string * nat)) :=
  let cluster_repo_map := group_repos (zip (repo_names repos) labels) [] in
  summarise cluster_repo_map [].
End summariser.

(** ** The line-oriented parser as a sequence of steps *)

Definition nonempty (s : string) : bool := negb (is_empty s).

(** A line to skip: blank, or starting with [#] or [-]. *)
Definition skipped_line (line : string) : bool :=
  is_empty (strip line) || startswith "#" line || startswith "-" line.

(** Skip lines; strip inline comments; truncate at the first comparator;
    trim; lower-case; drop what became empty. *)
Definition requirements_steps (lines : list string) : list string :=
  filter (λ pkg, nonempty pkg)
    (lower <$> (strip <$> (before_comparator <$> (before_comment <$>
       filter (λ line, ¬ skipped_line line) lines)))).

(** The steps on the lines of the text as they stand. *)
Definition requirements_by_steps (text : string) : list string :=
  requirements_steps (splitlines text).

(** The steps on the lines of the text, each trimmed first. *)
Definition requirements_trim_first (text : string) : list string :=
  requirements_steps (strip <$> splitlines text).

(** ** The project-metadata parser on well-formed documents *)

(** Truncate at the first comparator, trim, lower-case, drop what became
    empty: what the parsers do to a list of requirement strings. *)
Definition normalise_all (deps : list string) : list string :=
  filter (λ pkg, nonempty pkg)
    (lower <$> (strip <$> (before_comparator <$> deps))).

(** The names taken from the keys of a poetry table as the specification
    words it: the key [python] left out, the others truncated and
    lower-cased. *)
Definition poetry_keys_truncated (keys : list string) : list string :=
  lower <$> (before_comparator <$> filter (λ key, key ≠ "python") keys).

(** The names as the source takes them: lower-cased, and left out when
    the lower-cased key is [python]. *)
Definition poetry_keys_lowered (keys : list string) : list string :=
  filter (λ low, low ≠ "python") (lower <$> keys).

(** A document with a poetry table only; one of its keys is quoted and
    contains comparator characters. *)
Definition poetry_doc : list (string * toml) :=
  [("tool", TTable [("poetry", TTable [("dependencies",
      TTable [("python", TStr "^3.8"); ("Requests>=2", TStr "*")])])])].

(** A document with both locations. *)
Definition both_doc : list (string * toml) :=
  [("project", TTable [("name", TStr "demo");
                       ("dependencies",
                        TArray [TStr "Flask >= 2.0"; TStr "NumPy"; TStr "=="])]);
   ("tool", TTable [("poetry", TTable [("dependencies",
      TTable [("python", TStr "^3.8"); ("attrs", TStr "*")])])])].

(** ** Sample manifests *)

Definition newline : string := String "010"%char EmptyString.

Definition sample_requirements : string :=
  "Flask>=1.0  # web" +:+ newline +:+ "# tools" +:+ newline +:+
  "-r base.txt" +:+ newline +:+ "NumPy == 1.2" +:+ newline.

Definition sample_setup_py : string :=
  "setup(name='demo', install_requires = ['Flask>=1.0', 'Requests'])".

Definition sample_setup_cfg : string :=
  "[options]" +:+ newline +:+ "install_requires =" +:+ newline +:+
  "    attrs>=19" +:+ newline +:+ "    # pinned" +:+ newline +:+
  "    Click" +:+ newline.

Definition sample_pyproject : string :=
  "[project]" +:+ newline +:+ "name = 'demo'" +:+ newline +:+
  "dependencies = ['Flask >= 2.0', 'NumPy', '==']" +:+ newline +:+
  "[tool.poetry.dependencies]" +:+ newline +:+
  "python = '^3.8'" +:+ newline +:+ "attrs = '*'" +:+ newline.

(** A stand-in for the parsing libraries.  It knows the sample manifests
    and gives for them what the libraries give; it refuses every other
    text, as the libraries refuse a text that is not of their format. *)
Definition sample_libs : ParserLibs := {|
  literal_eval s :=
    if String.eqb s "['Flask>=1.0', 'Requests']"
    then Ok (LList [LStr "Flask>=1.0"; LStr "Requests"])
    else Raise SyntaxError;
  toml_loads s :=
    if String.eqb s sample_pyproject then Ok both_doc
    else Raise TomlDecodeError;
  config := list (string * list (string * string));
  read_string s :=
    if String.eqb s sample_setup_cfg
    then Ok [("options",
              [("install_requires",
                newline +:+ "attrs>=19" +:+ newline +:+ "Click")])]
    else Raise MissingSectionHeaderError;
  has_option cfg section option :=
    match dict_get cfg section with
    | Some options => dict_has options option
    | None => false
    end;
  config_get cfg section option :=
    match dict_get cfg section ≫= (λ options, dict_get options option) with
    | Some value => Ok value
    | None => Raise NoOptionError
    end
|}.

(** ** What the aggregator collects for a repository *)

Section contribution.
Context `{ParserLibs}.

(** The packages one candidate file adds: none when its fetch or its parse
    raises. *)
Definition contribution (r : repo) (file_name : string) : list string :=
  match packages_of_file r file_name with
  | Ok packages => packages
  | Raise _ => []
  end.

(** The per-file lists of the candidates, in their order, concatenated. *)
Definition combined (r : repo) : list string :=
  concat (contribution r <$> dependency_files).
End contribution.

(** ** Sample repositories *)

Definition absent : result string := Raise UnknownObjectException.

(** Manifests in two formats. *)
Definition repo_two_formats : repo := {|
  full_name := "acme/web";
  get_contents file_name :=
    if String.eqb file_name "requirements.txt" then Ok sample_requirements
    else if String.eqb file_name "setup.cfg" then Ok sample_setup_cfg
    else absent
|}.

(** No manifest at all. *)
Definition repo_no_manifest : repo := {|
  full_name := "acme/empty";
  get_contents file_name := absent
|}.

(** A [setup.cfg] that is not a configuration file, beside a [setup.py]. *)
Definition repo_broken_cfg : repo := {|
  full_name := "acme/broken";
  get_contents file_name :=
    if String.eqb file_name "setup.cfg" then Ok "Flask>=1.0"
    else if String.eqb file_name "setup.py" then Ok sample_setup_py
    else absent
|}.

Definition sample_raw_repos : list (string * repo) :=
  [("acme/web", repo_two_formats);
   ("acme/empty", repo_no_manifest);
   ("acme/broken", repo_broken_cfg)].

(** ** The rows of the feature matrix *)

(** The row of a repository with packages [pkgs] over a vocabulary: 1
    where the word of the column is one of [pkgs], 0 elsewhere. *)
Definition indicator (vocabulary pkgs : list string) : list Z :=
  (λ pkg, if decide (pkg ∈ pkgs) then 1%Z else 0%Z) <$> vocabulary.

(** What the inner loop does to the row it works on. *)
Definition mark_row (index : gmap string nat) (pkgs : list string)
    (row : list Z) : list Z :=
  foldl (λ row pkg,
           match index !! pkg with
           | Some j => <[j := 1%Z]> row
           | None => row
           end) row pkgs.

(** One mapping in two iteration orders. *)
Definition repos_ab : list (string * list string) :=
  [("acme/a", ["numpy"; "flask"]); ("acme/b", ["flask"])].

Definition repos_ba : list (string * list string) :=
  [("acme/b", ["flask"]); ("acme/a", ["numpy"; "flask"])].

(** ** The ranking of a cluster's packages *)

(** The repositories with label [label], in repository order. *)
Definition label_members (repos : list (string * list string))
    (labels : list nat) (label : nat) : list string :=
  (filter (λ rl, rl.2 = label) (zip (repo_names repos) labels)).*1.

(** How often [pkg] occurs in [xs]. *)
Definition frequency (pkg : string) (xs : list string) : nat :=
  length (filter (λ x, x = pkg) xs).

(** The distinct members of [xs], each where it occurs first. *)
Fixpoint distinct (xs : list string) : list string :=
  match xs with
  | [] => []
  | x :: xs' => x :: filter (λ y, y ≠ x) (distinct xs')
  end.

(** Every package met, with its frequency, in the order of first
    encounter. *)
Definition by_first_encounter (xs : list string) : list (string * nat) :=
  (λ pkg, (pkg, frequency pkg xs)) <$> distinct xs.

(** Descending by count. *)
Definition by_count_desc (a b : string * nat) : Prop := b.2 ≤ a.2.

(** Three repositories with the lists [{a, b}], [{a, b}] and [{c}]. *)
Definition repos_abc : list (string * list string) :=
  [("acme/one", ["a"; "b"]); ("acme/two", ["a"; "b"]); ("acme/three", ["c"])].

(** ** A sample feature matrix *)

(** The matrix of [repos_abc]. *)
Definition X_abc : list (list Z) := [[1; 1; 0]; [1; 1; 0]; [0; 0; 1]]%Z.

Definition sample_cluster_lib : ClusterLib := Lloyd.lib Lloyd.rotate_init.

(** ** Repository discovery *)

(** What iterating over the search results does: it ends, it yields a
    repository, or the request for the next page raises; the handlers of
    [scrape_github] look at whether the exception is a
    [RateLimitExceededException] and at its message. *)
Inductive feed : Type :=
  | Exhausted
  | Yield (r : repo) (rest : feed)
  | Interrupted (rate_limit_exceeded : bool) (message : string).

(** The repositories a feed yields before it ends or is interrupted. *)
Fixpoint yielded (repositories : feed) : list repo :=
  match repositories with
  | Yield r rest => r :: yielded rest
  | _ => []
  end.

(** The loop of [scrape_github] with its handlers; printing and pacing
    are left out.  Every way out of the loop returns [raw_repos]. *)
Fixpoint scrape_loop (max_repos : Z) (repositories : feed)
    (raw_repos : list (string * repo)) : list (string * repo) :=
  match repositories with
  | Exhausted => raw_repos
  | Yield r rest =>
      if (max_repos <=? Z.of_nat (length raw_repos))%Z then raw_repos
      else if dict_has raw_repos (full_name r)
      then scrape_loop max_repos rest raw_repos
      else scrape_loop max_repos rest (dict_set raw_repos (full_name r) r)
  | Interrupted rate_limit_exceeded message =>
      if rate_limit_exceeded then raw_repos
      else if contains "rate limit" (lower message) then raw_repos
      else raw_repos
  end.

(** [scrape_github(token, max_repos, min_stars)]; [search] is what
    [g.search_repositories(query, ...)] does. *)
Definition scrape_github (search : result feed) (max_repos : Z)
  : list (string * repo) :=
  match search with
  | Raise _ => []
  | Ok repositories => scrape_loop max_repos repositories []
  end.

(** A feed that repeats a repository and is cut off by the rate limit. *)
Definition sample_feed : feed :=
  Yield repo_two_formats
    (Yield repo_no_manifest
      (Yield repo_two_formats
        (Yield repo_broken_cfg
          (Interrupted true "API rate limit exceeded")))).

(** The fits of the stand-in clustering library on the sample matrix. *)
Definition sample_fits (k : nat) : fitted :=
  match kmeans_fit (ClusterLib := sample_cluster_lib) k (Some 42%Z) 0 X_abc with
  | Ok kmeans => kmeans
  | Raise _ => {| labels_ := []; inertia_ := 0 |}
  end.

(** ** Shapes of strings *)

(** Every character of [s] satisfies [P]. *)
Fixpoint all_chars (P : ascii → bool) (s : string) : bool :=
  match s with
  | EmptyString => true
  | String c s' => P c && all_chars P s'
  end.

(** [s] is not empty and its first character satisfies [P]. *)
Definition head_is (P : ascii → bool) (s : string) : bool :=
  match s with
  | EmptyString => false
  | String c _ => P c
  end.

(** A first character that is neither white space nor [#] nor [-]. *)
Definition plain_head (c : ascii) : bool :=
  negb (isspace c) && negb (Ascii.eqb "#" c) && negb (Ascii.eqb "-" c).

Definition not_linebreak (c : ascii) : bool := negb (is_linebreak c).
Definition not_comparator (c : ascii) : bool := negb (is_comparator c).

(** ** Plots *)

(** [IndexError], raised by an index or a mask that does not fit. *)
Definition IndexError : exn := OtherError "IndexError".

(** What [cluster_plot] draws into its figure: the points of a cluster
    with a colour of the palette and a legend label, and the filled hull
    of a cluster. *)
Inductive drawing (point : Type) : Type :=
  | Scatter (points : list point) (colour : nat) (label : string)
  | Fill (polygon : list point) (colour : nat).
Arguments Scatter {point} points colour label.
Arguments Fill {point} polygon colour.

Section cluster_plot.
Context {point : Type}.

(** [ConvexHull(cluster_points).vertices], of the geometry library *)
Variable convex_hull : list point → result (list nat).

Variable clusters : list nat.
Variable X_pca : list point.

(** [X_pca[clusters == cluster_id]]: the mask must be as long as the
    array. *)
Definition cluster_points_of (cluster_id : nat) : result (list point) :=
  if decide (length clusters = length X_pca)
  then Ok ((filter (λ lp, lp.1 = cluster_id) (zip clusters X_pca)).*2)
  else Raise IndexError.

(** [cluster_points[hull_vertices]] *)
Fixpoint points_at (cluster_points : list point) (hull_vertices : list nat)
  : result (list point) :=
  match hull_vertices with
  | [] => Ok []
  | i :: rest =>
      match cluster_points !! i with
      | Some p => ps ← points_at cluster_points rest; Ok (p :: ps)
      | None => Raise IndexError
      end
  end.

(** The loop of [cluster_plot]; [drawn] is the figure so far. *)
Fixpoint plot_clusters (cluster_ids : list nat) (drawn : list (drawing point))
  : result (list (drawing point)) :=
  match cluster_ids with
  | [] => Ok drawn
  | cluster_id :: rest =>
      cluster_points ← cluster_points_of cluster_id;
      let drawn :=
        drawn ++ [Scatter cluster_points cluster_id
                    ("Cluster " +:+ pretty (cluster_id + 1))] in
      if 2 <? length cluster_points then
        vertices ← convex_hull cluster_points;
        first ← match vertices with
                | v :: _ => Ok v
                | [] => Raise IndexError
                end;
        polygon ← points_at cluster_points (vertices ++ [first]);
        plot_clusters rest (drawn ++ [Fill polygon cluster_id])
      else plot_clusters rest drawn
  end.

(** [cluster_plot(optimal_k, clusters, X_pca, fname)]: the figure it
    saves, or the exception that ends it before. *)
Definition cluster_plot (optimal_k : nat) : result (list (drawing point)) :=
  plot_clusters (seq 0 optimal_k) [].
End cluster_plot.

(** The point lists of the scatter plots of a figure, in order. *)
Definition scattered {point} (drawn : list (drawing point))
  : list (list point) :=
  omap (λ d, match d with
             | Scatter points _ _ => Some points
             | Fill _ _ => None
             end) drawn.

(** One saved bar chart. *)
Record chart : Type := {
  chart_file : string;
  chart_title : string;
  chart_packages : list string;
  chart_frequencies : list nat;
  chart_colour : nat
}.

Definition chart_of (fname : string) (cluster : nat)
    (top10 : list (string * nat)) : chart :=
  {| chart_file := fname +:+ "_cluster" +:+ pretty (cluster + 1) +:+ ".png";
     chart_title := "Top 10 Packages in Cluster " +:+ pretty (cluster + 1);
     chart_packages := top10.*1;
     chart_frequencies := top10.*2;
     chart_colour := cluster |}.

Section bar_charts.
Variable cluster_top_packages : list (nat * list (string * nat)).
Variable optimal_k : nat.
Variable fname : string.

(** The loop of [cluster_bar_charts]; [saved] lists the charts written
    so far, which stay written when a later cluster raises.  The palette
    has [optimal_k] colours. *)
Fixpoint bar_charts_loop (clusters : list nat) (saved : list chart)
  : list chart * result unit :=
  match clusters with
  | [] => (saved, Ok ())
  | cluster :: rest =>
      match dict_get cluster_top_packages cluster with
      | None => (saved, Raise KeyError)
      | Some top10 =>
          match top10 with
          | [] => bar_charts_loop rest saved
          | _ :: _ =>
              if optimal_k <=? cluster then (saved, Raise IndexError)
              else bar_charts_loop rest
                     (saved ++ [chart_of fname cluster top10])
          end
      end
  end.

(** [cluster_bar_charts(cluster_top_packages, optimal_k, fname)] *)
Definition cluster_bar_charts : list chart * result unit :=
  bar_charts_loop (merge_sort (≤) (dict_keys cluster_top_packages)) [].
End bar_charts.

(** Four projected points in two clusters, and a hull that takes every
    point as a vertex. *)
Definition sample_points : list (Z * Z) :=
  [(0, 0); (4, 0); (9, 9); (0, 3)]%Z.

Definition sample_hull (points : list (Z * Z)) : result (list nat) :=
  Ok (seq 0 (length points)).

(** The labels of [sample_points], and the figure [cluster_plot] saves for
    them with two clusters. *)
Definition sample_labels : list nat := [0; 0; 1; 0].

Definition sample_figure : list (drawing (Z * Z)) :=
  [Scatter [(0, 0); (4, 0); (0, 3)]%Z 0 "Cluster 1";
   Fill [(0, 0); (4, 0); (0, 3); (0, 0)]%Z 0;
   Scatter [(9, 9)]%Z 1 "Cluster 2"].

(** ** The aggregator and the summariser, read off their inputs *)

Section listed.
Context `{ParserLibs}.

(** The packages candidate [file_name] of repository [r] lists: those of
    its text when the file can be fetched and its text parsed, none when
    the fetch or the parse fails. *)
Definition listed_in (r : repo) (file_name : string) : list string :=
  match get_contents r file_name with
  | Ok file_text =>
      match extract_from_file file_name file_text with
      | Ok file_packages => file_packages
      | Raise _ => []
      end
  | Raise _ => []
  end.
End listed.

(** The package occurrences of a cluster, read off the mapping: its
    repositories in their order, each with the label at its position; the
    lists of the repositories labelled [label], one after the other. *)
Definition occurrences (repos : list (string * list string))
    (labels : list nat) (label : nat) : list string :=
  concat (filter (λ rl, rl.2 = label) (zip repos labels)).*1.*2.

(** ** The project-metadata parser by location *)

(** The strings a loop over a value goes through: the elements of an
    array, the characters of a string, the keys of a table.  [None] when
    the value cannot be iterated or an item is not a string. *)
Definition strings_of (v : toml) : option (list string) :=
  match v with
  | TArray items =>
      mapM (λ item, match item with TStr s => Some s | _ => None end) items
  | TStr s => Some (chars s)
  | TTable entries => Some (dict_keys entries)
  | _ => None
  end.

(** The names taken from a value, none when it has no strings to give. *)
Definition names_from (names : list string → list string) (v : toml)
  : list string :=
  match strings_of v with
  | Some items => names items
  | None => []
  end.

(** The second location: the [dependencies] of a [poetry] table in a
    [tool] table. *)
Definition poetry_location (data : list (string * toml)) : list string :=
  match dict_get data "tool" with
  | Some (TTable tool) =>
      match dict_get tool "poetry" with
      | Some (TTable poetry) =>
          match dict_get poetry "dependencies" with
          | Some deps => names_from poetry_keys_lowered deps
          | None => []
          end
      | _ => []
      end
  | _ => []
  end.

(** The two locations in their order: [dependencies] in a [project] table
    decides alone; the second location is looked at when there is no
    [project], or a [project] table, string or array without
    [dependencies]. *)
Definition pyproject_by_location (data : list (string * toml)) : list string :=
  match dict_get data "project" with
  | None => poetry_location data
  | Some (TTable project) =>
      match dict_get project "dependencies" with
      | Some deps => names_from normalise_all deps
      | None => poetry_location data
      end
  | Some (TStr s) =>
      if contains "dependencies" s then [] else poetry_location data
  | Some (TArray items) =>
      if existsb (is_TStr "dependencies") items then []
      else poetry_location data
  | Some _ => []
  end.

(** Documents whose first location holds a string, and a table. *)
Definition string_deps_doc : list (string * toml) :=
  [("project", TTable [("dependencies", TStr "a=c")]);
   ("tool", TTable [("poetry", TTable [("dependencies",
      TTable [("attrs", TStr "*")])])])].

Definition table_deps_doc : list (string * toml) :=
  [("project", TTable [("dependencies", TTable [("Flask>=2", TStr "*")])])].

(** * Properties *)

(** ** Strings *)

Lemma is_empty_lower s : is_empty (lower s) = is_empty s.
Proof. by destruct s. Qed.

Lemma lstrip_fixed s : lstrip (lstrip s) = lstrip s.
Proof.
  induction s as [|c s IH]; simpl; [done|].
  destruct (isspace c) eqn:E; [done|]. simpl. by rewrite E.
Qed.

Lemma rstrip_empty_iff s : is_empty (rstrip s) = is_empty (lstrip s).
Proof.
  induction s as [|c s IH]; simpl; [done|].
  destruct (isspace c) eqn:E; simpl.
  - rewrite <- IH. by destruct (is_empty (rstrip s)).
  - done.
Qed.

Lemma rstrip_fixed s : rstrip (rstrip s) = rstrip s.
Proof.
  induction s as [|c s IH]; simpl; [done|].
  destruct (isspace c && is_empty (rstrip s)) eqn:E; simpl; [done|].
  rewrite IH. by rewrite E.
Qed.

(** Trimming on the right leaves the left end alone. *)
Lemma lstrip_rstrip s : lstrip (rstrip (lstrip s)) = rstrip (lstrip s).
Proof.
  induction s as [|c s IH]; simpl; [done|].
  destruct (isspace c) eqn:E; [done|].
  simpl. rewrite E. simpl. by rewrite E.
Qed.

Lemma strip_fixed s : strip (strip s) = strip s.
Proof. unfold strip. by rewrite lstrip_rstrip, rstrip_fixed. Qed.

(** ** The line-oriented parser *)

Lemma requirements_steps_nil : requirements_steps [] = [].
Proof. reflexivity. Qed.

(** One line of the steps, when the line is already trimmed. *)
Lemma requirements_steps_cons line lines :
  requirements_steps (line :: lines) =
    (if skipped_line line then []
     else let pkg := strip (before_comparator (before_comment line)) in
          if nonempty pkg then [lower pkg] else [])
    ++ requirements_steps lines.
Proof.
  unfold requirements_steps. rewrite filter_cons.
  destruct (skipped_line line) eqn:E.
  - rewrite decide_False; [done|]. intros Hn. by apply Hn.
  - rewrite decide_True; [|by intros ?].
    rewrite !fmap_cons, filter_cons. simpl.
    set (pkg := strip (before_comparator (before_comment line))).
    assert (Hn : nonempty (lower pkg) = nonempty pkg)
      by (unfold nonempty; by rewrite is_empty_lower).
    case_decide as Hd; rewrite Hn in Hd; destruct (nonempty pkg); naive_solver.
Qed.

Lemma requirements_loop_steps lines packages :
  requirements_loop lines packages
  = packages ++ requirements_steps (strip <$> lines).
Proof.
  revert packages. induction lines as [|line lines IH]; intros packages.
  - simpl. by rewrite requirements_steps_nil, app_nil_r.
  - rewrite fmap_cons, requirements_steps_cons.
    cbn [requirements_loop]. cbv zeta.
    unfold skipped_line, nonempty. rewrite strip_fixed.
    destruct (is_empty (strip line) || startswith "#" (strip line)
              || startswith "-" (strip line)).
    + by rewrite IH.
    + destruct (is_empty (strip (before_comparator
                  (before_comment (strip line))))); cbn [negb].
      * by rewrite IH.
      * by rewrite IH, <- app_assoc.
Qed.

(** C2, as stated, fails on an indented option line: the source trims the
    line before it looks at its first character and skips it, while the
    steps taken on the line as it stands keep it. *)
Lemma requirements_by_steps_differs :
  extract_packages_from_requirements " -e pkg" = []
  ∧ requirements_by_steps " -e pkg" = ["-e pkg"].
Proof. split; reflexivity. Qed.

(** C2 (amended): for every text, the line-oriented parser returns exactly
    the tokens obtained by splitting the text into lines, trimming each
    line, skipping the trimmed lines that are blank or start with [#] or
    [-], stripping inline comments, truncating at the first of [<], [=],
    [>], trimming, lower-casing and dropping the tokens that became
    empty. *)
Theorem requirements_trim_first_correct (text : string) :
  extract_packages_from_requirements text = requirements_trim_first text.
Proof.
  unfold extract_packages_from_requirements, requirements_trim_first.
  by rewrite requirements_loop_steps.
Qed.

(** ** The project-metadata parser *)

Lemma pyproject_loop_strings deps packages :
  pyproject_loop (TStr <$> deps) packages = Ok (packages ++ normalise_all deps).
Proof.
  revert packages. induction deps as [|dep deps IH]; intros packages.
  - simpl. by rewrite app_nil_r.
  - rewrite fmap_cons. cbn [pyproject_loop toml_before_comparator mbind result_bind].
    cbv zeta. unfold normalise_all. rewrite !fmap_cons, filter_cons.
    set (pkg := strip (before_comparator dep)).
    assert (Hn : nonempty (lower pkg) = nonempty pkg)
      by (unfold nonempty; by rewrite is_empty_lower).
    fold (nonempty pkg). fold (normalise_all deps).
    case_decide as Hd; rewrite Hn in Hd; destruct (nonempty pkg);
      try naive_solver; rewrite IH; by rewrite <- ?app_assoc.
Qed.

Lemma poetry_names_strings keys :
  poetry_names (TStr <$> keys) = Ok (poetry_keys_lowered keys).
Proof.
  induction keys as [|key keys IH]; [done|].
  rewrite fmap_cons. cbn [poetry_names toml_lower mbind result_bind].
  unfold poetry_keys_lowered. rewrite fmap_cons, filter_cons.
  fold (poetry_keys_lowered keys). rewrite IH.
  destruct (String.eqb (lower key) "python") eqn:E; cbn [negb].
  - apply String.eqb_eq in E. by rewrite decide_False by naive_solver.
  - apply String.eqb_neq in E. by rewrite decide_True by done.
Qed.

Example pyproject_both_doc :
  pyproject_of_data both_doc = Ok ["flask"; "numpy"].
Proof. reflexivity. Qed.

(** C8, as stated, fails on a poetry table with a key that contains a
    comparator: the source lower-cases the key and does not truncate it. *)
Lemma poetry_keys_not_truncated :
  pyproject_of_data poetry_doc = Ok ["requests>=2"]
  ∧ poetry_keys_truncated ["python"; "Requests>=2"] = ["requests"].
Proof. split; reflexivity. Qed.

Section pyproject.
Context `{ParserLibs}.

Lemma has_nested_tables data key1 key2 inner :
  dict_get data key1 = Some (TTable inner) →
  has_nested data key1 key2 = Ok (dict_has inner key2).
Proof.
  intros Hget. unfold has_nested, dict_has.
  cbn [toml_getitem]. by rewrite Hget.
Qed.

End pyproject.

(** ** Which parsers can raise *)

Lemma try_except_total {A} (body : result A) (a : A) :
  ∃ a', try_except body (Ok a) = Ok a'.
Proof. destruct body; simpl; eauto. Qed.

Lemma try_except_raise {A} (body handler : result A) :
  raises body = true → try_except body handler = handler.
Proof. by destruct body. Qed.

(** ** The project-metadata parser by location *)

Section pyproject_by_location.
Context `{ParserLibs}.

Lemma strings_of_array items :
  match mapM (λ item, match item with TStr s => Some s | _ => None end) items
  with
  | Some ss => items = TStr <$> ss
  | None => ∃ before item after,
      items = (TStr <$> before) ++ item :: after ∧ ∀ s, item ≠ TStr s
  end.
Proof.
  induction items as [|item items IH]; [done|]. csimpl.
  destruct item as [s| | | | | |];
    try (by eexists [], _, items; split; [reflexivity|]).
  simpl. destruct (mapM _ items) as [ss|]; simpl.
  - by rewrite IH.
  - destruct IH as (before & item & after & -> & Hitem).
    by exists (s :: before), item, after.
Qed.

Lemma pyproject_loop_raises before item after packages :
  (∀ s, item ≠ TStr s) →
  raises (pyproject_loop ((TStr <$> before) ++ item :: after) packages) = true.
Proof.
  intros Hitem. revert packages.
  induction before as [|dep before IH]; intros packages.
  - csimpl. by destruct item; try done; destruct (Hitem s).
  - rewrite fmap_cons.
    cbn [app pyproject_loop toml_before_comparator mbind result_bind].
    cbv zeta. by destruct (negb _).
Qed.

Lemma poetry_names_raises before item after :
  (∀ s, item ≠ TStr s) →
  raises (poetry_names ((TStr <$> before) ++ item :: after)) = true.
Proof.
  intros Hitem. induction before as [|key before IH].
  - csimpl. by destruct item; try done; destruct (Hitem s).
  - rewrite fmap_cons.
    cbn [app poetry_names toml_lower mbind result_bind].
    destruct (negb _); [|done].
    cbn [mbind result_bind].
    by destruct (poetry_names _).
Qed.

(** A loop over a value, behind the guard of the parser. *)
Lemma pyproject_loop_names deps :
  try_except (items ← toml_iter deps; pyproject_loop items []) (Ok [])
  = Ok (names_from normalise_all deps).
Proof.
  unfold names_from.
  destruct deps as [s| | | | |items|entries]; try done.
  - cbn [toml_iter strings_of mbind result_bind].
    by rewrite pyproject_loop_strings.
  - cbn [toml_iter strings_of mbind result_bind].
    pose proof (strings_of_array items) as Hitems.
    destruct (mapM _ items) as [ss|].
    + subst items. by rewrite pyproject_loop_strings.
    + destruct Hitems as (before & item & after & -> & Hitem).
      by rewrite try_except_raise by by apply pyproject_loop_raises.
  - cbn [toml_iter strings_of mbind result_bind].
    by rewrite pyproject_loop_strings.
Qed.

Lemma poetry_names_names deps :
  try_except (keys ← toml_iter deps; poetry_names keys) (Ok [])
  = Ok (names_from poetry_keys_lowered deps).
Proof.
  unfold names_from.
  destruct deps as [s| | | | |items|entries]; try done.
  - cbn [toml_iter strings_of mbind result_bind].
    by rewrite poetry_names_strings.
  - cbn [toml_iter strings_of mbind result_bind].
    pose proof (strings_of_array items) as Hitems.
    destruct (mapM _ items) as [ss|].
    + subst items. by rewrite poetry_names_strings.
    + destruct Hitems as (before & item & after & -> & Hitem).
      by rewrite try_except_raise by by apply poetry_names_raises.
  - cbn [toml_iter strings_of mbind result_bind].
    by rewrite poetry_names_strings.
Qed.

Lemma has_nested_value data key1 key2 :
  has_nested data key1 key2
  = match dict_get data key1 with
    | Some inner => toml_in key2 inner
    | None => Ok false
    end.
Proof.
  unfold has_nested, dict_has. cbn [toml_getitem].
  by destruct (dict_get data key1).
Qed.

Lemma poetry_branch_location data :
  try_except
    (in_poetry ← has_nested data "tool" "poetry";
     if (in_poetry : bool) then
       tool ← toml_getitem (TTable data) "tool";
       poetry ← toml_getitem tool "poetry";
       poetry_deps ← toml_get_or_empty poetry "dependencies";
       keys ← toml_iter poetry_deps;
       poetry_names keys
     else Ok [])
    (Ok [])
  = Ok (poetry_location data).
Proof.
  unfold poetry_location. rewrite has_nested_value.
  cbn [toml_getitem].
  destruct (dict_get data "tool") as [tool|] eqn:Htool; [|done].
  cbn [mbind result_bind].
  destruct tool as [s| | | | |items|tool]; try done.
  - cbn [toml_in mbind result_bind]. by destruct (contains _ _).
  - cbn [toml_in mbind result_bind]. by destruct (existsb _ _).
  - cbn [toml_in mbind result_bind toml_getitem]. unfold dict_has.
    destruct (dict_get tool "poetry") as [poetry|] eqn:Hpoetry; [|done].
    cbn [mbind result_bind].
    destruct poetry as [| | | | | |poetry]; try done.
    cbn [toml_get_or_empty].
    destruct (dict_get poetry "dependencies") as [deps|] eqn:Hdeps.
    + cbn [mbind result_bind]. apply poetry_names_names.
    + done.
Qed.

Lemma pyproject_of_data_by_location data :
  try_except (pyproject_of_data data) (Ok []) = Ok (pyproject_by_location data).
Proof.
  unfold pyproject_of_data, pyproject_by_location.
  rewrite (has_nested_value data "project"). cbn [toml_getitem].
  destruct (dict_get data "project") as [project|] eqn:Hproject.
  2:{ cbn [mbind result_bind]. apply poetry_branch_location. }
  cbn [mbind result_bind].
  destruct project as [s| | | | |items|project]; try done.
  - cbn [toml_in mbind result_bind].
    destruct (contains _ _); [done|]. apply poetry_branch_location.
  - cbn [toml_in mbind result_bind].
    destruct (existsb _ _); [done|]. apply poetry_branch_location.
  - cbn [toml_in mbind result_bind toml_getitem]. unfold dict_has.
    destruct (dict_get project "dependencies") as [deps|] eqn:Hdeps.
    + cbn [mbind result_bind]. apply pyproject_loop_names.
    + apply poetry_branch_location.
Qed.

(** C8 (amended): the parser looks at two locations in priority order.
    [dependencies] in a [project] table decides the result alone: the
    value is gone through as a loop goes through it (the elements of an
    array, the characters of a string, the keys of a table), each item
    truncated at the first comparator, trimmed and lower-cased, empty
    results dropped, and the result is empty when the value gives no
    strings.  Only without that location (no [project], or a [project]
    table, string or array without [dependencies]) the [dependencies] of a
    [poetry] table in a [tool] table are used: their keys lower-cased, not
    truncated, without those whose lower-cased form is [python].  In every
    other case, and when the document does not parse, the result is
    empty; the parser never raises. *)
Theorem pyproject_priority (text : string) :
  extract_packages_from_pyproject text
  = Ok match toml_loads text with
       | Ok data => pyproject_by_location data
       | Raise _ => []
       end.
Proof.
  unfold extract_packages_from_pyproject.
  destruct (toml_loads text) as [data|e]; [|done].
  cbn [mbind result_bind]. apply pyproject_of_data_by_location.
Qed.
End pyproject_by_location.

(** A string under [project]/[dependencies] is gone through character by
    character and the [poetry] table beside it is not looked at; of a
    table the keys are taken. *)
Example pyproject_other_values :
  pyproject_of_data string_deps_doc = Ok ["a"; "c"]
  ∧ pyproject_by_location string_deps_doc = ["a"; "c"]
  ∧ pyproject_of_data table_deps_doc = Ok ["flask"]
  ∧ pyproject_by_location table_deps_doc = ["flask"].
Proof. by vm_compute. Qed.


(** C3, as stated, fails for the configuration-file parser: a text without
    a section header makes [read_string] raise, and nothing in the parser
    catches it. *)
Lemma setup_cfg_parser_raises :
  extract_packages_from_setup_cfg (H := sample_libs) "Flask>=1.0"
  = Raise MissingSectionHeaderError.
Proof. reflexivity. Qed.

Section raising.
Context `{ParserLibs}.

Lemma setup_cfg_raise_iff text e :
  extract_packages_from_setup_cfg text = Raise e
  ↔ read_string text = Raise e
    ∨ ∃ cfg, read_string text = Ok cfg
             ∧ has_option cfg "options" "install_requires" = true
             ∧ config_get cfg "options" "install_requires" = Raise e.
Proof.
  unfold extract_packages_from_setup_cfg.
  destruct (read_string text) as [cfg|e'] eqn:Hread;
    cbn [mbind result_bind].
  - destruct (has_option cfg "options" "install_requires") eqn:Hhas.
    + destruct (config_get cfg "options" "install_requires") as [v|e'']
        eqn:Hget; cbn [mbind result_bind]; split.
      * done.
      * intros [?|(cfg' & ? & ? & ?)]; [done|]. simplify_eq. congruence.
      * intros ?. right. exists cfg. by simplify_eq.
      * intros [?|(cfg' & ? & ? & ?)]; [done|]. simplify_eq. congruence.
    + split; [done|]. intros [?|(cfg' & ? & ? & ?)]; [done|].
      simplify_eq. congruence.
  - split; [intros ?; left; congruence|].
    intros [?|(cfg' & ? & ? & ?)]; congruence.
Qed.

(** C3 (amended): for every input text the line-oriented, the [setup.py]
    and the [pyproject] parser return a list of strings and never raise;
    the latter two return the empty list when their parse fails.  The
    [setup.cfg] parser has no guard of its own: it raises exactly when the
    configuration parser refuses the text or the lookup of the option
    raises.  The aggregator's guard around each file catches that, and the
    file then adds no package. *)
Theorem parsers_raise_only_in_setup_cfg (text : string) :
  extract_from_file "requirements.txt" text
    = Ok (extract_packages_from_requirements text)
  ∧ (∃ packages, extract_packages_from_setup_py text = Ok packages)
  ∧ (∃ packages, extract_packages_from_pyproject text = Ok packages)
  ∧ (search_install_requires text = None →
     extract_packages_from_setup_py text = Ok [])
  ∧ (∀ list_str e,
       search_install_requires text = Some list_str →
       literal_eval list_str = Raise e →
       extract_packages_from_setup_py text = Ok [])
  ∧ (∀ e, toml_loads text = Raise e →
          extract_packages_from_pyproject text = Ok [])
  ∧ (∀ e, extract_packages_from_setup_cfg text = Raise e
          ↔ read_string text = Raise e
            ∨ ∃ cfg, read_string text = Ok cfg
                     ∧ has_option cfg "options" "install_requires" = true
                     ∧ config_get cfg "options" "install_requires" = Raise e)
  ∧ (∀ r file_name rest aggregated_packages,
       raises (packages_of_file r file_name) = true →
       process_files r (file_name :: rest) aggregated_packages
       = process_files r rest aggregated_packages).
Proof.
  split; [reflexivity|]. split.
  { unfold extract_packages_from_setup_py.
    destruct (search_install_requires text); [apply try_except_total|eauto]. }
  split; [apply try_except_total|]. split.
  { unfold extract_packages_from_setup_py. by intros ->. }
  split.
  { intros list_str e Hfound Hraise. unfold extract_packages_from_setup_py.
    by rewrite Hfound, Hraise. }
  split.
  { intros e Hraise. unfold extract_packages_from_pyproject. by rewrite Hraise. }
  split; [apply setup_cfg_raise_iff|].
  intros r file_name rest agg Hraise. cbn [process_files].
  by destruct (packages_of_file r file_name).
Qed.
End raising.

(** The parsers on the sample manifests. *)
Example requirements_sample :
  extract_packages_from_requirements sample_requirements = ["flask"; "numpy"].
Proof. reflexivity. Qed.

Example setup_py_sample :
  extract_packages_from_setup_py (H := sample_libs) sample_setup_py
  = Ok ["flask"; "requests"].
Proof. reflexivity. Qed.

Example setup_cfg_sample :
  extract_packages_from_setup_cfg (H := sample_libs) sample_setup_cfg
  = Ok ["attrs"; "click"].
Proof. reflexivity. Qed.

Example pyproject_sample :
  extract_packages_from_pyproject (H := sample_libs) sample_pyproject
  = Ok ["flask"; "numpy"].
Proof. reflexivity. Qed.

(** A list that is not a literal, and a table where a list is expected:
    both give the empty result. *)
Example setup_py_malformed :
  extract_packages_from_setup_py (H := sample_libs)
    "install_requires=[open('r.txt').read()]" = Ok [].
Proof. reflexivity. Qed.

Example pyproject_wrong_type :
  pyproject_of_data [("project", TInt 5)] = Raise TypeError.
Proof. reflexivity. Qed.

(** The file with the broken [setup.cfg] still yields its [setup.py]. *)
Example broken_cfg_is_skipped :
  process_files (H := sample_libs) repo_broken_cfg dependency_files []
  = ["flask"; "requests"].
Proof. reflexivity. Qed.

(** ** Dictionaries *)

Section dict_facts.
Context {K V : Type} `{EqDecision K}.
Implicit Types (d : list (K * V)) (k : K) (v : V).

Lemma dict_get_None d k : dict_get d k = None ↔ k ∉ dict_keys d.
Proof.
  unfold dict_keys. induction d as [|[k' v'] d IH]; simpl.
  - split; [intros _; apply not_elem_of_nil|done].
  - rewrite not_elem_of_cons. case_decide as Hk.
    + split; [done|]. by intros [? _].
    + rewrite IH. split; [by split|by intros [_ ?]].
Qed.

Lemma dict_get_Some_elem d k v : dict_get d k = Some v → (k, v) ∈ d.
Proof.
  induction d as [|[k' v'] d IH]; simpl; [done|].
  case_decide; intros ?; simplify_eq; [left|right; auto].
Qed.

Lemma dict_get_elem d k v :
  NoDup (dict_keys d) → (k, v) ∈ d → dict_get d k = Some v.
Proof.
  unfold dict_keys. induction d as [|[k' v'] d IH]; simpl.
  - intros _ Hin. by apply elem_of_nil in Hin.
  - rewrite NoDup_cons, elem_of_cons. intros [Hk' Hnd] [Heq|Hin].
    + simplify_eq. by rewrite decide_True.
    + rewrite decide_False; [auto|]. intros ->. apply Hk'.
      by apply (list_elem_of_fmap_2 fst) in Hin.
Qed.

Lemma dict_get_set_eq d k v : dict_get (dict_set d k v) k = Some v.
Proof.
  induction d as [|[k' v'] d IH]; simpl.
  - by rewrite decide_True.
  - case_decide; simpl; [by rewrite decide_True|by rewrite decide_False].
Qed.

Lemma dict_get_set_ne d k k' v :
  k ≠ k' → dict_get (dict_set d k v) k' = dict_get d k'.
Proof.
  intros Hne. induction d as [|[k0 v0] d IH]; simpl.
  - by rewrite decide_False.
  - case_decide; simpl; subst.
    + by rewrite !decide_False.
    + by rewrite IH.
Qed.

Lemma dict_keys_set d k v :
  dict_keys (dict_set d k v)
  = if dict_has d k then dict_keys d else dict_keys d ++ [k].
Proof.
  unfold dict_has, dict_keys. induction d as [|[k0 v0] d IH]; csimpl; [done|].
  case_decide; csimpl; [done|]. rewrite IH. by destruct (dict_get d k).
Qed.

Lemma dict_has_true d k : dict_has d k = true ↔ k ∈ dict_keys d.
Proof.
  unfold dict_has. destruct (dict_get d k) eqn:E.
  - split; [intros _|done]. destruct (decide (k ∈ dict_keys d)); [done|].
    apply dict_get_None in n. congruence.
  - apply dict_get_None in E. naive_solver.
Qed.

Lemma elem_of_dict_keys_set d k k' v :
  k' ∈ dict_keys (dict_set d k v) ↔ k' = k ∨ k' ∈ dict_keys d.
Proof.
  rewrite dict_keys_set. destruct (dict_has d k) eqn:E.
  - apply dict_has_true in E. naive_solver.
  - rewrite elem_of_app, list_elem_of_singleton. naive_solver.
Qed.

Lemma NoDup_dict_keys_set d k v :
  NoDup (dict_keys d) → NoDup (dict_keys (dict_set d k v)).
Proof.
  intros Hnd. rewrite dict_keys_set. destruct (dict_has d k) eqn:E; [done|].
  apply NoDup_app. split_and!; [done| |apply NoDup_singleton].
  intros x Hx ->%list_elem_of_singleton.
  apply dict_has_true in Hx. congruence.
Qed.

Lemma length_dict_set d k v :
  length (dict_set d k v)
  = if dict_has d k then length d else S (length d).
Proof.
  unfold dict_has. induction d as [|[k0 v0] d IH]; simpl; [done|].
  case_decide; simpl; [done|]. rewrite IH. by destruct (dict_get d k).
Qed.
End dict_facts.

(** ** Repository aggregator *)

Lemma elem_of_concat {A} (ls : list (list A)) (x : A) :
  x ∈ concat ls ↔ ∃ l, x ∈ l ∧ l ∈ ls.
Proof.
  induction ls as [|l0 ls IH]; simpl.
  - split; [by intros ?%elem_of_nil|]. by intros (l & _ & ?%elem_of_nil).
  - rewrite elem_of_app, IH. split.
    + intros [?|(l & ? & ?)]; [exists l0|exists l]; rewrite elem_of_cons; auto.
    + intros (l & ? & [->|?]%elem_of_cons); [by left|right; eauto].
Qed.

Lemma elem_of_list_of_set xs x : x ∈ list_of_set xs ↔ x ∈ xs.
Proof. unfold list_of_set. by rewrite elem_of_elements, elem_of_list_to_set. Qed.

Lemma NoDup_list_of_set xs : NoDup (list_of_set xs).
Proof. unfold list_of_set. apply NoDup_elements. Qed.

Lemma list_of_set_nil xs : list_of_set xs = [] ↔ xs = [].
Proof.
  split.
  - intros Hnil. apply elem_of_nil_inv. intros x Hx.
    apply elem_of_list_of_set in Hx. rewrite Hnil in Hx.
    by apply elem_of_nil in Hx.
  - intros ->. reflexivity.
Qed.

Section aggregator_facts.
Context `{ParserLibs}.

Lemma process_files_combined r files aggregated_packages :
  process_files r files aggregated_packages
  = aggregated_packages ++ concat (contribution r <$> files).
Proof.
  revert aggregated_packages.
  induction files as [|file_name files IH]; intros agg; csimpl.
  - by rewrite app_nil_r.
  - unfold contribution at 1.
    destruct (packages_of_file r file_name); rewrite IH.
    + by rewrite app_assoc.
    + done.
Qed.

(** A package is among the combined ones exactly when a candidate file
    that was fetched and parsed lists it. *)
Lemma elem_of_combined r pkg :
  pkg ∈ combined r
  ↔ ∃ file_name packages,
      file_name ∈ dependency_files
      ∧ packages_of_file r file_name = Ok packages
      ∧ pkg ∈ packages.
Proof.
  unfold combined. rewrite elem_of_concat. split.
  - intros (l & Hpkg & Hl). apply list_elem_of_fmap in Hl as (f & -> & Hf).
    unfold contribution in Hpkg.
    destruct (packages_of_file r f) as [packages|] eqn:E.
    + eauto.
    + by apply elem_of_nil in Hpkg.
  - intros (f & packages & Hf & Hok & Hpkg). exists packages. split; [done|].
    apply list_elem_of_fmap. exists f. split; [|done].
    unfold contribution. by rewrite Hok.
Qed.

Lemma process_repo_spec r :
  process_repo r
  = if decide (combined r = []) then None
    else Some (full_name r, list_of_set (combined r)).
Proof.
  unfold process_repo. rewrite process_files_combined, app_nil_l.
  fold (combined r). case_decide as Hc.
  - by rewrite Hc.
  - destruct (list_of_set (combined r)) eqn:E; [|done].
    apply (proj1 (list_of_set_nil _)) in E. by destruct Hc.
Qed.

Lemma process_repo_name r name packages :
  process_repo r = Some (name, packages) → name = full_name r.
Proof. rewrite process_repo_spec. case_decide; naive_solver. Qed.

(** The keys of the result: those already there and the names of the
    repositories with a package. *)
Lemma collect_results_keys completed acc name :
  name ∈ dict_keys (collect_results completed acc)
  ↔ name ∈ dict_keys acc
    ∨ ∃ r, r ∈ completed ∧ combined r ≠ [] ∧ full_name r = name.
Proof.
  revert acc. induction completed as [|r completed IH]; intros acc; simpl.
  - split; [auto|]. intros [?|(r & Hr & _)]; [done|].
    by apply elem_of_nil in Hr.
  - rewrite process_repo_spec. case_decide as Hc; rewrite IH.
    + split.
      * intros [?|(r' & ? & ? & ?)]; [by left|].
        right. exists r'. by rewrite elem_of_cons; auto.
      * intros [?|(r' & [->|?]%elem_of_cons & ? & ?)]; [by left|done|].
        right. by exists r'.
    + rewrite elem_of_dict_keys_set. split.
      * intros [[->|?]|(r' & ? & ? & ?)]; [|by left|].
        -- right. exists r. by rewrite elem_of_cons; auto.
        -- right. exists r'. by rewrite elem_of_cons; auto.
      * intros [?|(r' & [->|?]%elem_of_cons & ? & ?)]; [by auto|by auto|].
        right. by exists r'.
Qed.

Lemma collect_results_NoDup completed acc :
  NoDup (dict_keys acc) → NoDup (dict_keys (collect_results completed acc)).
Proof.
  revert acc. induction completed as [|r completed IH]; intros acc Hnd; simpl.
  - done.
  - destruct (process_repo r) as [[name packages]|]; apply IH; [|done].
    by apply NoDup_dict_keys_set.
Qed.

Lemma collect_results_length completed acc :
  length (collect_results completed acc) ≤ length acc + length completed.
Proof.
  revert acc. induction completed as [|r completed IH]; intros acc; simpl.
  - lia.
  - destruct (process_repo r) as [[name packages]|].
    + etrans; [apply IH|]. rewrite length_dict_set.
      destruct (dict_has acc name); lia.
    + etrans; [apply IH|]. lia.
Qed.

(** A name no later task carries keeps its entry. *)
Lemma collect_results_get_other completed acc name :
  name ∉ full_name <$> completed →
  dict_get (collect_results completed acc) name = dict_get acc name.
Proof.
  revert acc. induction completed as [|r completed IH]; intros acc; csimpl.
  - done.
  - rewrite not_elem_of_cons. intros [Hne Hnot].
    destruct (process_repo r) as [[name' packages]|] eqn:E; rewrite IH by done.
    + apply process_repo_name in E as ->. by rewrite dict_get_set_ne.
    + done.
Qed.

Lemma collect_results_get completed acc r :
  NoDup (full_name <$> completed) → r ∈ completed → combined r ≠ [] →
  dict_get (collect_results completed acc) (full_name r)
  = Some (list_of_set (combined r)).
Proof.
  revert acc. induction completed as [|r0 completed IH]; intros acc; csimpl.
  - intros _ Hr. by apply elem_of_nil in Hr.
  - rewrite NoDup_cons, elem_of_cons. intros [Hr0 Hnd] [->|Hr] Hc.
    + rewrite process_repo_spec, decide_False by done.
      rewrite collect_results_get_other by done. apply dict_get_set_eq.
    + destruct (process_repo r0); [destruct p|]; by apply IH.
Qed.
End aggregator_facts.

Lemma NoDup_fmap_eq {A B} (f : A → B) (l : list A) (x y : A) :
  NoDup (f <$> l) → x ∈ l → y ∈ l → f x = f y → x = y.
Proof.
  induction l as [|a l IH]; csimpl; [by intros _ ?%elem_of_nil|].
  rewrite NoDup_cons, !elem_of_cons.
  intros [Ha Hnd] [->|Hx] [->|Hy] Hf; [done| | |by apply IH].
  - destruct Ha. rewrite Hf. by apply list_elem_of_fmap_2.
  - destruct Ha. rewrite <- Hf. by apply list_elem_of_fmap_2.
Qed.

Section aggregator_claims.
Context `{ParserLibs}.

Lemma contribution_listed_in r file_name :
  contribution r file_name = listed_in r file_name.
Proof.
  unfold contribution, packages_of_file, listed_in.
  by destruct (get_contents r file_name).
Qed.

Lemma packages_of_file_Ok r file_name file_packages :
  packages_of_file r file_name = Ok file_packages
  ↔ ∃ file_text,
      get_contents r file_name = Ok file_text
      ∧ extract_from_file file_name file_text = Ok file_packages.
Proof.
  unfold packages_of_file.
  destruct (get_contents r file_name) as [file_text|e]; simpl.
  - split; [by exists file_text|]. by intros (? & [= <-] & ?).
  - split; [done|]. by intros (? & ? & _).
Qed.

Lemma combined_nil r :
  combined r = []
  ↔ ∀ file_name, file_name ∈ dependency_files → listed_in r file_name = [].
Proof.
  split.
  - intros Hnil file_name Hin.
    apply elem_of_nil_inv. intros pkg Hpkg.
    assert (Hc : pkg ∈ combined r).
    { unfold combined. apply elem_of_concat.
      exists (listed_in r file_name). split; [done|].
      apply list_elem_of_fmap. exists file_name.
      by rewrite contribution_listed_in. }
    rewrite Hnil in Hc. by apply elem_of_nil in Hc.
  - intros Hall. apply elem_of_nil_inv. intros pkg Hpkg.
    unfold combined in Hpkg.
    apply elem_of_concat in Hpkg as (l & Hpkg & Hl).
    apply list_elem_of_fmap in Hl as (file_name & -> & Hin).
    rewrite contribution_listed_in, (Hall _ Hin) in Hpkg.
    by apply elem_of_nil in Hpkg.
Qed.

(** C4: for every repository the aggregator goes through the fixed list
    of candidate files in order and concatenates the lists of the files
    it can fetch and parse, passing over every file whose fetch or parse
    fails.  A repository has no entry in the result exactly when no
    candidate lists a package.  The entry it has otherwise is free of
    duplicates and holds exactly the packages of the texts that were
    fetched and parsed: for manifests in two formats, the union of
    both. *)
Theorem aggregator_union (raw_repos : list (string * repo))
    (out : list (string * list string)) (r : repo) :
  NoDup (full_name <$> dict_values raw_repos) →
  extract_dependencies raw_repos out →
  r ∈ dict_values raw_repos →
  process_files r dependency_files []
  = concat (listed_in r <$> dependency_files)
  ∧ (dict_get out (full_name r) = None
     ↔ ∀ file_name,
         file_name ∈ dependency_files → listed_in r file_name = [])
  ∧ (∀ packages,
       dict_get out (full_name r) = Some packages →
       NoDup packages
       ∧ ∀ pkg, pkg ∈ packages
           ↔ ∃ file_name file_text file_packages,
               file_name ∈ dependency_files
               ∧ get_contents r file_name = Ok file_text
               ∧ extract_from_file file_name file_text = Ok file_packages
               ∧ pkg ∈ file_packages).
Proof.
  intros Hnd (completed & Hperm & ->) Hr.
  rewrite <- Hperm in Hnd, Hr.
  assert (Hget : dict_get (collect_results completed []) (full_name r)
            = if decide (combined r = []) then None
              else Some (list_of_set (combined r))).
  { case_decide as Hc.
    - apply dict_get_None. intros Hkey.
      apply collect_results_keys in Hkey
        as [Hkey|(r' & Hr' & Hne & Hname)]; [by apply elem_of_nil in Hkey|].
      assert (r' = r) as -> by by eapply (NoDup_fmap_eq full_name).
      done.
    - by apply collect_results_get. }
  split_and!.
  - rewrite process_files_combined, app_nil_l. f_equal.
    apply list_fmap_ext. intros _ file_name _. apply contribution_listed_in.
  - rewrite Hget, <- combined_nil. by case_decide.
  - intros packages. rewrite Hget. case_decide as Hc; [done|].
    intros [= <-]. split; [apply NoDup_list_of_set|].
    intros pkg. rewrite elem_of_list_of_set, elem_of_combined. split.
    + intros (file_name & file_packages & Hin
              & (file_text & ? & ?)%packages_of_file_Ok & Hpkg).
      by exists file_name, file_text, file_packages.
    + intros (file_name & file_text & file_packages & Hin & ? & ? & Hpkg).
      exists file_name, file_packages. split_and!; [done| |done].
      apply packages_of_file_Ok. by exists file_text.
Qed.

(** C10: every key of the aggregator's result is the full name of a
    repository of the input, no key occurs twice, and the result has no
    more entries than the input has repositories. *)
Theorem aggregator_keys (raw_repos : list (string * repo))
    (out : list (string * list string)) :
  extract_dependencies raw_repos out →
  (∀ name, name ∈ dict_keys out →
           ∃ r, r ∈ dict_values raw_repos ∧ full_name r = name)
  ∧ NoDup (dict_keys out)
  ∧ length out ≤ length raw_repos.
Proof.
  intros (completed & Hperm & ->). split_and!.
  - intros name Hkey. apply collect_results_keys in Hkey
      as [Hkey|(r & Hr & _ & Hname)]; [by apply elem_of_nil in Hkey|].
    exists r. by rewrite <- Hperm.
  - apply collect_results_NoDup. constructor.
  - etrans; [apply collect_results_length|]. simpl.
    rewrite Hperm. unfold dict_values. by rewrite length_fmap.
Qed.
End aggregator_claims.

(** The sample repositories, their tasks finishing in reverse order. *)
Lemma sample_extract_dependencies :
  extract_dependencies (H := sample_libs) sample_raw_repos
    (collect_results (H := sample_libs)
       [repo_broken_cfg; repo_no_manifest; repo_two_formats] []).
Proof.
  eexists. split; [|reflexivity].
  symmetry.
  apply (Permutation_rev [repo_two_formats; repo_no_manifest; repo_broken_cfg]).
Defined.

Lemma aggregator_union_witness :
  ∃ packages,
    dict_get (collect_results (H := sample_libs)
                [repo_broken_cfg; repo_no_manifest; repo_two_formats] [])
      "acme/web"
    = Some packages
    ∧ NoDup packages
    ∧ "flask" ∈ packages
    ∧ "click" ∈ packages.
Proof.
  destruct (aggregator_union (H := sample_libs) sample_raw_repos
              (collect_results (H := sample_libs)
                 [repo_broken_cfg; repo_no_manifest; repo_two_formats] [])
              repo_two_formats)
    as (_ & Hnone & Hsome).
  - apply (bool_decide_unpack _). by vm_compute.
  - apply sample_extract_dependencies.
  - unfold sample_raw_repos, dict_values. csimpl. by left.
  - change (full_name repo_two_formats) with "acme/web" in *.
    destruct (dict_get _ "acme/web") as [packages|].
    + exists packages. destruct (Hsome packages eq_refl) as [Hnd Hmem].
      split_and!; [done|done| |].
      * apply Hmem.
        exists "requirements.txt", sample_requirements, ["flask"; "numpy"].
        split_and!; [by left|done|by vm_compute|by left].
      * apply Hmem.
        exists "setup.cfg", sample_setup_cfg, ["attrs"; "click"].
        split_and!; [by do 2 right; left|done|by vm_compute|by right; left].
    + pose proof (proj1 Hnone eq_refl "requirements.txt" ltac:(by left)) as E.
      by vm_compute in E.
Defined.

Lemma aggregator_keys_witness :
  (∀ name,
     name ∈ dict_keys (collect_results (H := sample_libs)
              [repo_broken_cfg; repo_no_manifest; repo_two_formats] []) →
     ∃ r, r ∈ dict_values sample_raw_repos ∧ full_name r = name)
  ∧ NoDup (dict_keys (collect_results (H := sample_libs)
              [repo_broken_cfg; repo_no_manifest; repo_two_formats] []))
  ∧ length (collect_results (H := sample_libs)
              [repo_broken_cfg; repo_no_manifest; repo_two_formats] [])
    ≤ length sample_raw_repos.
Proof.
  apply (aggregator_keys (H := sample_libs) sample_raw_repos).
  apply sample_extract_dependencies.
Defined.

Example sample_aggregated :
  dict_keys (collect_results (H := sample_libs)
     [repo_broken_cfg; repo_no_manifest; repo_two_formats] [])
  = ["acme/broken"; "acme/web"].
Proof. by vm_compute. Qed.

(** ** The order on strings *)

Lemma ascii_compare_refl a : Ascii.compare a a = Eq.
Proof. unfold Ascii.compare. apply N.compare_refl. Qed.

Lemma ascii_compare_Lt_trans a b c :
  Ascii.compare a b = Lt → Ascii.compare b c = Lt → Ascii.compare a c = Lt.
Proof.
  unfold Ascii.compare. rewrite !N.compare_lt_iff. apply N.lt_trans.
Qed.

Lemma string_compare_not_Gt_trans a b c :
  String.compare a b ≠ Gt → String.compare b c ≠ Gt → String.compare a c ≠ Gt.
Proof.
  revert b c. induction a as [|x a IH]; intros [|y b] [|z c]; simpl; try done.
  destruct (Ascii.compare x y) eqn:Exy; [| |done].
  - apply Ascii.compare_eq_iff in Exy as ->.
    destruct (Ascii.compare y z) eqn:Eyz; [apply IH|done|done].
  - destruct (Ascii.compare y z) eqn:Eyz; [| |done]; intros _ _.
    + apply Ascii.compare_eq_iff in Eyz as <-. by rewrite Exy.
    + by rewrite (ascii_compare_Lt_trans x y z).
Qed.

Lemma str_le_not_Gt a b : str_le a b ↔ String.compare a b ≠ Gt.
Proof. unfold str_le, String.leb. by destruct (String.compare a b). Qed.

Global Instance str_le_trans : Transitive str_le.
Proof.
  intros a b c. rewrite !str_le_not_Gt. apply string_compare_not_Gt_trans.
Qed.

Global Instance str_le_total : Total str_le.
Proof. intros a b. apply String.leb_total. Qed.

Global Instance str_le_antisymm : AntiSymm (=) str_le.
Proof. intros a b. apply String.leb_antisym. Qed.

(** ** Feature matrix builder *)

Lemma sorted_Sorted xs : Sorted str_le (sorted xs).
Proof. apply (Sorted_merge_sort str_le). Qed.

Lemma sorted_Permutation xs : sorted xs ≡ₚ xs.
Proof. apply (merge_sort_Permutation str_le). Qed.

(** There is one sorted arrangement of a list. *)
Lemma sorted_unique xs ys : xs ≡ₚ ys → sorted xs = sorted ys.
Proof.
  intros Hperm. apply (Sorted_unique str_le); try apply sorted_Sorted.
  by rewrite !sorted_Permutation.
Qed.

Lemma elem_of_package_set repos pkg :
  pkg ∈ package_set repos ↔ ∃ r pkgs, (r, pkgs) ∈ repos ∧ pkg ∈ pkgs.
Proof.
  unfold package_set, dict_values.
  rewrite elem_of_list_to_set, elem_of_concat. split.
  - intros (pkgs & Hpkg & ([r pkgs'] & -> & Hin)%list_elem_of_fmap). eauto.
  - intros (r & pkgs & Hin & Hpkg). exists pkgs. split; [done|].
    apply list_elem_of_fmap. by exists (r, pkgs).
Qed.

Lemma elem_of_all_packages repos pkg :
  pkg ∈ all_packages repos ↔ ∃ r pkgs, (r, pkgs) ∈ repos ∧ pkg ∈ pkgs.
Proof.
  unfold all_packages.
  by rewrite sorted_Permutation, elem_of_elements, elem_of_package_set.
Qed.

Lemma NoDup_all_packages repos : NoDup (all_packages repos).
Proof.
  unfold all_packages. rewrite sorted_Permutation. apply NoDup_elements.
Qed.

Lemma package_set_Permutation repos repos' :
  repos' ≡ₚ repos → package_set repos' = package_set repos.
Proof.
  intros Hperm. apply set_eq. intros pkg.
  rewrite !elem_of_package_set. by setoid_rewrite Hperm.
Qed.

Lemma all_packages_Permutation repos repos' :
  repos' ≡ₚ repos → all_packages repos' = all_packages repos.
Proof.
  intros Hperm. unfold all_packages. by rewrite (package_set_Permutation _ _ Hperm).
Qed.

(** The index built by the comprehension sends a word to its position. *)
Lemma index_from_lookup idx pkgs m pkg j :
  NoDup pkgs →
  index_from idx pkgs m !! pkg = Some j
  ↔ (∃ k, pkgs !! k = Some pkg ∧ j = idx + k)
    ∨ ((pkg ∉ pkgs) ∧ m !! pkg = Some j).
Proof.
  revert idx m. induction pkgs as [|p pkgs IH]; intros idx m Hnd; simpl.
  - split.
    + intros ?. right. split; [apply not_elem_of_nil|done].
    + by intros [(k & ? & _)|[_ ?]].
  - apply NoDup_cons in Hnd as [Hp Hnd]. rewrite IH by done. split.
    + intros [(k & Hk & ->)|[Hnot Hm]].
      * left. exists (S k). split; [done|lia].
      * destruct (decide (p = pkg)) as [->|Hne].
        -- rewrite lookup_insert_eq in Hm. left. exists 0. split; [done|].
           simplify_eq. lia.
        -- rewrite lookup_insert_ne in Hm by done. right.
           by rewrite not_elem_of_cons.
    + intros [(k & Hk & ->)|[Hnot Hm]].
      * destruct k as [|k]; simpl in Hk.
        -- simplify_eq. right. split; [done|].
           rewrite lookup_insert_eq. f_equal. lia.
        -- left. exists k. split; [done|lia].
      * apply not_elem_of_cons in Hnot as [Hne Hnot]. right. split; [done|].
        by rewrite lookup_insert_ne.
Qed.

Lemma package_to_index_lookup repos pkg j :
  package_to_index repos !! pkg = Some j ↔ all_packages repos !! j = Some pkg.
Proof.
  unfold package_to_index.
  rewrite index_from_lookup by apply NoDup_all_packages. split.
  - intros [(k & Hk & ->)|[_ Hm]]; [done|]. by rewrite lookup_empty in Hm.
  - intros Hj. left. by exists j.
Qed.

Section matrix_facts.
Variable repos : list (string * list string).

Lemma length_mark_row pkgs row :
  length (mark_row (package_to_index repos) pkgs row) = length row.
Proof.
  revert row. induction pkgs as [|pkg pkgs IH]; intros row; simpl; [done|].
  fold (mark_row (package_to_index repos) pkgs). rewrite IH.
  destruct (package_to_index repos !! pkg); [apply length_insert|done].
Qed.

Lemma mark_row_lookup pkgs row j pkg :
  all_packages repos !! j = Some pkg → j < length row →
  mark_row (package_to_index repos) pkgs row !! j
  = if decide (pkg ∈ pkgs) then Some 1%Z else row !! j.
Proof.
  intros Hj. revert row. induction pkgs as [|p pkgs IH]; intros row Hlen; simpl.
  - done.
  - fold (mark_row (package_to_index repos) pkgs).
    destruct (package_to_index repos !! p) as [j0|] eqn:Hp.
    + apply package_to_index_lookup in Hp.
      rewrite IH by (by rewrite length_insert).
      destruct (decide (pkg ∈ pkgs)) as [Hin|Hnot].
      * rewrite decide_True; [done|by right].
      * destruct (decide (j = j0)) as [->|Hne].
        -- assert (p = pkg) as -> by congruence.
           rewrite list_lookup_insert_eq by done.
           rewrite decide_True; [done|by left].
        -- rewrite list_lookup_insert_ne by done.
           rewrite decide_False; [done|].
           intros [->|?]%elem_of_cons; [|done].
           apply Hne. eapply NoDup_lookup; [apply NoDup_all_packages|done..].
    + rewrite IH by done.
      destruct (decide (pkg ∈ pkgs)) as [Hin|Hnot].
      * rewrite decide_True; [done|by right].
      * rewrite decide_False; [done|].
        intros [->|?]%elem_of_cons; [|done].
        apply package_to_index_lookup in Hj. congruence.
Qed.

Lemma mark_row_zeros pkgs :
  mark_row (package_to_index repos) pkgs (replicate (num_packages repos) 0%Z)
  = indicator (all_packages repos) pkgs.
Proof.
  apply list_eq. intros j. unfold indicator. rewrite list_lookup_fmap.
  destruct (all_packages repos !! j) as [pkg|] eqn:Hj; simpl.
  - rewrite (mark_row_lookup _ _ _ pkg) by
      (by rewrite ?length_replicate; try apply (lookup_lt_Some _ _ _ Hj)).
    case_decide; [done|]. apply lookup_replicate. split; [done|].
    apply (lookup_lt_Some _ _ _ Hj).
  - apply lookup_ge_None. rewrite length_mark_row, length_replicate.
    by apply lookup_ge_None.
Qed.

(** The inner loop works on row [i] alone. *)
Lemma fill_row_app pkgs (before after : list (list Z)) row :
  fill_row repos (length before) pkgs (before ++ row :: after)
  = before ++ mark_row (package_to_index repos) pkgs row :: after.
Proof.
  revert row. induction pkgs as [|pkg pkgs IH]; intros row; simpl; [done|].
  fold (mark_row (package_to_index repos) pkgs).
  destruct (package_to_index repos !! pkg) as [j|]; [|apply IH].
  unfold set_one. rewrite list_lookup_middle by done.
  rewrite insert_app_r_alt by done. rewrite Nat.sub_diag. simpl. apply IH.
Qed.

(** The outer loop fills the rows after [before], one per name. *)
Lemma fill_from_app names (before : list (list Z)) :
  fill_from repos (length before) names
    (before ++ replicate (length names) (replicate (num_packages repos) 0%Z))
  = before
    ++ ((λ repo, indicator (all_packages repos)
                   (default [] (dict_get repos repo))) <$> names).
Proof.
  revert before. induction names as [|repo names IH]; intros before; csimpl.
  - done.
  - rewrite fill_row_app, mark_row_zeros.
    rewrite (cons_middle _ before), app_assoc.
    replace (S (length before))
      with (length (before ++ [indicator (all_packages repos)
                                 (default [] (dict_get repos repo))]))
      by (rewrite length_app; simpl; lia).
    rewrite IH. by rewrite <- app_assoc.
Qed.

(** Every row of the matrix is the indicator row of its repository. *)
Lemma feature_matrix_rows :
  feature_matrix repos
  = (λ repo, indicator (all_packages repos)
               (default [] (dict_get repos repo))) <$> repo_names repos.
Proof.
  unfold feature_matrix, zeros, num_repos.
  apply (fill_from_app (repo_names repos) []).
Qed.
End matrix_facts.

Lemma dict_get_Permutation {V} (d d' : list (string * V)) k :
  NoDup (dict_keys d) → d' ≡ₚ d → dict_get d' k = dict_get d k.
Proof.
  intros Hnd Hperm.
  assert (Hnd' : NoDup (dict_keys d')) by (unfold dict_keys; by rewrite Hperm).
  destruct (dict_get d k) as [v|] eqn:E.
  - apply dict_get_elem; [done|]. rewrite Hperm. by apply dict_get_Some_elem.
  - apply dict_get_None. apply dict_get_None in E.
    unfold dict_keys in *. by rewrite Hperm.
Qed.

Lemma entry_indicator repos i j r pkg :
  repo_names repos !! i = Some r →
  all_packages repos !! j = Some pkg →
  entry (feature_matrix repos) i j
  = if decide (pkg ∈ default [] (dict_get repos r)) then 1%Z else 0%Z.
Proof.
  intros Hi Hj. unfold entry. rewrite feature_matrix_rows.
  rewrite list_lookup_fmap, Hi. simpl.
  unfold indicator. by rewrite list_lookup_fmap, Hj.
Qed.

(** C1, as stated, fails: the same mapping read in another iteration order
    gives another repository order and another matrix. *)
Lemma feature_matrix_depends_on_order :
  repos_ba ≡ₚ repos_ab
  ∧ (all_packages repos_ba, feature_matrix repos_ba, repo_names repos_ba)
    ≠ (all_packages repos_ab, feature_matrix repos_ab, repo_names repos_ab).
Proof. split; [apply perm_swap|by vm_compute]. Qed.

(** C1 (amended): for every mapping from repositories to package lists,
    the vocabulary is the sorted list of the distinct packages of all
    lists, and entry (i, j) of the matrix is 1 when vocabulary[j] is in the
    list of repo_order[i] and 0 otherwise.  The vocabulary is the same for
    every iteration order of the mapping; repo_order is the iteration
    order, and the row of a repository is the same wherever the
    repository stands in it. *)
Theorem feature_matrix_correct (repos repos' : list (string * list string)) :
  NoDup (dict_keys repos) →
  repos' ≡ₚ repos →
  Sorted str_le (all_packages repos)
  ∧ NoDup (all_packages repos)
  ∧ (∀ pkg, pkg ∈ all_packages repos
            ↔ ∃ r pkgs, (r, pkgs) ∈ repos ∧ pkg ∈ pkgs)
  ∧ length (feature_matrix repos) = num_repos repos
  ∧ (∀ i row, feature_matrix repos !! i = Some row →
              length row = num_packages repos)
  ∧ (∀ i j r pkgs pkg,
       repo_names repos !! i = Some r →
       dict_get repos r = Some pkgs →
       all_packages repos !! j = Some pkg →
       entry (feature_matrix repos) i j
       = if decide (pkg ∈ pkgs) then 1%Z else 0%Z)
  ∧ all_packages repos' = all_packages repos
  ∧ (∀ i i' r,
       repo_names repos !! i = Some r →
       repo_names repos' !! i' = Some r →
       feature_matrix repos' !! i' = feature_matrix repos !! i).
Proof.
  intros Hnd Hperm. split_and!.
  - apply sorted_Sorted.
  - apply NoDup_all_packages.
  - apply elem_of_all_packages.
  - rewrite feature_matrix_rows. by rewrite length_fmap.
  - intros i row. rewrite feature_matrix_rows, list_lookup_fmap.
    destruct (repo_names repos !! i); [|done]. simpl. intros [= <-].
    unfold indicator. by rewrite length_fmap.
  - intros i j r pkgs pkg Hi Hr Hj.
    rewrite (entry_indicator repos i j r pkg) by done. by rewrite Hr.
  - by apply all_packages_Permutation.
  - intros i i' r Hi Hi'. rewrite !feature_matrix_rows, !list_lookup_fmap.
    rewrite Hi, Hi'. simpl.
    by rewrite (all_packages_Permutation _ _ Hperm),
      (dict_get_Permutation repos repos' r Hnd Hperm).
Qed.

Lemma feature_matrix_correct_witness :
  all_packages repos_ab = ["flask"; "numpy"]
  ∧ all_packages repos_ba = all_packages repos_ab
  ∧ feature_matrix repos_ba !! 1 = feature_matrix repos_ab !! 0
  ∧ entry (feature_matrix repos_ab) 1 1 = 0%Z.
Proof.
  destruct (feature_matrix_correct repos_ab repos_ba)
    as (_ & _ & _ & _ & _ & Hentry & Hvocabulary & Hrow).
  - apply (bool_decide_unpack _). by vm_compute.
  - apply perm_swap.
  - split_and!.
    + by vm_compute.
    + exact Hvocabulary.
    + by apply (Hrow 0 1 "acme/a").
    + by apply (Hentry 1 1 "acme/b" ["flask"] "numpy").
Defined.

(** ** Cluster summariser *)

Lemma distinct_elem xs x : x ∈ distinct xs ↔ x ∈ xs.
Proof.
  induction xs as [|a xs IH]; simpl; [done|].
  rewrite !elem_of_cons, list_elem_of_filter, IH.
  destruct (decide (x = a)); naive_solver.
Qed.

Lemma distinct_NoDup xs : NoDup (distinct xs).
Proof.
  induction xs as [|a xs IH]; simpl; [constructor|].
  apply NoDup_cons. split.
  - rewrite list_elem_of_filter. naive_solver.
  - by apply NoDup_filter.
Qed.

Lemma distinct_snoc xs x :
  distinct (xs ++ [x])
  = distinct xs ++ (if decide (x ∈ xs) then [] else [x]).
Proof.
  induction xs as [|a xs IH]; simpl; [done|].
  rewrite IH, filter_app. f_equal. f_equal.
  destruct (decide (x ∈ xs)) as [Hin|Hnot];
    destruct (decide (x ∈ a :: xs)) as [Hin'|Hnot']; try done.
  - destruct Hnot'. by right.
  - apply elem_of_cons in Hin' as [->|?]; [|done].
    by rewrite filter_cons, decide_False by naive_solver.
  - apply not_elem_of_cons in Hnot' as [? _].
    by rewrite filter_cons, decide_True by done.
Qed.

Lemma frequency_snoc pkg xs x :
  frequency pkg (xs ++ [x])
  = if decide (x = pkg) then S (frequency pkg xs) else frequency pkg xs.
Proof.
  unfold frequency. rewrite filter_app, length_app, filter_cons.
  case_decide; simpl; lia.
Qed.

Lemma frequency_0 pkg xs : pkg ∉ xs → frequency pkg xs = 0.
Proof.
  intros Hnot. unfold frequency. induction xs as [|a xs IH]; [done|].
  apply not_elem_of_cons in Hnot as [Hne Hnot].
  rewrite filter_cons, decide_False by done. by apply IH.
Qed.

(** Reading [x] changes the count of [x] alone; a new [x] goes last. *)
Lemma counter_add_fmap (g g' : string → nat) (ds : list string) x :
  NoDup ds →
  g' x = S (g x) → (∀ p, p ≠ x → g' p = g p) → (x ∉ ds → g x = 0) →
  counter_add ((λ p, (p, g p)) <$> ds) x
  = ((λ p, (p, g' p)) <$> ds) ++ (if decide (x ∈ ds) then [] else [(x, 1)]).
Proof.
  intros Hnd Hx Hother Hnew. induction ds as [|d ds IH]; csimpl.
  - rewrite Hnew in Hx by apply not_elem_of_nil. done.
  - apply NoDup_cons in Hnd as [Hd Hnd].
    destruct (decide (d = x)) as [->|Hne].
    + rewrite decide_True by (by left). rewrite app_nil_r, Hx.
      f_equal. apply Forall_fmap_ext_1, Forall_forall. intros p Hp.
      rewrite Hother; [done|]. by intros ->.
    + rewrite Hother by done. f_equal.
      rewrite IH; [|done|by intros ?; apply Hnew; rewrite not_elem_of_cons].
      f_equal. destruct (decide (x ∈ ds)) as [Hin|Hnot].
      * by rewrite decide_True by (by right).
      * by rewrite decide_False by (by intros [?|?]%elem_of_cons).
Qed.

Lemma Counter_snoc xs x : Counter (xs ++ [x]) = counter_add (Counter xs) x.
Proof. unfold Counter. by rewrite foldl_app. Qed.

(** [Counter] keeps the packages in the order of first encounter. *)
Lemma Counter_by_first_encounter xs : Counter xs = by_first_encounter xs.
Proof.
  induction xs as [|x xs IH] using rev_ind; [done|].
  rewrite Counter_snoc, IH. unfold by_first_encounter.
  rewrite (counter_add_fmap _ (λ p, frequency p (xs ++ [x]))).
  - rewrite distinct_snoc, fmap_app. f_equal.
    destruct (decide (x ∈ distinct xs)) as [Hin|Hnot];
      destruct (decide (x ∈ xs)) as [Hin'|Hnot']; try done.
    + destruct Hnot'. by apply distinct_elem.
    + destruct Hnot. by apply distinct_elem.
    + csimpl. rewrite frequency_snoc, decide_True by done.
      by rewrite frequency_0.
  - apply distinct_NoDup.
  - by rewrite frequency_snoc, decide_True.
  - intros p Hp. by rewrite frequency_snoc, decide_False.
  - rewrite distinct_elem. apply frequency_0.
Qed.

Lemma insert_by_count_Permutation x l : insert_by_count x l ≡ₚ x :: l.
Proof.
  induction l as [|y l IH]; simpl; [done|].
  destruct (x.2 <? y.2); [|done]. rewrite IH. apply perm_swap.
Qed.

Lemma sorted_by_count_Permutation items : sorted_by_count items ≡ₚ items.
Proof.
  induction items as [|x items IH]; simpl; [done|].
  by rewrite insert_by_count_Permutation, IH.
Qed.

Lemma insert_by_count_sorted x l :
  StronglySorted by_count_desc l →
  StronglySorted by_count_desc (insert_by_count x l).
Proof.
  induction 1 as [|y l Hl IH Hy]; simpl.
  - repeat constructor.
  - destruct (x.2 <? y.2) eqn:E.
    + apply Nat.ltb_lt in E. constructor; [done|].
      rewrite insert_by_count_Permutation. constructor; [|done].
      unfold by_count_desc. lia.
    + apply Nat.ltb_ge in E. constructor; [by constructor|].
      constructor; [done|].
      eapply Forall_impl; [exact Hy|]. unfold by_count_desc. intros z ?. lia.
Qed.

Lemma sorted_by_count_sorted items :
  StronglySorted by_count_desc (sorted_by_count items).
Proof.
  induction items as [|x items IH]; simpl; [constructor|].
  by apply insert_by_count_sorted.
Qed.

(** The sort is stable: the items of one count keep their order. *)
Lemma insert_by_count_stable n x l :
  filter (λ a, a.2 = n) (insert_by_count x l) = filter (λ a, a.2 = n) (x :: l).
Proof.
  induction l as [|y l IH]; simpl; [done|].
  destruct (x.2 <? y.2) eqn:E; [|done]. apply Nat.ltb_lt in E.
  rewrite (filter_cons _ y), IH, !filter_cons.
  destruct (decide (x.2 = n)), (decide (y.2 = n)); try done. lia.
Qed.

Lemma sorted_by_count_stable n items :
  filter (λ a, a.2 = n) (sorted_by_count items) = filter (λ a, a.2 = n) items.
Proof.
  induction items as [|x items IH]; simpl; [done|].
  by rewrite insert_by_count_stable, !filter_cons, IH.
Qed.

(** Grouping the repositories by label. *)
Lemma setdefault_append_get d label repo label' :
  dict_get (setdefault_append d label repo) label'
  = if decide (label' = label)
    then Some (default [] (dict_get d label) ++ [repo])
    else dict_get d label'.
Proof.
  induction d as [|[l members] d IH]; simpl.
  - repeat case_decide; by simplify_eq.
  - destruct (decide (l = label)) as [->|Hne]; simpl; rewrite ?IH;
      repeat case_decide; by simplify_eq.
Qed.

Lemma setdefault_append_keys d label repo :
  NoDup (dict_keys d) → NoDup (dict_keys (setdefault_append d label repo)).
Proof.
  unfold dict_keys. induction d as [|[l members] d IH]; csimpl.
  - intros _. apply NoDup_singleton.
  - rewrite NoDup_cons. intros [Hl Hnd].
    destruct (decide (l = label)) as [->|Hne]; csimpl.
    + by apply NoDup_cons.
    + apply NoDup_cons. split; [|by apply IH].
      intros Hin. apply Hl.
      assert (Hget : dict_get (setdefault_append d label repo) l
                     = dict_get d l)
        by (by rewrite setdefault_append_get, decide_False).
      destruct (decide (l ∈ d.*1)) as [?|Hnot]; [done|].
      apply dict_get_None in Hnot. rewrite Hnot in Hget.
      by apply dict_get_None in Hget.
Qed.

Lemma group_repos_get pairs m label :
  dict_get (group_repos pairs m) label
  = let members := (filter (λ rl, rl.2 = label) pairs).*1 in
    match dict_get m label, members with
    | None, [] => None
    | found, _ => Some (default [] found ++ members)
    end.
Proof.
  revert m. induction pairs as [|[repo l] pairs IH]; intros m; simpl.
  - destruct (dict_get m label); simpl; [by rewrite app_nil_r|done].
  - rewrite IH, setdefault_append_get, filter_cons. simpl.
    destruct (decide (label = l)) as [->|Hne].
    + rewrite decide_True by done. csimpl.
      rewrite <- app_assoc. simpl. by destruct (dict_get m l).
    + by rewrite decide_False by done.
Qed.

Lemma group_repos_keys pairs m :
  NoDup (dict_keys m) → NoDup (dict_keys (group_repos pairs m)).
Proof.
  revert m. induction pairs as [|[repo l] pairs IH]; intros m Hnd; simpl.
  - done.
  - by apply IH, setdefault_append_keys.
Qed.

Section summariser_facts.
Variable repos : list (string * list string).

Lemma summarise_get items acc label :
  NoDup (dict_keys items) →
  dict_get (summarise repos items acc) label
  = match dict_get items label with
    | Some repo_list =>
        Some (most_common 10 (Counter (cluster_packages repos repo_list)))
    | None => dict_get acc label
    end.
Proof.
  unfold dict_keys. revert acc.
  induction items as [|[l repo_list] items IH]; intros acc; csimpl; [done|].
  rewrite NoDup_cons. intros [Hl Hnd]. rewrite IH by done.
  destruct (decide (l = label)) as [->|Hne].
  - apply dict_get_None in Hl. rewrite Hl. apply dict_get_set_eq.
  - destruct (dict_get items label); [done|]. by apply dict_get_set_ne.
Qed.

End summariser_facts.

(** The lists the summariser looks up by name are the lists of the
    labelled repositories themselves. *)
Lemma cluster_packages_items repos (items : list (string * list string))
    labels label :
  (∀ name pkgs, (name, pkgs) ∈ items → dict_get repos name = Some pkgs) →
  cluster_packages repos
    (filter (λ rl, rl.2 = label) (zip items.*1 labels)).*1
  = occurrences items labels label.
Proof.
  unfold cluster_packages, occurrences. revert labels.
  induction items as [|[name pkgs] items IH]; intros labels Hget; [done|].
  destruct labels as [|l labels]; [done|].
  csimpl. rewrite !filter_cons. simpl.
  assert (Hrest : ∀ name' pkgs',
            (name', pkgs') ∈ items → dict_get repos name' = Some pkgs').
  { intros ???. apply Hget. by right. }
  case_decide.
  - csimpl. rewrite (Hget name pkgs) by by left. simpl.
    f_equal. by apply IH.
  - by apply IH.
Qed.

Lemma cluster_packages_occurrences repos labels label :
  NoDup (dict_keys repos) →
  cluster_packages repos (label_members repos labels label)
  = occurrences repos labels label.
Proof.
  intros Hnd. unfold label_members, repo_names, dict_keys.
  apply cluster_packages_items. intros name pkgs.
  by apply dict_get_elem.
Qed.

Section summariser_claims.
Variable repos : list (string * list string).

(** C5: the summariser gives every label with a member repository the
    first ten of its packages ranked by descending frequency.  The
    frequency of a package counts its occurrences in the lists the
    mapping holds for the members, taken one after the other in the order
    of the repositories, and packages of equal frequency stand in the
    order in which they are met first there (repository order, then the
    order of each list).  A label without a member is not in the
    result. *)
Theorem cluster_summary_correct (labels : list nat) (label : nat) :
  NoDup (dict_keys repos) →
  (label_members repos labels label = [] →
   dict_get (cluster_top_packages repos labels) label = None)
  ∧ (label_members repos labels label ≠ [] →
     ∃ ranking,
       dict_get (cluster_top_packages repos labels) label
       = Some (take 10 ranking)
       ∧ ranking ≡ₚ (λ pkg, (pkg, frequency pkg
                                     (occurrences repos labels label)))
                      <$> distinct (occurrences repos labels label)
       ∧ StronglySorted by_count_desc ranking
       ∧ ∀ n, filter (λ a, a.2 = n) ranking
              = filter (λ a, a.2 = n)
                  ((λ pkg, (pkg, frequency pkg
                                   (occurrences repos labels label)))
                     <$> distinct (occurrences repos labels label))).
Proof.
  intros Hnd. unfold cluster_top_packages.
  rewrite summarise_get by (apply group_repos_keys; constructor).
  rewrite group_repos_get. cbn [dict_get default app]. cbv zeta.
  fold (label_members repos labels label).
  rewrite <- (cluster_packages_occurrences repos labels label Hnd).
  fold (by_first_encounter
          (cluster_packages repos (label_members repos labels label))).
  destruct (label_members repos labels label) as [|repo members] eqn:E.
  - split; [done|]. by intros [].
  - split; [done|]. intros _.
    exists (sorted_by_count (Counter (cluster_packages repos (repo :: members)))).
    split_and!.
    + done.
    + by rewrite sorted_by_count_Permutation, Counter_by_first_encounter.
    + apply sorted_by_count_sorted.
    + intros n.
      by rewrite sorted_by_count_stable, Counter_by_first_encounter.
Qed.
End summariser_claims.

Lemma cluster_summary_correct_witness :
  ∃ ranking,
    dict_get (cluster_top_packages repos_abc [0; 0; 1]) 0
    = Some (take 10 ranking)
    ∧ ranking ≡ₚ (λ pkg, (pkg, frequency pkg
                                  (occurrences repos_abc [0; 0; 1] 0)))
                   <$> distinct (occurrences repos_abc [0; 0; 1] 0)
    ∧ StronglySorted by_count_desc ranking
    ∧ ∀ n, filter (λ a, a.2 = n) ranking
           = filter (λ a, a.2 = n)
               ((λ pkg, (pkg, frequency pkg
                                (occurrences repos_abc [0; 0; 1] 0)))
                  <$> distinct (occurrences repos_abc [0; 0; 1] 0)).
Proof.
  apply (cluster_summary_correct repos_abc [0; 0; 1] 0).
  - apply (bool_decide_unpack _). by vm_compute.
  - by vm_compute.
Defined.

(** The scenario of three repositories in two clusters. *)
Example summary_of_two_clusters :
  cluster_top_packages repos_abc [0; 0; 1]
  = [(0, [("a", 2); ("b", 2)]); (1, [("c", 1)])].
Proof. reflexivity. Qed.

Example most_common_ties :
  most_common 3 (Counter ["x"; "y"; "z"; "y"; "z"; "w"])
  = [("y", 2); ("z", 2); ("x", 1)].
Proof. reflexivity. Qed.

(** ** Cluster count selector and partitioner *)

Example X_abc_is_feature_matrix : feature_matrix repos_abc = X_abc.
Proof. by vm_compute. Qed.

Lemma seq_middle (start len k : nat) :
  start ≤ k < start + len →
  seq start len = seq start (k - start) ++ k :: seq (S k) (start + len - S k).
Proof.
  intros Hk.
  assert (Hlen : len = (k - start) + S (start + len - S k)) by lia.
  rewrite Hlen at 1. rewrite seq_app. cbn [seq].
  by replace (start + (k - start)) with k by lia.
Qed.

Section clustering_facts.
Context `{ClusterLib}.
Variable X : list (list Z).
Variable entropy : Z.

Lemma elbow_loop_completes k_values sse log :
  (∀ k, k ∈ k_values → ∃ f, kmeans_fit k (Some 42%Z) entropy X = Ok f) →
  ∃ sse', elbow_loop X entropy k_values sse log
          = (log ++ ((λ k, Fit k 42 true) <$> k_values), Ok sse').
Proof.
  revert sse log.
  induction k_values as [|k k_values IH]; intros sse log Hfit; csimpl.
  - exists sse. by rewrite app_nil_r.
  - destruct (Hfit k) as [f Hf]; [by left|]. rewrite Hf.
    destruct (IH (sse ++ [inertia_ f]) (log ++ [Fit k 42 true])) as [sse' ->].
    { intros j Hj. apply Hfit. by right. }
    exists sse'. by rewrite <- app_assoc.
Qed.

Lemma elbow_loop_stops before k after e sse log :
  (∀ j, j ∈ before → ∃ f, kmeans_fit j (Some 42%Z) entropy X = Ok f) →
  kmeans_fit k (Some 42%Z) entropy X = Raise e →
  elbow_loop X entropy (before ++ k :: after) sse log
  = (log ++ ((λ j, Fit j 42 true) <$> before) ++ [Fit k 42 false], Raise e).
Proof.
  revert sse log.
  induction before as [|j before IH]; intros sse log Hfit Hk; csimpl.
  - by rewrite Hk.
  - destruct (Hfit j) as [f Hf]; [by left|]. rewrite Hf.
    rewrite IH; [|by intros ??; apply Hfit; right|done].
    by rewrite <- app_assoc.
Qed.

(** The clustering stage has no check of the cluster count of its own.
    It calls the library's fit for k = 1, ..., 10 in the elbow method and
    then once more in the partitioner; the first fit that raises ends the
    run with that error, unchanged, after the fits before it have
    completed, and the partitioner is reached only when all ten fits of
    the elbow method have completed. *)
Lemma cluster_stage_propagates (chosen_k : nat) :
  (∀ k e,
     1 ≤ k ≤ 10 →
     (∀ j, 1 ≤ j < k → ∃ f, kmeans_fit j (Some 42%Z) entropy X = Ok f) →
     kmeans_fit k (Some 42%Z) entropy X = Raise e →
     cluster_stage X entropy chosen_k
     = (((λ j, Fit j 42 true) <$> seq 1 (k - 1)) ++ [Fit k 42 false], Raise e))
  ∧ ((∀ j, 1 ≤ j ≤ 10 → ∃ f, kmeans_fit j (Some 42%Z) entropy X = Ok f) →
     cluster_stage X entropy chosen_k
     = partition X entropy chosen_k ((λ j, Fit j 42 true) <$> seq 1 10))
  ∧ (∀ log e,
       kmeans_fit chosen_k (Some 8675309%Z) entropy X = Raise e →
       partition X entropy chosen_k log
       = (log ++ [Fit chosen_k 8675309 false], Raise e))
  ∧ (∀ log f,
       kmeans_fit chosen_k (Some 8675309%Z) entropy X = Ok f →
       partition X entropy chosen_k log
       = (log ++ [Fit chosen_k 8675309 true], Ok (labels_ f))).
Proof.
  split_and!.
  - intros k e Hk Hbefore Hraise. unfold cluster_stage, elbow_method.
    rewrite (seq_middle 1 10 k) by lia.
    rewrite (elbow_loop_stops _ _ _ e); [done| |done].
    intros j Hj%elem_of_seq. apply Hbefore. lia.
  - intros Hall. unfold cluster_stage, elbow_method.
    destruct (elbow_loop_completes (seq 1 10) [] []) as [sse' ->]; [|done].
    intros j Hj%elem_of_seq. apply Hall. lia.
  - intros log e Hraise. unfold partition. by rewrite Hraise.
  - intros log f Hfit. unfold partition. by rewrite Hfit.
Qed.

End clustering_facts.

(** ** The clustering stage with the partitioning algorithm of the
    specification *)

Section lloyd_stage.
Variable init : Z → nat → list Lloyd.point → list Lloyd.point.
Variable X : list (list Z).

Lemma lloyd_fit_rejects k random_state entropy :
  length X < k →
  kmeans_fit (ClusterLib := Lloyd.lib init) k random_state entropy X
  = Raise ValueError.
Proof.
  intros Hk. cbn [kmeans_fit Lloyd.lib]. unfold Lloyd.fit.
  replace (length X <? k) with true; [by rewrite orb_true_r|].
  symmetry. by apply Nat.ltb_lt.
Qed.

Lemma lloyd_fit_completes k random_state entropy :
  1 ≤ k ≤ length X →
  ∃ f, kmeans_fit (ClusterLib := Lloyd.lib init) k random_state entropy X
       = Ok f.
Proof.
  intros Hk. cbn [kmeans_fit Lloyd.lib]. unfold Lloyd.fit.
  replace ((k =? 0) || (length X <? k)) with false; [by eexists|].
  symmetry. apply orb_false_intro.
  - apply Nat.eqb_neq. lia.
  - apply Nat.ltb_ge. lia.
Qed.

(** C6 (amended): a cluster count above the number of repositories is
    rejected with the library's error and the run returns no labels: the
    partitioner's fit raises it.  The rejection is the library's, not a
    check of the pipeline, and it does not come before the numeric work:
    the elbow method runs first, so with fewer than ten repositories the
    run ends in its fit for k = n + 1, after the fits for k = 1, ..., n
    have completed, and the partitioner's fit is not reached; with ten or
    more the ten fits of the elbow method complete and the partitioner's
    fit raises the error.  The library is the partitioning algorithm as
    the specification describes it. *)
Theorem cluster_stage_rejects (entropy : Z) (chosen_k : nat) :
  length X < chosen_k →
  (∀ log,
     partition (H := Lloyd.lib init) X entropy chosen_k log
     = (log ++ [Fit chosen_k 8675309 false], Raise ValueError))
  ∧ (cluster_stage (H := Lloyd.lib init) X entropy chosen_k).2
    = Raise ValueError
  ∧ (length X < 10 →
     (cluster_stage (H := Lloyd.lib init) X entropy chosen_k).1
     = ((λ j, Fit j 42 true) <$> seq 1 (length X))
       ++ [Fit (S (length X)) 42 false])
  ∧ (10 ≤ length X →
     (cluster_stage (H := Lloyd.lib init) X entropy chosen_k).1
     = ((λ j, Fit j 42 true) <$> seq 1 10)
       ++ [Fit chosen_k 8675309 false]).
Proof.
  intros Hk.
  assert (Hpartition : ∀ log,
            partition (H := Lloyd.lib init) X entropy chosen_k log
            = (log ++ [Fit chosen_k 8675309 false], Raise ValueError)).
  { intros log. unfold partition. by rewrite lloyd_fit_rejects. }
  assert (Hstage : cluster_stage (H := Lloyd.lib init) X entropy chosen_k
            = if decide (length X < 10)
              then (((λ j, Fit j 42 true) <$> seq 1 (length X))
                    ++ [Fit (S (length X)) 42 false], Raise ValueError)
              else (((λ j, Fit j 42 true) <$> seq 1 10)
                    ++ [Fit chosen_k 8675309 false], Raise ValueError)).
  { case_decide as Hn.
    - unfold cluster_stage, elbow_method.
      rewrite (seq_middle 1 10 (S (length X))) by lia.
      rewrite (elbow_loop_stops _ _ _ _ _ ValueError).
      + simpl. by rewrite Nat.sub_0_r.
      + intros j Hj%elem_of_seq. apply lloyd_fit_completes. lia.
      + apply lloyd_fit_rejects. lia.
    - unfold cluster_stage, elbow_method.
      destruct (elbow_loop_completes (H := Lloyd.lib init) X entropy
                  (seq 1 10) [] []) as [sse' ->].
      + intros j Hj%elem_of_seq. apply lloyd_fit_completes. lia.
      + simpl. apply Hpartition. }
  split_and!.
  - done.
  - rewrite Hstage. by case_decide.
  - intros Hn. rewrite Hstage. by rewrite decide_True.
  - intros Hn. rewrite Hstage. rewrite decide_False; [done|lia].
Qed.

End lloyd_stage.

(** C6, as stated, fails for three repositories: the run ends with the
    library's error for k = 4 in the elbow method, after three fits have
    completed, and the partitioner's fit for k = 5 is never called. *)
Lemma rejection_after_numeric_work :
  length X_abc < optimal_k
  ∧ clusters (H := sample_cluster_lib) X_abc 0
    = ([Fit 1 42 true; Fit 2 42 true; Fit 3 42 true; Fit 4 42 false],
       Raise ValueError).
Proof. split; [unfold optimal_k; simpl; lia|by vm_compute]. Qed.

Lemma cluster_stage_rejects_witness :
  (∀ log,
     partition (H := sample_cluster_lib) X_abc 0 optimal_k log
     = (log ++ [Fit optimal_k 8675309 false], Raise ValueError))
  ∧ (clusters (H := sample_cluster_lib) X_abc 0).2 = Raise ValueError
  ∧ (clusters (H := sample_cluster_lib) X_abc 0).1
    = [Fit 1 42 true; Fit 2 42 true; Fit 3 42 true; Fit 4 42 false].
Proof.
  destruct (cluster_stage_rejects Lloyd.rotate_init X_abc 0 optimal_k)
    as (Hpartition & Hresult & Hbelow & _).
  - unfold optimal_k. simpl. lia.
  - split_and!; [done..|].
    apply Hbelow. simpl. lia.
Defined.


(** Without a seed the stand-in library does depend on the generator. *)
Example unseeded_runs_differ :
  labels_ <$> kmeans_fit (ClusterLib := sample_cluster_lib) 2 None 0 X_abc
  ≠ labels_ <$> kmeans_fit (ClusterLib := sample_cluster_lib) 2 None 1 X_abc.
Proof. by vm_compute. Qed.

(** ** Iterative relocation *)

Lemma nearest_from_bound cs p j best d :
  best < j → Lloyd.nearest_from cs p j best d < j + length cs.
Proof.
  revert j best d. induction cs as [|c cs IH]; intros j best d Hbest; simpl.
  - lia.
  - destruct (Lloyd.Qlt_bool (Lloyd.sqdist p c) d).
    + specialize (IH (S j) j (Lloyd.sqdist p c)). lia.
    + specialize (IH (S j) best d). lia.
Qed.

Lemma nearest_bound cs p : cs ≠ [] → Lloyd.nearest cs p < length cs.
Proof.
  destruct cs as [|c cs]; [done|]. intros _. simpl.
  apply (nearest_from_bound cs p 1 0). lia.
Qed.

Lemma nearest_single c p : Lloyd.nearest [c] p = 0.
Proof. reflexivity. Qed.

Lemma length_recompute cs labels pts :
  length (Lloyd.recompute cs labels pts) = length cs.
Proof. unfold Lloyd.recompute. apply length_imap. Qed.

Lemma length_relocate cap cs pts :
  length (Lloyd.relocate cap cs pts) = length cs.
Proof.
  revert cs. induction cap as [|cap IH]; intros cs; simpl; [done|].
  case_decide; [|rewrite IH]; apply length_recompute.
Qed.

(** C7: for a matrix with n rows and a cluster count k with 1 <= k <= n
    the partitioner returns n labels, the i-th being the index of the
    centroid nearest to row i, every label below k, and all labels 0 when
    k = 1.  The partitioning algorithm is the iterative relocation
    described by the specification. *)
Theorem partition_labels_in_range
    (init : Z → nat → list Lloyd.point → list Lloyd.point)
    (X : list (list Z)) (k : nat) (entropy : Z) (log : list event) :
  (∀ seed pts, k ≤ length pts → length (init seed k pts) = k) →
  1 ≤ k ≤ length X →
  ∃ labels centroids,
    partition (H := Lloyd.lib init) X entropy k log
    = (log ++ [Fit k 8675309 true], Ok labels)
    ∧ length centroids = k
    ∧ labels = (λ row, Lloyd.nearest centroids (Lloyd.of_row row)) <$> X
    ∧ length labels = length X
    ∧ (∀ l, l ∈ labels → l < k)
    ∧ (k = 1 → ∀ l, l ∈ labels → l = 0).
Proof.
  intros Hinit [Hk1 Hkn].
  set (pts := Lloyd.of_row <$> X).
  set (cs := Lloyd.relocate Lloyd.max_iter (init 8675309%Z k pts) pts).
  assert (Hcs : length cs = k).
  { unfold cs. rewrite length_relocate. apply Hinit.
    unfold pts. by rewrite length_fmap. }
  exists (Lloyd.assign cs pts), cs. split_and!.
  - unfold partition. cbn [kmeans_fit Lloyd.lib default]. unfold Lloyd.fit.
    replace ((k =? 0) || (length X <? k)) with false; [done|].
    symmetry. apply orb_false_intro.
    + apply Nat.eqb_neq. lia.
    + apply Nat.ltb_ge. lia.
  - done.
  - unfold Lloyd.assign, pts. by rewrite <- list_fmap_compose.
  - unfold Lloyd.assign, pts. by rewrite !length_fmap.
  - intros l (p & -> & _)%list_elem_of_fmap. rewrite <- Hcs.
    apply nearest_bound. intros Hnil. rewrite Hnil in Hcs. simpl in Hcs. lia.
  - intros -> l (p & -> & _)%list_elem_of_fmap.
    destruct cs as [|c [|c' cs']]; simplify_eq/=. done.
Qed.

Lemma partition_labels_in_range_witness :
  ∃ labels centroids,
    partition (H := sample_cluster_lib) X_abc 0 2 []
    = ([] ++ [Fit 2 8675309 true], Ok labels)
    ∧ length centroids = 2
    ∧ labels = (λ row, Lloyd.nearest centroids (Lloyd.of_row row)) <$> X_abc
    ∧ length labels = length X_abc
    ∧ (∀ l, l ∈ labels → l < 2)
    ∧ (2 = 1 → ∀ l, l ∈ labels → l = 0).
Proof.
  apply (partition_labels_in_range Lloyd.rotate_init X_abc 2 0 []).
  - intros seed pts Hpts. unfold Lloyd.rotate_init.
    rewrite length_take, length_rotate. lia.
  - simpl. lia.
Defined.

(** Two clusters separate the repositories with [{a, b}] from the one
    with [{c}]; one cluster holds all three. *)
Example partition_of_three :
  (partition (H := sample_cluster_lib) X_abc 0 2 []).2 = Ok [1; 1; 0]
  ∧ (partition (H := sample_cluster_lib) X_abc 0 1 []).2 = Ok [0; 0; 0].
Proof. split; by vm_compute. Qed.

(** * Further properties *)

(** ** Repository discovery *)

Lemma dict_set_new {K V} `{EqDecision K} (d : list (K * V)) k v :
  dict_has d k = false → dict_set d k v = d ++ [(k, v)].
Proof.
  unfold dict_has. induction d as [|[k' v'] d IH]; simpl; [done|].
  case_decide; [done|]. intros Hd. by rewrite IH.
Qed.

(** What the loop keeps true of the dictionary it builds: distinct keys,
    every key the name of its repository, every repository one of
    [source] or of the feed, and no more than [max_repos] entries once it
    has added one. *)
Lemma scrape_loop_invariant max_repos repositories raw_repos
    (source : list repo) :
  NoDup (dict_keys raw_repos) →
  (∀ name r, (name, r) ∈ raw_repos → name = full_name r ∧ r ∈ source) →
  let out := scrape_loop max_repos repositories raw_repos in
  NoDup (dict_keys out)
  ∧ (∀ name r, (name, r) ∈ out →
       name = full_name r ∧ r ∈ source ++ yielded repositories)
  ∧ length out ≤ max (length raw_repos) (Z.to_nat max_repos).
Proof.
  revert raw_repos source.
  induction repositories as [|r rest IH|limit message];
    intros raw_repos source Hnd Hentries; simpl.
  - split_and!; [done| |lia]. intros name r Hin.
    destruct (Hentries name r Hin). by rewrite app_nil_r.
  - destruct (max_repos <=? Z.of_nat (length raw_repos))%Z eqn:Hfull.
    { split_and!; [done| |lia]. intros name r' Hin.
      destruct (Hentries name r' Hin). split; [done|].
      apply elem_of_app. by left. }
    apply Z.leb_gt in Hfull.
    destruct (dict_has raw_repos (full_name r)) eqn:Hhas.
    + destruct (IH raw_repos source Hnd Hentries) as (Hnd' & Hentries' & Hlen).
      split_and!; [done| |done]. intros name r' Hin.
      destruct (Hentries' name r' Hin) as [-> Hr']. split; [done|].
      apply elem_of_app in Hr' as [?|?]; apply elem_of_app; [by left|].
      right. by right.
    + destruct (IH (dict_set raw_repos (full_name r) r) (source ++ [r]))
        as (Hnd' & Hentries' & Hlen).
      { by apply NoDup_dict_keys_set. }
      { intros name r'. rewrite dict_set_new by done.
        intros [Hin|Hin%list_elem_of_singleton]%elem_of_app.
        - destruct (Hentries name r' Hin). split; [done|].
          apply elem_of_app. by left.
        - simplify_eq. split; [done|]. apply elem_of_app. right. by left. }
      split_and!; [done| |].
      * intros name r' Hin. destruct (Hentries' name r' Hin) as [-> Hr'].
        split; [done|]. by rewrite <- app_assoc in Hr'.
      * rewrite length_dict_set, Hhas in Hlen. lia.
  - assert (Hsame : (if limit then raw_repos
                     else if contains "rate limit" (lower message)
                          then raw_repos else raw_repos) = raw_repos)
      by (by destruct limit, (contains "rate limit" (lower message))).
    rewrite Hsame. split_and!; [done| |lia]. intros name r Hin.
    destruct (Hentries name r Hin). by rewrite app_nil_r.
Qed.

Lemma scrape_github_entries search max_repos :
  length (scrape_github search max_repos) ≤ Z.to_nat max_repos
  ∧ NoDup (dict_keys (scrape_github search max_repos))
  ∧ (∀ name r, (name, r) ∈ scrape_github search max_repos →
       name = full_name r
       ∧ ∃ repositories,
           search = Ok repositories ∧ r ∈ yielded repositories).
Proof.
  destruct search as [repositories|e]; simpl.
  - destruct (scrape_loop_invariant max_repos repositories [] [])
      as (Hnd & Hentries & Hlen); [constructor|by intros ?? ?%elem_of_nil|].
    split_and!; [simpl in Hlen; lia|done|].
    intros name r Hin. destruct (Hentries name r Hin) as [-> Hr].
    split; [done|]. by exists repositories.
  - split_and!; [lia|constructor|by intros ?? ?%elem_of_nil].
Qed.

Lemma scrape_github_names_NoDup search max_repos :
  NoDup (full_name <$> dict_values (scrape_github search max_repos)).
Proof.
  destruct (scrape_github_entries search max_repos) as (_ & Hnd & Hentries).
  replace (full_name <$> dict_values (scrape_github search max_repos))
    with (dict_keys (scrape_github search max_repos)); [done|].
  unfold dict_keys, dict_values. rewrite <- list_fmap_compose.
  apply Forall_fmap_ext_1, Forall_forall. intros [name r] Hin.
  by destruct (Hentries name r Hin) as [-> _].
Qed.

(** X1: whatever the search does, [scrape_github] returns a dictionary
    with at most [max_repos] entries (none when [max_repos] is not
    positive or the query fails), whose keys are the full names of their
    repositories, all of them yielded by the search; so the full names of
    the values are pairwise distinct. *)
Theorem scrape_github_bounded (search : result feed) (max_repos : Z) :
  length (scrape_github search max_repos) ≤ Z.to_nat max_repos
  ∧ NoDup (dict_keys (scrape_github search max_repos))
  ∧ (∀ name r, (name, r) ∈ scrape_github search max_repos →
       name = full_name r
       ∧ ∃ repositories, search = Ok repositories ∧ r ∈ yielded repositories)
  ∧ NoDup (full_name <$> dict_values (scrape_github search max_repos))
  ∧ (∀ e, search = Raise e → scrape_github search max_repos = []).
Proof.
  destruct (scrape_github_entries search max_repos) as (Hlen & Hnd & Hentries).
  split_and!; try done.
  - apply scrape_github_names_NoDup.
  - by intros e ->.
Qed.

Lemma filter_filter_implied {A} (P Q : A → Prop)
    `{∀ x, Decision (P x), ∀ x, Decision (Q x)} (l : list A) :
  (∀ x, P x → Q x) → filter P (filter Q l) = filter P l.
Proof.
  intros HPQ. induction l as [|x l IH]; [done|].
  rewrite !filter_cons.
  destruct (decide (Q x)), (decide (P x)); rewrite ?filter_cons;
    try (rewrite decide_True by done); try (rewrite decide_False by done);
    rewrite ?IH; naive_solver.
Qed.

Lemma filter_all {A} (P : A → Prop) `{∀ x, Decision (P x)} (l : list A) :
  (∀ x, P x) → filter P l = l.
Proof.
  intros HP. induction l as [|x l IH]; [done|].
  by rewrite filter_cons, decide_True, IH.
Qed.

Lemma scrape_loop_keys max_repos repositories raw_repos :
  dict_keys (scrape_loop max_repos repositories raw_repos)
  = dict_keys raw_repos
    ++ take (Z.to_nat max_repos - length raw_repos)
         (filter (λ name, name ∉ dict_keys raw_repos)
            (distinct (full_name <$> yielded repositories))).
Proof.
  revert raw_repos.
  induction repositories as [|r rest IH|limit message]; intros raw_repos.
  - cbn [scrape_loop yielded]. rewrite fmap_nil. cbn [distinct].
    by rewrite filter_nil, take_nil, app_nil_r.
  - cbn [scrape_loop yielded]. rewrite fmap_cons. cbn [distinct].
    destruct (max_repos <=? Z.of_nat (length raw_repos))%Z eqn:Hfull.
    { apply Z.leb_le in Hfull.
      replace (Z.to_nat max_repos - length raw_repos) with 0 by lia.
      by rewrite app_nil_r. }
    apply Z.leb_gt in Hfull.
    destruct (dict_has raw_repos (full_name r)) eqn:Hhas.
    + rewrite IH. f_equal. f_equal.
      apply dict_has_true in Hhas.
      rewrite filter_cons, decide_False by (by intros Hnot; apply Hnot).
      symmetry. apply filter_filter_implied. intros name Hname ->. by apply Hname.
    + rewrite IH, dict_keys_set, Hhas, <- app_assoc. f_equal.
      assert (Hnew : full_name r ∉ dict_keys raw_repos).
      { intros Hin%dict_has_true. congruence. }
      rewrite filter_cons, decide_True by done.
      rewrite length_dict_set, Hhas.
      replace (Z.to_nat max_repos - length raw_repos)
        with (S (Z.to_nat max_repos - S (length raw_repos))) by lia.
      simpl. f_equal. f_equal.
      rewrite list_filter_filter. apply list_filter_iff.
      intros name. rewrite elem_of_app, list_elem_of_singleton. naive_solver.
  - cbn [scrape_loop yielded]. rewrite fmap_nil. cbn [distinct].
    rewrite filter_nil, take_nil, app_nil_r.
    by destruct limit, (contains "rate limit" (lower message)).
Qed.

(** X2: the keys of the dictionary [scrape_github] returns are the first
    [max_repos] distinct full names the search yields, in the order in
    which it yields them: a repeated name is passed over, and what comes
    after an interruption or after the bound is reached is not read. *)
Theorem scrape_github_first_come (repositories : feed) (max_repos : Z) :
  dict_keys (scrape_github (Ok repositories) max_repos)
  = take (Z.to_nat max_repos)
      (distinct (full_name <$> yielded repositories)).
Proof.
  unfold scrape_github. rewrite scrape_loop_keys. simpl.
  rewrite Nat.sub_0_r. f_equal.
  apply filter_all. intros name. apply not_elem_of_nil.
Qed.

Example scrape_sample_feed :
  dict_keys (scrape_github (Ok sample_feed) 2) = ["acme/web"; "acme/empty"]
  ∧ dict_keys (scrape_github (Ok sample_feed) 10)
    = ["acme/web"; "acme/empty"; "acme/broken"].
Proof. split; reflexivity. Qed.

(** ** Repository aggregator, continued *)

Lemma elem_of_dict_set {K V} `{EqDecision K} (d : list (K * V)) k v kv :
  kv ∈ dict_set d k v → kv = (k, v) ∨ kv ∈ d.
Proof.
  induction d as [|[k' v'] d IH]; simpl.
  - intros ?%list_elem_of_singleton. by left.
  - case_decide; subst; rewrite !elem_of_cons; naive_solver.
Qed.

Section aggregator_more.
Context `{ParserLibs}.


Lemma collect_results_entries completed acc name packages :
  (name, packages) ∈ collect_results completed acc →
  (name, packages) ∈ acc
  ∨ ∃ r, r ∈ completed ∧ process_repo r = Some (name, packages).
Proof.
  revert acc. induction completed as [|r completed IH]; intros acc; simpl.
  - by left.
  - destruct (process_repo r) as [[name' packages']|] eqn:E; intros Hin.
    + apply IH in Hin as [Hin|(r' & ? & ?)].
      * apply elem_of_dict_set in Hin as [?|?]; [|by left].
        simplify_eq. right. exists r. split; [by left|done].
      * right. exists r'. split; [by right|done].
    + apply IH in Hin as [?|(r' & ? & ?)]; [by left|].
      right. exists r'. split; [by right|done].
Qed.

(** X4: every entry of the aggregator's result, in whatever order the
    tasks finish, is the result of [process_repo] for a repository of the
    input: its key is that repository's full name and its list is not
    empty and has no duplicates. *)
Theorem extract_dependencies_entries (raw_repos : list (string * repo))
    (out : list (string * list string)) :
  extract_dependencies raw_repos out →
  ∀ name packages,
    (name, packages) ∈ out →
    packages ≠ [] ∧ NoDup packages
    ∧ ∃ r, r ∈ dict_values raw_repos ∧ full_name r = name
           ∧ ∀ pkg, pkg ∈ packages ↔ pkg ∈ combined r.
Proof.
  intros (completed & Hperm & ->) name packages Hin.
  apply collect_results_entries in Hin as [Hin|(r & Hr & Hsome)];
    [by apply elem_of_nil in Hin|].
  rewrite process_repo_spec in Hsome. case_decide as Hc; [done|].
  simplify_eq. split_and!.
  - by rewrite list_of_set_nil.
  - apply NoDup_list_of_set.
  - exists r. split_and!; [by rewrite <- Hperm|done|].
    intros pkg. apply elem_of_list_of_set.
Qed.

(** X5: the order in which the tasks finish decides the order of the
    entries and nothing else: two results for one input, with distinct
    full names, hold the same list under every key, and their keys are
    the same up to order. *)
Theorem extract_dependencies_order_independent
    (raw_repos : list (string * repo))
    (out1 out2 : list (string * list string)) :
  NoDup (full_name <$> dict_values raw_repos) →
  extract_dependencies raw_repos out1 →
  extract_dependencies raw_repos out2 →
  (∀ name, dict_get out1 name = dict_get out2 name)
  ∧ dict_keys out1 ≡ₚ dict_keys out2.
Proof.
  intros Hnd (completed1 & Hperm1 & ->) (completed2 & Hperm2 & ->).
  assert (Hkeys : ∀ completed name,
    completed ≡ₚ dict_values raw_repos →
    name ∈ dict_keys (collect_results completed [])
    ↔ ∃ r, r ∈ dict_values raw_repos ∧ combined r ≠ [] ∧ full_name r = name).
  { intros completed name Hperm. rewrite collect_results_keys. split.
    - intros [Hin|(r & Hr & ? & ?)]; [by apply elem_of_nil in Hin|].
      exists r. by rewrite <- Hperm.
    - intros (r & Hr & ? & ?). right. exists r. by rewrite Hperm. }
  assert (Hfound : ∀ completed name,
    completed ≡ₚ dict_values raw_repos →
    name ∈ dict_keys (collect_results completed []) →
    ∃ r, r ∈ dict_values raw_repos ∧ full_name r = name
         ∧ dict_get (collect_results completed []) name
           = Some (list_of_set (combined r))).
  { intros completed name Hperm (r & Hr & Hne & <-)%Hkeys; [|done].
    exists r. split_and!; [done..|].
    apply collect_results_get; by rewrite ?Hperm. }
  assert (Hsame : ∀ name,
    dict_get (collect_results completed1 []) name
    = dict_get (collect_results completed2 []) name).
  { intros name.
    destruct (decide (name ∈ dict_keys (collect_results completed1 [])))
      as [Hin|Hnot].
    - destruct (Hfound completed1 name Hperm1 Hin) as (r & Hr & <- & ->).
      symmetry. apply collect_results_get; [by rewrite Hperm2..|].
      apply (Hkeys completed1) in Hin as (r' & Hr' & Hne & Hname); [|done].
      by rewrite <- (NoDup_fmap_eq full_name _ r' r Hnd Hr' Hr Hname).
    - assert (Hnot2 : name ∉ dict_keys (collect_results completed2 [])).
      { intros Hin. apply Hnot. apply (Hkeys completed1); [done|].
        by apply (Hkeys completed2). }
      apply dict_get_None in Hnot, Hnot2. by rewrite Hnot, Hnot2. }
  split; [done|].
  apply NoDup_Permutation;
    [apply collect_results_NoDup; constructor..|].
  intros name. rewrite (Hkeys completed1), (Hkeys completed2); done.
Qed.
End aggregator_more.

(** The sample repositories, their tasks finishing in input order. *)
Lemma sample_extract_dependencies_in_order :
  extract_dependencies (H := sample_libs) sample_raw_repos
    (collect_results (H := sample_libs)
       [repo_two_formats; repo_no_manifest; repo_broken_cfg] []).
Proof. eexists. split; [|reflexivity]. reflexivity. Defined.

Lemma extract_dependencies_entries_witness :
  ["flask"; "requests"] ≠ [] ∧ NoDup ["flask"; "requests"]
  ∧ ∃ r, r ∈ dict_values sample_raw_repos ∧ full_name r = "acme/broken"
         ∧ ∀ pkg, pkg ∈ ["flask"; "requests"]
                  ↔ pkg ∈ combined (H := sample_libs) r.
Proof.
  apply (extract_dependencies_entries (H := sample_libs) sample_raw_repos
           _ sample_extract_dependencies "acme/broken" ["flask"; "requests"]).
  apply (bool_decide_unpack _). by vm_compute.
Defined.

Lemma extract_dependencies_order_independent_witness :
  (∀ name,
     dict_get (collect_results (H := sample_libs)
        [repo_two_formats; repo_no_manifest; repo_broken_cfg] []) name
     = dict_get (collect_results (H := sample_libs)
        [repo_broken_cfg; repo_no_manifest; repo_two_formats] []) name)
  ∧ dict_keys (collect_results (H := sample_libs)
        [repo_two_formats; repo_no_manifest; repo_broken_cfg] [])
    ≡ₚ dict_keys (collect_results (H := sample_libs)
        [repo_broken_cfg; repo_no_manifest; repo_two_formats] []).
Proof.
  apply (extract_dependencies_order_independent (H := sample_libs)
           sample_raw_repos).
  - apply (bool_decide_unpack _). by vm_compute.
  - apply sample_extract_dependencies_in_order.
  - apply sample_extract_dependencies.
Defined.

(** ** Feature matrix builder, continued *)

Lemma package_index_exists repos r pkg pkgs :
  (r, pkgs) ∈ repos → pkg ∈ pkgs →
  ∃ j, package_to_index repos !! pkg = Some j
       ∧ all_packages repos !! j = Some pkg
       ∧ j < num_packages repos.
Proof.
  intros Hr Hpkg.
  assert (Hin : pkg ∈ all_packages repos)
    by (apply elem_of_all_packages; eauto).
  apply list_elem_of_lookup in Hin as [j Hj]. exists j. split_and!.
  - by apply package_to_index_lookup.
  - done.
  - by apply lookup_lt_Some in Hj.
Qed.

(** X6: the guard [if j is not None] of the matrix loop never skips a
    package: every package of every repository has an index, and that
    index is the position of the package in the vocabulary. *)
Theorem package_to_index_total (repos : list (string * list string))
    (r pkg : string) (pkgs : list string) :
  (r, pkgs) ∈ repos → pkg ∈ pkgs →
  ∃ j, package_to_index repos !! pkg = Some j
       ∧ all_packages repos !! j = Some pkg
       ∧ j < num_packages repos.
Proof.
  intros Hr Hpkg.
  assert (Hin : pkg ∈ all_packages repos).
  { unfold all_packages. rewrite sorted_Permutation, elem_of_elements.
    apply elem_of_package_set. eauto. }
  apply list_elem_of_lookup in Hin as [j Hj]. exists j. split_and!.
  - by apply package_to_index_lookup.
  - done.
  - by apply lookup_lt_Some in Hj.
Qed.

Lemma package_to_index_total_witness :
  ∃ j, package_to_index repos_ab !! "numpy" = Some j
       ∧ all_packages repos_ab !! j = Some "numpy"
       ∧ j < num_packages repos_ab.
Proof.
  apply (package_to_index_total repos_ab "acme/a" "numpy" ["numpy"; "flask"]).
  - by left.
  - by left.
Defined.

Lemma entry_binary repos i j :
  entry (feature_matrix repos) i j = 0%Z ∨ entry (feature_matrix repos) i j = 1%Z.
Proof.
  unfold entry. rewrite feature_matrix_rows, list_lookup_fmap.
  destruct (repo_names repos !! i) as [r|]; simpl; [|by left].
  unfold indicator. rewrite list_lookup_fmap.
  destruct (all_packages repos !! j) as [pkg|]; simpl; [|by left].
  case_decide; auto.
Qed.

(** X7: the matrix is binary, every column has a 1 in some row, and the
    row of a repository is all zeros exactly when its package list is
    empty (the keys of the mapping being distinct). *)
Theorem feature_matrix_ones (repos : list (string * list string)) :
  NoDup (dict_keys repos) →
  (∀ i j, entry (feature_matrix repos) i j = 0%Z
          ∨ entry (feature_matrix repos) i j = 1%Z)
  ∧ (∀ j, j < num_packages repos →
          ∃ i, i < num_repos repos ∧ entry (feature_matrix repos) i j = 1%Z)
  ∧ (∀ i r pkgs,
       repos !! i = Some (r, pkgs) →
       (pkgs = [] ↔ ∀ j, entry (feature_matrix repos) i j = 0%Z)).
Proof.
  intros Hnd. split_and!.
  - apply entry_binary.
  - intros j Hj. apply lookup_lt_is_Some in Hj as [pkg Hpkg].
    assert (Hin : pkg ∈ all_packages repos)
      by (by apply list_elem_of_lookup_2 in Hpkg).
    apply elem_of_all_packages in Hin as (r & pkgs & Hr & Hin).
    apply list_elem_of_lookup in Hr as [i Hi]. exists i. split.
    + unfold num_repos, repo_names, dict_keys. rewrite length_fmap.
      by apply lookup_lt_Some in Hi.
    + rewrite (entry_indicator repos i j r pkg); [| |done].
      * rewrite (dict_get_elem repos r pkgs Hnd)
          by (by apply list_elem_of_lookup_2 in Hi).
        by rewrite decide_True.
      * unfold repo_names, dict_keys. by rewrite list_lookup_fmap, Hi.
  - intros i r pkgs Hi.
    assert (Hname : repo_names repos !! i = Some r)
      by (unfold repo_names, dict_keys; by rewrite list_lookup_fmap, Hi).
    assert (Hget : dict_get repos r = Some pkgs)
      by (apply dict_get_elem; [done|by apply list_elem_of_lookup_2 in Hi]).
    split.
    + intros -> j. destruct (all_packages repos !! j) as [pkg|] eqn:Hj.
      * rewrite (entry_indicator repos i j r pkg) by done.
        by rewrite Hget.
      * unfold entry. rewrite feature_matrix_rows, list_lookup_fmap, Hname.
        simpl. unfold indicator. by rewrite list_lookup_fmap, Hj.
    + intros Hzero. apply elem_of_nil_inv. intros pkg Hpkg.
      destruct (package_index_exists repos r pkg pkgs)
        as (j & _ & Hj & _); [by apply list_elem_of_lookup_2 in Hi|done|].
      specialize (Hzero j).
      rewrite (entry_indicator repos i j r pkg) in Hzero by done.
      rewrite Hget in Hzero. simpl in Hzero.
      by rewrite decide_True in Hzero.
Qed.

Lemma feature_matrix_ones_witness :
  (∀ i j, entry (feature_matrix repos_ab) i j = 0%Z
          ∨ entry (feature_matrix repos_ab) i j = 1%Z)
  ∧ (∀ j, j < num_packages repos_ab →
          ∃ i, i < num_repos repos_ab
               ∧ entry (feature_matrix repos_ab) i j = 1%Z)
  ∧ (∀ i r pkgs,
       repos_ab !! i = Some (r, pkgs) →
       (pkgs = [] ↔ ∀ j, entry (feature_matrix repos_ab) i j = 0%Z)).
Proof.
  apply (feature_matrix_ones repos_ab).
  apply (bool_decide_unpack _). by vm_compute.
Defined.

(** ** From discovery to the matrix *)

Section pipeline_facts.
Context `{ParserLibs}.

(** X8: what [scrape_github] returns can be handed to
    [extract_dependencies] as it is: whatever the search does and in
    whatever order the tasks finish, every scraped repository for which a
    package is found has an entry under its own full name, holding exactly
    its own packages, and no other repository's. *)
Theorem scrape_then_extract (search : result feed) (max_repos : Z)
    (out : list (string * list string)) (r : repo) :
  extract_dependencies (scrape_github search max_repos) out →
  r ∈ dict_values (scrape_github search max_repos) →
  combined r ≠ [] →
  ∃ packages,
    dict_get out (full_name r) = Some packages
    ∧ ∀ pkg, pkg ∈ packages ↔ pkg ∈ combined r.
Proof.
  intros (completed & Hperm & ->) Hr Hne.
  exists (list_of_set (combined r)). split.
  - apply collect_results_get; [|by rewrite Hperm|done].
    rewrite Hperm. apply scrape_github_names_NoDup.
  - intros pkg. apply elem_of_list_of_set.
Qed.

(** X9: the matrix built from a result of [extract_dependencies] has no
    row of zeros: every repository that reaches the matrix has a 1 in the
    column of each of its packages, and it has at least one package. *)
Theorem aggregated_rows_nonzero (raw_repos : list (string * repo))
    (repos : list (string * list string)) (i : nat) :
  extract_dependencies raw_repos repos →
  i < num_repos repos →
  ∃ j, j < num_packages repos ∧ entry (feature_matrix repos) i j = 1%Z.
Proof.
  intros Hout Hi.
  assert (Hnd : NoDup (dict_keys repos)).
  { destruct Hout as (completed & _ & ->).
    apply collect_results_NoDup. constructor. }
  unfold num_repos, repo_names, dict_keys in Hi. rewrite length_fmap in Hi.
  apply lookup_lt_is_Some in Hi as [[r pkgs] Hr].
  assert (Hin : (r, pkgs) ∈ repos) by (by apply list_elem_of_lookup_2 in Hr).
  assert (Hne : pkgs ≠ []).
  { destruct Hout as (completed & _ & ->).
    apply collect_results_entries in Hin as [Hin|(r' & _ & Hsome)];
      [by apply elem_of_nil in Hin|].
    rewrite process_repo_spec in Hsome. case_decide; [done|].
    simplify_eq. by rewrite list_of_set_nil. }
  destruct pkgs as [|pkg pkgs]; [done|].
  destruct (package_index_exists repos r pkg (pkg :: pkgs))
    as (j & _ & Hj & Hlt); [done|by left|].
  exists j. split; [done|].
  rewrite (entry_indicator repos i j r pkg); [| |done].
  - rewrite (dict_get_elem repos r (pkg :: pkgs)) by done.
    simpl. rewrite decide_True; [done|by left].
  - unfold repo_names, dict_keys. by rewrite list_lookup_fmap, Hr.
Qed.
End pipeline_facts.

Lemma sample_scrape_extract :
  extract_dependencies (H := sample_libs) (scrape_github (Ok sample_feed) 10)
    (collect_results (H := sample_libs)
       [repo_broken_cfg; repo_no_manifest; repo_two_formats] []).
Proof.
  eexists. split; [|reflexivity]. symmetry.
  apply (Permutation_rev [repo_two_formats; repo_no_manifest; repo_broken_cfg]).
Defined.

Lemma scrape_then_extract_witness :
  ∃ packages,
    dict_get (collect_results (H := sample_libs)
       [repo_broken_cfg; repo_no_manifest; repo_two_formats] [])
      (full_name repo_two_formats) = Some packages
    ∧ ∀ pkg, pkg ∈ packages ↔ pkg ∈ combined (H := sample_libs) repo_two_formats.
Proof.
  apply (scrape_then_extract (H := sample_libs) (Ok sample_feed) 10).
  - apply sample_scrape_extract.
  - by left.
  - by vm_compute.
Defined.

Lemma aggregated_rows_nonzero_witness :
  ∃ j, j < num_packages (collect_results (H := sample_libs)
             [repo_broken_cfg; repo_no_manifest; repo_two_formats] [])
       ∧ entry (feature_matrix (collect_results (H := sample_libs)
             [repo_broken_cfg; repo_no_manifest; repo_two_formats] [])) 1 j
         = 1%Z.
Proof.
  apply (aggregated_rows_nonzero (H := sample_libs) sample_raw_repos).
  - apply sample_extract_dependencies.
  - apply (bool_decide_unpack _). by vm_compute.
Defined.

(** ** Cluster summariser, continued *)


Lemma frequency_app pkg xs ys :
  frequency pkg (xs ++ ys) = frequency pkg xs + frequency pkg ys.
Proof. unfold frequency. by rewrite filter_app, length_app. Qed.

Lemma frequency_NoDup pkg xs :
  NoDup xs → frequency pkg xs = if decide (pkg ∈ xs) then 1 else 0.
Proof.
  induction 1 as [|x xs Hx Hnd IH]; [done|].
  change (x :: xs) with ([x] ++ xs). rewrite frequency_app, IH.
  unfold frequency. rewrite filter_cons. simpl.
  destruct (decide (x = pkg)) as [->|Hne]; simpl.
  - rewrite decide_False by done. by rewrite decide_True by (by left).
  - destruct (decide (pkg ∈ xs)).
    + by rewrite decide_True by (by right).
    + by rewrite decide_False by (by intros [?|?]%elem_of_cons).
Qed.

Lemma elem_of_take_elem {A} (l : list A) n x : x ∈ take n l → x ∈ l.
Proof.
  intros (i & Hi & _)%elem_of_take. by apply list_elem_of_lookup_2 in Hi.
Qed.

Lemma summarise_keys repos items acc :
  NoDup (dict_keys acc) → NoDup (dict_keys (summarise repos items acc)).
Proof.
  revert acc. induction items as [|[l repo_list] items IH]; intros acc Hnd.
  - done.
  - simpl. by apply IH, NoDup_dict_keys_set.
Qed.

(** What the summary holds under a label it has. *)
Lemma cluster_top_packages_elem repos labels label top :
  (label, top) ∈ cluster_top_packages repos labels →
  label_members repos labels label ≠ []
  ∧ top = most_common 10
            (Counter (cluster_packages repos
                        (label_members repos labels label))).
Proof.
  intros Hin.
  assert (Hget : dict_get (cluster_top_packages repos labels) label = Some top).
  { apply dict_get_elem; [|done]. apply summarise_keys. constructor. }
  unfold cluster_top_packages in Hget.
  rewrite summarise_get in Hget by (apply group_repos_keys; constructor).
  rewrite group_repos_get in Hget. cbn [dict_get default app] in Hget.
  cbv zeta in Hget. fold (label_members repos labels label) in Hget.
  destruct (label_members repos labels label); [done|].
  split; [done|]. by simplify_eq.
Qed.


Lemma cluster_packages_frequency repos members pkg :
  (∀ r pkgs, dict_get repos r = Some pkgs → NoDup pkgs) →
  frequency pkg (cluster_packages repos members)
  = length (filter (λ r, pkg ∈ default [] (dict_get repos r)) members).
Proof.
  intros Hnd. unfold cluster_packages.
  induction members as [|r members IH]; [done|].
  rewrite fmap_cons, filter_cons. simpl. rewrite frequency_app, IH.
  rewrite frequency_NoDup.
  - by destruct (decide (pkg ∈ default [] (dict_get repos r))).
  - destruct (dict_get repos r) as [pkgs|] eqn:E; simpl; [eauto|constructor].
Qed.

(** X11: when no package list of the mapping has a duplicate, as in a
    result of the aggregator, the frequency the summary reports for a
    package is the number of member repositories of the cluster whose
    list has the package. *)
Theorem summary_counts_repositories (repos : list (string * list string))
    (labels : list nat) (label : nat) (top : list (string * nat))
    (pkg : string) (n : nat) :
  (∀ r pkgs, dict_get repos r = Some pkgs → NoDup pkgs) →
  (label, top) ∈ cluster_top_packages repos labels →
  (pkg, n) ∈ top →
  n = length (filter (λ r, pkg ∈ default [] (dict_get repos r))
                (label_members repos labels label)).
Proof.
  intros Hnd (_ & ->)%cluster_top_packages_elem Hin.
  rewrite <- (cluster_packages_frequency repos _ pkg Hnd).
  unfold most_common in Hin.
  assert (Hin' : (pkg, n) ∈ by_first_encounter
      (cluster_packages repos (label_members repos labels label))).
  { rewrite <- Counter_by_first_encounter, <- sorted_by_count_Permutation.
    by eapply elem_of_take_elem. }
  unfold by_first_encounter in Hin'.
  by apply list_elem_of_fmap in Hin' as (p & [= -> ->] & _).
Qed.


Lemma summary_counts_repositories_witness :
  2 = length (filter (λ r, "b" ∈ default [] (dict_get repos_abc r))
                (label_members repos_abc [0; 0; 1] 0)).
Proof.
  apply (summary_counts_repositories repos_abc [0; 0; 1] 0
           [("a", 2); ("b", 2)] "b" 2).
  - intros r pkgs Hget. apply dict_get_Some_elem in Hget.
    repeat (apply elem_of_cons in Hget as [Hget|Hget];
            [simplify_eq; apply (bool_decide_unpack _); by vm_compute|]).
    by apply elem_of_nil in Hget.
  - by left.
  - right. by left.
Defined.

(** ** Cluster count selector, continued *)

Lemma zip_fmap_r {A B} (f : A → B) (l : list A) :
  zip l (f <$> l) = (λ x, (x, f x)) <$> l.
Proof. induction l as [|x l IH]; csimpl; by f_equal. Qed.

Section elbow_facts.
Context `{ClusterLib}.
Variable X : list (list Z).
Variable entropy : Z.

Lemma elbow_loop_values (fits : nat → fitted) k_values sse log :
  (∀ k, k ∈ k_values → kmeans_fit k (Some 42%Z) entropy X = Ok (fits k)) →
  elbow_loop X entropy k_values sse log
  = (log ++ ((λ k, Fit k 42 true) <$> k_values),
     Ok (sse ++ ((λ k, inertia_ (fits k)) <$> k_values))).
Proof.
  revert sse log.
  induction k_values as [|k k_values IH]; intros sse log Hfit; csimpl.
  - by rewrite !app_nil_r.
  - rewrite (Hfit k) by (by left).
    rewrite IH by (by intros ??; apply Hfit; right).
    by rewrite <- !app_assoc.
Qed.

(** X12: when the library fits every k from 1 to [max_k], the elbow
    method calls it once for each of them, in increasing order, and plots
    one point per k: k against the inertia of the fit for that k.  For
    [max_k] = 0 it calls nothing and plots nothing. *)
Theorem elbow_method_points (max_k : nat) (log : list event)
    (fits : nat → fitted) :
  (∀ k, 1 ≤ k ≤ max_k → kmeans_fit k (Some 42%Z) entropy X = Ok (fits k)) →
  elbow_method X entropy max_k log
  = (log ++ ((λ k, Fit k 42 true) <$> seq 1 max_k),
     Ok ((λ k, (k, inertia_ (fits k))) <$> seq 1 max_k)).
Proof.
  intros Hfit. unfold elbow_method.
  rewrite (elbow_loop_values fits).
  - cbn [mbind result_bind app]. by rewrite zip_fmap_r.
  - intros k Hk%elem_of_seq. apply Hfit. lia.
Qed.
End elbow_facts.

Lemma elbow_method_points_witness :
  elbow_method (H := sample_cluster_lib) X_abc 0 3 []
  = ([] ++ ((λ k, Fit k 42 true) <$> seq 1 3),
     Ok ((λ k, (k, inertia_ (sample_fits k))) <$> seq 1 3)).
Proof.
  apply (elbow_method_points (H := sample_cluster_lib) X_abc 0 3 [] sample_fits).
  intros k Hk.
  destruct k as [|[|[|[|k]]]]; [lia|by vm_compute..|lia].
Defined.

(** ** Dependency normaliser, continued *)

Lemma normalise_all_cons dep deps :
  normalise_all (dep :: deps)
  = (if nonempty (strip (before_comparator dep))
     then [lower (strip (before_comparator dep))] else [])
    ++ normalise_all deps.
Proof.
  unfold normalise_all. rewrite !fmap_cons, filter_cons.
  set (pkg := strip (before_comparator dep)).
  assert (Hn : nonempty (lower pkg) = nonempty pkg)
    by (unfold nonempty; by rewrite is_empty_lower).
  case_decide as Hd; rewrite Hn in Hd; destruct (nonempty pkg); naive_solver.
Qed.

Section normaliser_more.
Context `{ParserLibs}.

(** X13: of the names [extract_from_file] can be given, only [setup.cfg]
    can make it raise; for every other name, also one that matches no
    format and falls back to the line-oriented parser, it returns a list
    whatever the text and the libraries do. *)
Theorem extract_from_file_raises_only_setup_cfg (file_name text : string) :
  file_name ≠ "setup.cfg" →
  ∃ packages, extract_from_file file_name text = Ok packages.
Proof.
  intros Hname. unfold extract_from_file.
  destruct (endswith "requirements.txt" file_name); [eauto|].
  destruct (String.eqb file_name "setup.py").
  { unfold extract_packages_from_setup_py.
    destruct (search_install_requires text); [apply try_except_total|eauto]. }
  apply String.eqb_neq in Hname. rewrite Hname.
  destruct (endswith "pyproject.toml" file_name); [|eauto].
  apply try_except_total.
Qed.

Lemma setup_py_loop_strings deps packages :
  setup_py_loop (LStr <$> deps) packages = Ok (packages ++ normalise_all deps).
Proof.
  revert packages. induction deps as [|dep deps IH]; intros packages.
  - simpl. by rewrite app_nil_r.
  - rewrite fmap_cons, normalise_all_cons.
    cbn [setup_py_loop pylit_before_comparator mbind result_bind]. cbv zeta.
    unfold nonempty. rewrite is_empty_lower.
    destruct (is_empty (strip (before_comparator dep))); cbn [negb];
      rewrite IH; by rewrite <- ?app_assoc.
Qed.

Lemma setup_py_loop_not_string items packages item :
  item ∈ items → (∀ s, item ≠ LStr s) →
  ∃ e, setup_py_loop items packages = Raise e.
Proof.
  intros Hin Hitem. revert packages.
  induction items as [|dep items IH]; intros packages;
    [by apply elem_of_nil in Hin|].
  apply elem_of_cons in Hin as [<-|Hin].
  - destruct item; try (by eexists); by destruct (Hitem s).
  - cbn [setup_py_loop]. destruct dep; try (by eexists).
    cbn [pylit_before_comparator mbind result_bind]. cbv zeta.
    destruct (negb _); by apply IH.
Qed.

(** X14: when the pattern finds a list in a [setup.py] and the list is a
    literal list of strings, the parser returns its elements truncated at
    the first comparator, trimmed and lower-cased, without those that
    became empty; one element that is not a string loses the whole list,
    not the element alone. *)
Theorem setup_py_literal_list (text list_str : string) :
  search_install_requires text = Some list_str →
  (∀ deps, literal_eval list_str = Ok (LList (LStr <$> deps)) →
           extract_packages_from_setup_py text = Ok (normalise_all deps))
  ∧ (∀ items item,
       literal_eval list_str = Ok (LList items) →
       item ∈ items → (∀ s, item ≠ LStr s) →
       extract_packages_from_setup_py text = Ok []).
Proof.
  intros Hfound. unfold extract_packages_from_setup_py. rewrite Hfound. split.
  - intros deps ->. cbn [mbind result_bind pylit_iter].
    by rewrite setup_py_loop_strings.
  - intros items item -> Hin Hitem. cbn [mbind result_bind pylit_iter].
    by destruct (setup_py_loop_not_string items [] item Hin Hitem) as [e ->].
Qed.

Lemma setup_cfg_loop_lines lines packages :
  setup_cfg_loop lines packages
  = packages
    ++ normalise_all
         (filter (λ line, nonempty line ∧ ¬ startswith "#" line)
            (strip <$> lines)).
Proof.
  revert packages. induction lines as [|line lines IH]; intros packages.
  - simpl. by rewrite app_nil_r.
  - rewrite fmap_cons, filter_cons. cbn [setup_cfg_loop]. cbv zeta.
    case_decide as Hd.
    + destruct Hd as [Hne Hnh]. unfold nonempty in Hne.
      destruct (is_empty (strip line)); [done|].
      destruct (startswith "#" (strip line)); [by destruct Hnh|].
      cbn [negb andb]. rewrite normalise_all_cons. unfold nonempty.
      destruct (is_empty (strip (before_comparator (strip line))));
        cbn [negb]; rewrite IH; by rewrite <- ?app_assoc.
    + unfold nonempty in Hd.
      destruct (is_empty (strip line)); [apply IH|].
      destruct (startswith "#" (strip line)); [apply IH|].
      destruct Hd. split; [done|by intros ?].
Qed.

(** X15: when the configuration parser accepts a [setup.cfg], the parser
    returns nothing if section [options] has no [install_requires];
    otherwise it returns the lines of that value, trimmed, without the
    blank ones and those starting with [#], each truncated at the first
    comparator, trimmed and lower-cased.  Unlike the line-oriented parser
    it keeps lines starting with [-] and strips no inline comment. *)
Theorem setup_cfg_lines (text : string) (cfg : config) :
  read_string text = Ok cfg →
  (has_option cfg "options" "install_requires" = false →
   extract_packages_from_setup_cfg text = Ok [])
  ∧ (∀ deps_str,
       has_option cfg "options" "install_requires" = true →
       config_get cfg "options" "install_requires" = Ok deps_str →
       extract_packages_from_setup_cfg text
       = Ok (normalise_all
               (filter (λ line, nonempty line ∧ ¬ startswith "#" line)
                  (strip <$> splitlines deps_str)))).
Proof.
  intros Hread. unfold extract_packages_from_setup_cfg. rewrite Hread.
  cbn [mbind result_bind]. split.
  - by intros ->.
  - intros deps_str -> ->. cbn [mbind result_bind].
    by rewrite setup_cfg_loop_lines.
Qed.
End normaliser_more.

Example setup_cfg_keeps_options :
  setup_cfg_loop ["-e pkg  # local"] [] = ["-e pkg  # local"]
  ∧ requirements_loop ["-e pkg  # local"] [] = [].
Proof. split; reflexivity. Qed.

Lemma extract_from_file_raises_only_setup_cfg_witness :
  ∃ packages,
    extract_from_file (H := sample_libs) "notes.txt" "Flask>=1.0" = Ok packages.
Proof.
  apply (extract_from_file_raises_only_setup_cfg (H := sample_libs)).
  by vm_compute.
Defined.

Lemma setup_py_literal_list_witness :
  (∀ deps,
     literal_eval (ParserLibs := sample_libs) "['Flask>=1.0', 'Requests']"
     = Ok (LList (LStr <$> deps)) →
     extract_packages_from_setup_py (H := sample_libs) sample_setup_py
     = Ok (normalise_all deps))
  ∧ (∀ items item,
       literal_eval (ParserLibs := sample_libs) "['Flask>=1.0', 'Requests']"
       = Ok (LList items) →
       item ∈ items → (∀ s, item ≠ LStr s) →
       extract_packages_from_setup_py (H := sample_libs) sample_setup_py
       = Ok []).
Proof.
  apply (setup_py_literal_list (H := sample_libs) sample_setup_py).
  reflexivity.
Defined.

Lemma setup_cfg_lines_witness :
  (has_option (ParserLibs := sample_libs)
     [("options", [("install_requires",
                    newline +:+ "attrs>=19" +:+ newline +:+ "Click")])]
     "options" "install_requires" = false →
   extract_packages_from_setup_cfg (H := sample_libs) sample_setup_cfg = Ok [])
  ∧ (∀ deps_str,
       has_option (ParserLibs := sample_libs)
         [("options", [("install_requires",
                        newline +:+ "attrs>=19" +:+ newline +:+ "Click")])]
         "options" "install_requires" = true →
       config_get (ParserLibs := sample_libs)
         [("options", [("install_requires",
                        newline +:+ "attrs>=19" +:+ newline +:+ "Click")])]
         "options" "install_requires" = Ok deps_str →
       extract_packages_from_setup_cfg (H := sample_libs) sample_setup_cfg
       = Ok (normalise_all
               (filter (λ line, nonempty line ∧ ¬ startswith "#" line)
                  (strip <$> splitlines deps_str)))).
Proof.
  apply (setup_cfg_lines (H := sample_libs) sample_setup_cfg).
  reflexivity.
Defined.

(** ** The pattern of the [setup.py] parser *)

Lemma bracket_body_closed s body :
  bracket_body s = Some body → contains "]" body = false.
Proof.
  revert body. induction s as [|c s IH]; intros body; cbn [bracket_body];
    [done|].
  destruct (Ascii.eqb c "]") eqn:Ec.
  - by intros [= <-].
  - destruct (bracket_body s) as [b|]; [|done]. intros [= <-].
    cbn [contains startswith]. rewrite Ascii.eqb_sym, Ec. by apply IH.
Qed.

Lemma strip_prefix_startswith p s rest :
  strip_prefix p s = Some rest → startswith p s = true.
Proof.
  revert s. induction p as [|a p IH]; intros [|b s]; simpl; try done.
  destruct (Ascii.eqb a b); [apply IH|done].
Qed.

Lemma contains_suffix p c s : contains p s = true → contains p (String c s) = true.
Proof. intros Hs. simpl. rewrite Hs. by destruct (startswith p (String c s)). Qed.

(** X16: the text the [setup.py] parser hands to [literal_eval] is a
    bracketed piece of the file that comes after the word
    [install_requires]: it opens with a bracket, ends at the first closing
    bracket after it and has no other closing bracket, so a list that
    contains one, as in a requirement with extras, is cut short there. *)
Theorem install_requires_group (text list_str : string) :
  search_install_requires text = Some list_str →
  contains "install_requires" text = true
  ∧ ∃ body, list_str = "[" +:+ body +:+ "]" ∧ contains "]" body = false.
Proof.
  induction text as [|c text IH].
  - simpl. done.
  - cbn [search_install_requires].
    destruct (match_install_requires (String c text)) as [g|] eqn:Hm.
    + intros [= <-]. unfold match_install_requires in Hm.
      destruct (strip_prefix "install_requires" (String c text)) as [s1|] eqn:H1;
        [|done]. cbn [mbind option_bind] in Hm.
      destruct (expect "=" (lstrip s1)) as [s2|]; [|done].
      cbn [mbind option_bind] in Hm.
      destruct (expect "[" (lstrip s2)) as [s3|]; [|done].
      cbn [mbind option_bind] in Hm.
      destruct (bracket_body s3) as [b|] eqn:Hb; [|done].
      cbn [mbind option_bind] in Hm. simplify_eq. split.
      * apply strip_prefix_startswith in H1.
        cbn [contains]. by rewrite H1.
      * exists b. split; [done|]. by apply bracket_body_closed in Hb.
    + intros Hrest. destruct (IH Hrest) as [Hc Hbody]. split; [|done].
      by apply contains_suffix.
Qed.

Lemma install_requires_group_witness :
  contains "install_requires" sample_setup_py = true
  ∧ ∃ body, "['Flask>=1.0', 'Requests']" = "[" +:+ body +:+ "]"
            ∧ contains "]" body = false.
Proof.
  apply (install_requires_group sample_setup_py).
  reflexivity.
Defined.

(** A requirement with extras ends the match early. *)
Example install_requires_with_extras :
  search_install_requires "install_requires=['requests[security]', 'six']"
  = Some "['requests[security]".
Proof. reflexivity. Qed.

(** ** Normalised package names *)

Lemma lower_char_space c : isspace (lower_char c) = isspace c.
Proof. by destruct c as [[] [] [] [] [] [] [] []]. Qed.

Lemma lower_char_comparator c : is_comparator (lower_char c) = is_comparator c.
Proof. by destruct c as [[] [] [] [] [] [] [] []]. Qed.

Lemma lower_char_linebreak c : is_linebreak (lower_char c) = is_linebreak c.
Proof. by destruct c as [[] [] [] [] [] [] [] []]. Qed.

Lemma lower_char_fixed c : lower_char (lower_char c) = lower_char c.
Proof. by destruct c as [[] [] [] [] [] [] [] []]. Qed.

Lemma lower_char_hash c : Ascii.eqb "#" (lower_char c) = Ascii.eqb "#" c.
Proof. by destruct c as [[] [] [] [] [] [] [] []]. Qed.

Lemma lower_char_dash c : Ascii.eqb "-" (lower_char c) = Ascii.eqb "-" c.
Proof. by destruct c as [[] [] [] [] [] [] [] []]. Qed.

Lemma lower_fixed s : lower (lower s) = lower s.
Proof.
  induction s as [|c s IH]; [done|].
  cbn [lower]. by rewrite lower_char_fixed, IH.
Qed.

Lemma lstrip_lower s : lstrip (lower s) = lower (lstrip s).
Proof.
  induction s as [|c s IH]; [done|].
  cbn [lower lstrip]. rewrite lower_char_space.
  by destruct (isspace c).
Qed.

Lemma rstrip_lower s : rstrip (lower s) = lower (rstrip s).
Proof.
  induction s as [|c s IH]; [done|].
  cbn [lower rstrip]. cbv zeta. rewrite lower_char_space, IH, is_empty_lower.
  by destruct (isspace c && is_empty (rstrip s)).
Qed.

Lemma strip_lower s : strip (lower s) = lower (strip s).
Proof. unfold strip. by rewrite lstrip_lower, rstrip_lower. Qed.

Lemma before_comparator_lower s :
  before_comparator (lower s) = lower (before_comparator s).
Proof.
  induction s as [|c s IH]; [done|].
  cbn [lower before_comparator]. rewrite lower_char_comparator, IH.
  by destruct (is_comparator c).
Qed.

(** Strings without a comparator. *)
Lemma before_comparator_fixed_iff s :
  before_comparator s = s ↔ all_chars not_comparator s = true.
Proof.
  induction s as [|c s IH]; [done|].
  cbn [before_comparator all_chars]. unfold not_comparator at 1.
  destruct (is_comparator c); cbn [negb andb]; [done|].
  rewrite <- IH. split; [by intros [= ->]|by intros ->].
Qed.

Lemma all_chars_before_comparator P s :
  all_chars P s = true → all_chars P (before_comparator s) = true.
Proof.
  induction s as [|c s IH]; [done|]. cbn [before_comparator all_chars].
  intros [Hc Hs]%andb_prop. destruct (is_comparator c); [done|].
  cbn [all_chars]. by rewrite Hc, IH.
Qed.

Lemma before_comparator_clean s :
  all_chars not_comparator (before_comparator s) = true.
Proof.
  induction s as [|c s IH]; [done|]. cbn [before_comparator].
  destruct (is_comparator c) eqn:E; [done|].
  cbn [all_chars]. unfold not_comparator at 1. by rewrite E, IH.
Qed.

Lemma all_chars_lstrip P s :
  all_chars P s = true → all_chars P (lstrip s) = true.
Proof.
  induction s as [|c s IH]; [done|]. cbn [lstrip].
  destruct (isspace c); [|done]. cbn [all_chars].
  intros [_ Hs]%andb_prop. by apply IH.
Qed.

Lemma all_chars_rstrip P s :
  all_chars P s = true → all_chars P (rstrip s) = true.
Proof.
  induction s as [|c s IH]; [done|]. cbn [rstrip all_chars]. cbv zeta.
  intros [Hc Hs]%andb_prop.
  destruct (isspace c && is_empty (rstrip s)); [done|].
  cbn [all_chars]. by rewrite Hc, IH.
Qed.

Lemma all_chars_strip P s :
  all_chars P s = true → all_chars P (strip s) = true.
Proof. intros Hs. by apply all_chars_rstrip, all_chars_lstrip. Qed.

Lemma all_chars_lower P s :
  (∀ c, P (lower_char c) = P c) →
  all_chars P (lower s) = all_chars P s.
Proof.
  intros HP. induction s as [|c s IH]; [done|].
  cbn [lower all_chars]. by rewrite HP, IH.
Qed.

Lemma not_comparator_lower c : not_comparator (lower_char c) = not_comparator c.
Proof. unfold not_comparator. by rewrite lower_char_comparator. Qed.

Lemma not_linebreak_lower c : not_linebreak (lower_char c) = not_linebreak c.
Proof. unfold not_linebreak. by rewrite lower_char_linebreak. Qed.

(** The name made of a requirement is a fixed point of every step that
    made it. *)
Lemma normalised_token dep :
  let pkg := lower (strip (before_comparator dep)) in
  before_comparator pkg = pkg ∧ strip pkg = pkg ∧ lower pkg = pkg.
Proof.
  cbv zeta. split_and!.
  - apply before_comparator_fixed_iff.
    rewrite all_chars_lower by apply not_comparator_lower.
    apply all_chars_strip, before_comparator_clean.
  - by rewrite strip_lower, strip_fixed.
  - apply lower_fixed.
Qed.

Lemma normalise_all_elem deps pkg :
  pkg ∈ normalise_all deps →
  nonempty pkg = true
  ∧ ∃ dep, dep ∈ deps ∧ pkg = lower (strip (before_comparator dep)).
Proof.
  induction deps as [|dep deps IH]; [by intros ?%elem_of_nil|].
  rewrite normalise_all_cons, elem_of_app. intros [Hin|Hin].
  - destruct (nonempty (strip (before_comparator dep))) eqn:E;
      [|by apply elem_of_nil in Hin].
    apply list_elem_of_singleton in Hin as ->. split.
    + unfold nonempty in *. by rewrite is_empty_lower.
    + exists dep. split; [by left|done].
  - destruct (IH Hin) as (Hne & dep' & Hdep & ->). split; [done|].
    exists dep'. split; [by right|done].
Qed.

Lemma normalise_all_fixed deps :
  normalise_all (normalise_all deps) = normalise_all deps.
Proof.
  induction deps as [|dep deps IH]; [done|].
  rewrite normalise_all_cons.
  destruct (nonempty (strip (before_comparator dep))) eqn:E; [|done].
  cbn [app]. rewrite normalise_all_cons, IH.
  destruct (normalised_token dep) as (Hb & Hs & Hl).
  rewrite Hb, Hs, Hl. unfold nonempty in *. by rewrite is_empty_lower, E.
Qed.

(** X17: the loops of the [setup.py] and of the [pyproject] parser give
    the same names for one list of strings; each name is not empty, has no
    comparator and no white space around it and is in lower case; and a
    list of names they returned, given to them again, comes back
    unchanged. *)
Theorem normalised_names_are_fixed (deps packages : list string) :
  setup_py_loop (LStr <$> deps) [] = Ok packages →
  pyproject_loop (TStr <$> deps) [] = Ok packages
  ∧ (∀ pkg, pkg ∈ packages →
       nonempty pkg = true
       ∧ all_chars not_comparator pkg = true
       ∧ strip pkg = pkg
       ∧ lower pkg = pkg)
  ∧ setup_py_loop (LStr <$> packages) [] = Ok packages
  ∧ pyproject_loop (TStr <$> packages) [] = Ok packages.
Proof.
  rewrite setup_py_loop_strings. intros [= <-]. split_and!.
  - by rewrite pyproject_loop_strings.
  - intros pkg (Hne & dep & _ & ->)%normalise_all_elem.
    destruct (normalised_token dep) as (Hb & Hs & Hl).
    split_and!; [done| |done..]. by apply before_comparator_fixed_iff.
  - by rewrite setup_py_loop_strings, normalise_all_fixed.
  - by rewrite pyproject_loop_strings, normalise_all_fixed.
Qed.

Lemma normalised_names_are_fixed_witness :
  pyproject_loop (TStr <$> ["Flask >= 2.0"; "NumPy"; "=="]) []
  = Ok ["flask"; "numpy"]
  ∧ (∀ pkg, pkg ∈ ["flask"; "numpy"] →
       nonempty pkg = true
       ∧ all_chars not_comparator pkg = true
       ∧ strip pkg = pkg
       ∧ lower pkg = pkg)
  ∧ setup_py_loop (LStr <$> ["flask"; "numpy"]) [] = Ok ["flask"; "numpy"]
  ∧ pyproject_loop (TStr <$> ["flask"; "numpy"]) [] = Ok ["flask"; "numpy"].
Proof.
  apply (normalised_names_are_fixed ["Flask >= 2.0"; "NumPy"; "=="]).
  reflexivity.
Defined.

(** ** The line-oriented parser on its own output *)

(** Text that a comment cut leaves as it is. *)
Lemma hash_after_before_comment s :
  startswith "#" (lstrip (before_comment s)) = true →
  startswith "#" (lstrip s) = true.
Proof.
  induction s as [|c s IH]; [done|].
  cbn [before_comment]. destruct (at_space_hash (String c s)); [done|].
  cbn [lstrip]. destruct (isspace c); [apply IH|done].
Qed.

Lemma before_comment_fixed s : before_comment (before_comment s) = before_comment s.
Proof.
  induction s as [|c s IH]; [done|].
  cbn [before_comment].
  destruct (at_space_hash (String c s)) eqn:E; [done|].
  cbn [before_comment]. rewrite IH.
  replace (at_space_hash (String c (before_comment s))) with false; [done|].
  symmetry. cbn [at_space_hash] in *.
  destruct (isspace c); [|done]. cbn [andb] in *.
  destruct (startswith "#" (lstrip (before_comment s))) eqn:E2; [|done].
  apply hash_after_before_comment in E2. congruence.
Qed.

Lemma hash_after_before_comparator s :
  startswith "#" (lstrip (before_comparator s)) = true →
  startswith "#" (lstrip s) = true.
Proof.
  induction s as [|c s IH]; [done|].
  cbn [before_comparator]. destruct (is_comparator c); [done|].
  cbn [lstrip]. destruct (isspace c); [apply IH|done].
Qed.

Lemma hash_after_rstrip s :
  startswith "#" (lstrip (rstrip s)) = true →
  startswith "#" (lstrip s) = true.
Proof.
  induction s as [|c s IH]; [done|].
  cbn [rstrip]. cbv zeta.
  destruct (isspace c && is_empty (rstrip s)); [done|].
  cbn [lstrip]. destruct (isspace c); [apply IH|done].
Qed.

Lemma before_comment_before_comparator s :
  before_comment s = s →
  before_comment (before_comparator s) = before_comparator s.
Proof.
  induction s as [|c s IH]; [done|].
  cbn [before_comment]. destruct (at_space_hash (String c s)) eqn:E; [done|].
  intros [= Hs]. cbn [before_comparator].
  destruct (is_comparator c); [done|].
  cbn [before_comment]. rewrite IH by done.
  replace (at_space_hash (String c (before_comparator s))) with false; [done|].
  symmetry. cbn [at_space_hash] in *.
  destruct (isspace c); [|done]. cbn [andb] in *.
  destruct (startswith "#" (lstrip (before_comparator s))) eqn:E2; [|done].
  apply hash_after_before_comparator in E2. congruence.
Qed.

Lemma before_comment_lstrip s :
  before_comment s = s → before_comment (lstrip s) = lstrip s.
Proof.
  induction s as [|c s IH]; [done|].
  cbn [lstrip]. destruct (isspace c); [|done].
  cbn [before_comment]. destruct (at_space_hash (String c s)); [done|].
  intros [= Hs]. by apply IH.
Qed.

Lemma before_comment_rstrip s :
  before_comment s = s → before_comment (rstrip s) = rstrip s.
Proof.
  induction s as [|c s IH]; [done|].
  cbn [before_comment]. destruct (at_space_hash (String c s)) eqn:E; [done|].
  intros [= Hs]. cbn [rstrip]. cbv zeta.
  destruct (isspace c && is_empty (rstrip s)); [done|].
  cbn [before_comment]. rewrite IH by done.
  replace (at_space_hash (String c (rstrip s))) with false; [done|].
  symmetry. cbn [at_space_hash] in *.
  destruct (isspace c); [|done]. cbn [andb] in *.
  destruct (startswith "#" (lstrip (rstrip s))) eqn:E2; [|done].
  apply hash_after_rstrip in E2. congruence.
Qed.

Lemma startswith_hash_lower s : startswith "#" (lower s) = startswith "#" s.
Proof.
  destruct s as [|c s]; [done|]. cbn [lower startswith].
  by rewrite lower_char_hash.
Qed.

Lemma startswith_dash_lower s : startswith "-" (lower s) = startswith "-" s.
Proof.
  destruct s as [|c s]; [done|]. cbn [lower startswith].
  by rewrite lower_char_dash.
Qed.

Lemma at_space_hash_lower s : at_space_hash (lower s) = at_space_hash s.
Proof.
  destruct s as [|c s]; [done|]. cbn [lower at_space_hash].
  by rewrite lower_char_space, lstrip_lower, startswith_hash_lower.
Qed.

Lemma before_comment_unfold s :
  before_comment s
  = if at_space_hash s then EmptyString
    else match s with
         | EmptyString => EmptyString
         | String c s' => String c (before_comment s')
         end.
Proof. by destruct s. Qed.

Lemma before_comment_lower s :
  before_comment (lower s) = lower (before_comment s).
Proof.
  induction s as [|c s IH]; [done|].
  rewrite (before_comment_unfold (lower (String c s))).
  rewrite at_space_hash_lower. cbn [before_comment lower].
  destruct (at_space_hash (String c s)); [done|].
  cbn [lower]. by rewrite IH.
Qed.

(** The first character through the steps. *)
Lemma startswith_hash_head s :
  startswith "#" s = head_is (Ascii.eqb "#") s.
Proof.
  destruct s as [|c s]; [done|]. cbn [startswith head_is].
  by destruct (Ascii.eqb "#" c).
Qed.

Lemma startswith_dash_head s :
  startswith "-" s = head_is (Ascii.eqb "-") s.
Proof.
  destruct s as [|c s]; [done|]. cbn [startswith head_is].
  by destruct (Ascii.eqb "-" c).
Qed.

Lemma head_lstrip s : head_is isspace (lstrip s) = false.
Proof.
  induction s as [|c s IH]; [done|]. cbn [lstrip].
  destruct (isspace c) eqn:E; [done|]. cbn [head_is]. done.
Qed.

Lemma head_rstrip P s : head_is isspace s = false →
  head_is P (rstrip s) = head_is P s.
Proof.
  destruct s as [|c s]; [done|]. cbn [head_is rstrip]. cbv zeta.
  by intros ->.
Qed.

Lemma head_strip_space s : head_is isspace (strip s) = false.
Proof.
  unfold strip. rewrite head_rstrip by apply head_lstrip. apply head_lstrip.
Qed.

Lemma lstrip_plain s : head_is isspace s = false → lstrip s = s.
Proof. destruct s as [|c s]; [done|]. cbn [head_is lstrip]. by intros ->. Qed.

Lemma plain_head_space s : head_is plain_head s = true → head_is isspace s = false.
Proof.
  destruct s as [|c s]; [done|]. cbn [head_is]. unfold plain_head.
  by destruct (isspace c).
Qed.

Lemma plain_head_strip s :
  head_is plain_head s = true → head_is plain_head (strip s) = true.
Proof.
  intros Hs. unfold strip.
  rewrite (lstrip_plain s) by (by apply plain_head_space).
  by rewrite head_rstrip by (by apply plain_head_space).
Qed.

Lemma plain_head_before_comment s :
  head_is plain_head s = true → head_is plain_head (before_comment s) = true.
Proof.
  destruct s as [|c s]; [done|]. cbn [head_is]. intros Hc.
  cbn [before_comment at_space_hash].
  assert (isspace c = false) as -> by (unfold plain_head in Hc; by destruct (isspace c)).
  done.
Qed.

Lemma plain_head_before_comparator s :
  head_is plain_head s = true →
  before_comparator s = EmptyString
  ∨ head_is plain_head (before_comparator s) = true.
Proof.
  destruct s as [|c s]; [done|]. cbn [head_is before_comparator]. intros Hc.
  destruct (is_comparator c); [by left|by right].
Qed.

Lemma plain_head_lower s :
  head_is plain_head (lower s) = head_is plain_head s.
Proof.
  destruct s as [|c s]; [done|]. cbn [lower head_is]. unfold plain_head.
  by rewrite lower_char_space, lower_char_hash, lower_char_dash.
Qed.

(** A line that is read and not skipped has a plain first character. *)
Lemma not_skipped_plain_head line :
  skipped_line (strip line) = false → head_is plain_head (strip line) = true.
Proof.
  unfold skipped_line. rewrite strip_fixed.
  rewrite startswith_hash_head, startswith_dash_head.
  pose proof (head_strip_space line) as Hsp.
  destruct (strip line) as [|c s]; [done|].
  cbn [is_empty head_is orb] in *. unfold plain_head. rewrite Hsp.
  by destruct (Ascii.eqb "#" c), (Ascii.eqb "-" c).
Qed.

Lemma plain_head_not_skipped s :
  head_is plain_head s = true → strip s = s → skipped_line s = false.
Proof.
  intros Hs Hstrip. unfold skipped_line. rewrite Hstrip.
  rewrite startswith_hash_head, startswith_dash_head.
  destruct s as [|c s]; [done|]. cbn [is_empty head_is orb] in *.
  unfold plain_head in Hs.
  by destruct (isspace c), (Ascii.eqb "#" c), (Ascii.eqb "-" c).
Qed.

(** Lines have no line boundary inside. *)
Lemma all_chars_before_comment P s :
  all_chars P s = true → all_chars P (before_comment s) = true.
Proof.
  induction s as [|c s IH]; [done|]. cbn [before_comment].
  destruct (at_space_hash (String c s)); [done|].
  cbn [all_chars]. intros [Hc Hs]%andb_prop. by rewrite Hc, IH.
Qed.

Lemma string_app_cons c (s t : string) : String c s +:+ t = String c (s +:+ t).
Proof. reflexivity. Qed.

Lemma string_app_assoc (s t u : string) : (s +:+ t) +:+ u = s +:+ (t +:+ u).
Proof.
  induction s as [|c s IH]; [done|]. by rewrite !string_app_cons, IH.
Qed.

Lemma string_app_nil_r (s : string) : s +:+ "" = s.
Proof. induction s as [|c s IH]; [done|]. by rewrite string_app_cons, IH. Qed.

Lemma rev_string_app acc s :
  rev_string acc s = rev_string "" s +:+ acc.
Proof.
  revert acc. induction s as [|c s IH]; intros acc; [done|].
  cbn [rev_string]. rewrite (IH (String c acc)), (IH (String c "")).
  by rewrite string_app_assoc.
Qed.

Lemma all_chars_app P s t :
  all_chars P (s +:+ t) = all_chars P s && all_chars P t.
Proof.
  induction s as [|c s IH]; [done|]. rewrite string_app_cons.
  cbn [all_chars]. rewrite IH. by destruct (P c).
Qed.

Lemma all_chars_rev_string P s :
  all_chars P (rev_string "" s) = all_chars P s.
Proof.
  induction s as [|c s IH]; [done|]. cbn [rev_string].
  rewrite rev_string_app, all_chars_app, IH. cbn [all_chars].
  by destruct (P c), (all_chars P s).
Qed.

Lemma splitlines_from_lines n s cur :
  String.length s ≤ n →
  all_chars not_linebreak cur = true →
  Forall (λ line, all_chars not_linebreak line = true) (splitlines_from cur s).
Proof.
  revert s cur. induction n as [|n IH]; intros s cur Hlen Hcur.
  - destruct s; [|simpl in Hlen; lia]. cbn [splitlines_from].
    destruct (is_empty cur); [constructor|].
    repeat constructor. by rewrite all_chars_rev_string.
  - destruct s as [|c rest].
    { cbn [splitlines_from]. destruct (is_empty cur); [constructor|].
      repeat constructor. by rewrite all_chars_rev_string. }
    cbn [splitlines_from]. cbn [String.length] in Hlen.
    destruct (is_linebreak c) eqn:Ec.
    + constructor; [by rewrite all_chars_rev_string|].
      destruct rest as [|d rest']; [by apply IH; [simpl; lia|]|].
      cbn [String.length] in Hlen.
      destruct ((code c =? 13)%N && (code d =? 10)%N);
        apply IH; cbn [String.length]; try done; lia.
    + apply IH; [lia|]. cbn [all_chars]. unfold not_linebreak at 1.
      by rewrite Ec, Hcur.
Qed.

Lemma splitlines_lines text :
  Forall (λ line, all_chars not_linebreak line = true) (splitlines text).
Proof. by apply (splitlines_from_lines (String.length text)). Qed.

Lemma is_empty_app s t : is_empty (s +:+ t) = is_empty s && is_empty t.
Proof. by destruct s. Qed.

(** A text without a line boundary is one line, or none when empty. *)
Lemma splitlines_from_one_line s cur :
  all_chars not_linebreak s = true →
  splitlines_from cur s
  = if is_empty (rev_string "" cur +:+ s) then []
    else [rev_string "" cur +:+ s].
Proof.
  revert cur. induction s as [|c s IH]; intros cur.
  - intros _. cbn [splitlines_from]. rewrite string_app_nil_r.
    destruct cur as [|d cur]; [done|]. cbn [is_empty rev_string].
    rewrite rev_string_app, is_empty_app. cbn [is_empty].
    by rewrite andb_false_r.
  - cbn [all_chars]. intros [Hc Hs]%andb_prop.
    cbn [splitlines_from]. unfold not_linebreak in Hc.
    destruct (is_linebreak c); [done|]. rewrite IH by done.
    cbn [rev_string]. rewrite (rev_string_app (String c "")).
    by rewrite string_app_assoc.
Qed.

Lemma splitlines_one_line s :
  all_chars not_linebreak s = true → nonempty s = true → splitlines s = [s].
Proof.
  intros Hs Hne. unfold splitlines. rewrite splitlines_from_one_line by done.
  cbn [rev_string]. change ("" +:+ s) with s. unfold nonempty in Hne.
  by destruct (is_empty s).
Qed.

Lemma elem_of_requirements_steps lines pkg :
  pkg ∈ requirements_steps lines →
  ∃ line, line ∈ lines
          ∧ skipped_line line = false
          ∧ nonempty (strip (before_comparator (before_comment line))) = true
          ∧ pkg = lower (strip (before_comparator (before_comment line))).
Proof.
  induction lines as [|line lines IH]; [by intros ?%elem_of_nil|].
  rewrite requirements_steps_cons, elem_of_app. intros [Hin|Hin].
  - destruct (skipped_line line) eqn:E; [by apply elem_of_nil in Hin|].
    cbv zeta in Hin.
    destruct (nonempty (strip (before_comparator (before_comment line))))
      eqn:E2; [|by apply elem_of_nil in Hin].
    apply list_elem_of_singleton in Hin as ->.
    exists line. split_and!; [by left|done..].
  - destruct (IH Hin) as (line' & ? & ? & ? & ?).
    exists line'. split_and!; [by right|done..].
Qed.

(** X18: a package the line-oriented parser returns is a fixed point of
    the parser: given back as a text it is returned alone and unchanged.
    It is one line, has a first character that is neither white space nor
    [#] nor [-], and contains no comparator. *)
Theorem requirements_idempotent (text pkg : string) :
  pkg ∈ extract_packages_from_requirements text →
  extract_packages_from_requirements pkg = [pkg]
  ∧ all_chars not_linebreak pkg = true
  ∧ all_chars not_comparator pkg = true
  ∧ head_is plain_head pkg = true.
Proof.
  unfold extract_packages_from_requirements at 1.
  rewrite requirements_loop_steps. cbn [app].
  intros (line' & Hline & Hskip & Hne & ->)%elem_of_requirements_steps.
  apply list_elem_of_fmap in Hline as (line & -> & Hline).
  set (a := before_comment (strip line)) in *.
  set (x := before_comparator a) in *.
  set (pkg := lower (strip x)).
  assert (Hbreak : all_chars not_linebreak pkg = true).
  { unfold pkg. rewrite all_chars_lower by apply not_linebreak_lower.
    apply all_chars_strip, all_chars_before_comparator,
      all_chars_before_comment, all_chars_strip.
    pose proof (splitlines_lines text) as Hall.
    by apply (proj1 (Forall_forall _ _) Hall). }
  assert (Hcmp : all_chars not_comparator pkg = true).
  { unfold pkg. rewrite all_chars_lower by apply not_comparator_lower.
    apply all_chars_strip, before_comparator_clean. }
  assert (Hhead : head_is plain_head pkg = true).
  { unfold pkg. rewrite plain_head_lower. apply plain_head_strip.
    destruct (plain_head_before_comparator a) as [Hx|Hx]; [| |done].
    - by apply plain_head_before_comment, not_skipped_plain_head.
    - fold x in Hx. by rewrite Hx in Hne. }
  assert (Hpne : nonempty pkg = true).
  { unfold pkg, nonempty in *. by rewrite is_empty_lower. }
  assert (Hstrip : strip pkg = pkg).
  { unfold pkg. by rewrite strip_lower, strip_fixed. }
  assert (Hcomment : before_comment pkg = pkg).
  { unfold pkg. rewrite before_comment_lower. f_equal.
    unfold strip. apply before_comment_rstrip, before_comment_lstrip.
    apply before_comment_before_comparator, before_comment_fixed. }
  split_and!; [|done..].
  unfold extract_packages_from_requirements.
  rewrite requirements_loop_steps, splitlines_one_line by done.
  cbn [app]. rewrite fmap_cons, fmap_nil, Hstrip, requirements_steps_cons.
  rewrite plain_head_not_skipped by done. cbv zeta.
  rewrite Hcomment, (proj2 (before_comparator_fixed_iff pkg) Hcmp), Hstrip.
  rewrite Hpne. unfold pkg. by rewrite lower_fixed.
Qed.

Lemma requirements_idempotent_witness :
  extract_packages_from_requirements "numpy" = ["numpy"]
  ∧ all_chars not_linebreak "numpy" = true
  ∧ all_chars not_comparator "numpy" = true
  ∧ head_is plain_head "numpy" = true.
Proof.
  apply (requirements_idempotent sample_requirements "numpy").
  apply (bool_decide_unpack _). by vm_compute.
Defined.

(** ** The cluster plot *)

Lemma scattered_app {point} (a b : list (drawing point)) :
  scattered (a ++ b) = scattered a ++ scattered b.
Proof. unfold scattered. apply omap_app. Qed.

Lemma scattered_Scatter {point} (points : list point) colour label drawn :
  scattered (Scatter points colour label :: drawn) = points :: scattered drawn.
Proof. done. Qed.

Lemma scattered_Fill {point} (polygon : list point) colour drawn :
  scattered (Fill polygon colour :: drawn) = scattered drawn.
Proof. done. Qed.

Lemma points_at_elem {point} (cluster_points : list point) vertices polygon :
  points_at cluster_points vertices = Ok polygon →
  length polygon = length vertices ∧ ∀ p, p ∈ polygon → p ∈ cluster_points.
Proof.
  revert polygon. induction vertices as [|i rest IH]; intros polygon; simpl.
  - intros [= <-]. split; [done|]. by intros p ?%elem_of_nil.
  - destruct (cluster_points !! i) as [q|] eqn:Hq; [|done].
    destruct (points_at cluster_points rest) as [ps|] eqn:Hps; [|done].
    simpl. intros [= <-]. destruct (IH ps eq_refl) as [Hlen Hin].
    split; [simpl; by rewrite Hlen|].
    intros p [->|?]%elem_of_cons; [by eapply list_elem_of_lookup_2|auto].
Qed.

Lemma points_at_app {point} (cluster_points : list point) us vs polygon :
  points_at cluster_points (us ++ vs) = Ok polygon →
  ∃ ps qs, points_at cluster_points us = Ok ps
           ∧ points_at cluster_points vs = Ok qs ∧ polygon = ps ++ qs.
Proof.
  revert polygon. induction us as [|i us IH]; intros polygon; simpl.
  - intros H. by exists [], polygon.
  - destruct (cluster_points !! i) as [q|]; [|done].
    destruct (points_at cluster_points (us ++ vs)) as [ps|] eqn:Hps; [|done].
    simpl. intros [= <-]. destruct (IH ps eq_refl) as (ps' & qs & -> & -> & ->).
    by exists (q :: ps'), qs.
Qed.

(** The labelled points of one cluster, and of the clusters below a
    bound, taken apart. *)
Lemma filter_below_S {A} (l : list (nat * A)) (k : nat) :
  filter (λ lp, lp.1 < S k) l
  ≡ₚ filter (λ lp, lp.1 < k) l ++ filter (λ lp, lp.1 = k) l.
Proof.
  induction l as [|[n a] l IH]; [done|].
  rewrite !filter_cons. simpl.
  destruct (decide (n < S k)), (decide (n < k)), (decide (n = k));
    try lia; simpl; rewrite IH; try done.
  by rewrite Permutation_middle.
Qed.

Lemma filter_none {A} (P : A → Prop) `{∀ x, Decision (P x)} (l : list A) :
  (∀ x, x ∈ l → ¬ P x) → filter P l = [].
Proof.
  induction l as [|x l IH]; [done|]. intros HP.
  rewrite filter_cons, decide_False; [|apply HP; by left].
  apply IH. intros y ?. apply HP. by right.
Qed.

Lemma filter_all_elem {A} (P : A → Prop) `{∀ x, Decision (P x)} (l : list A) :
  (∀ x, x ∈ l → P x) → filter P l = l.
Proof.
  induction l as [|x l IH]; [done|]. intros HP.
  rewrite filter_cons, decide_True; [|apply HP; by left].
  f_equal. apply IH. intros y ?. apply HP. by right.
Qed.

Lemma concat_clusters_below {A} (l : list (nat * A)) (k : nat) :
  concat ((λ id, (filter (λ lp, lp.1 = id) l).*2) <$> seq 0 k)
  ≡ₚ (filter (λ lp, lp.1 < k) l).*2.
Proof.
  induction k as [|k IH].
  - simpl. rewrite filter_none; [done|]. intros; lia.
  - rewrite seq_S, fmap_app, concat_app, IH. simpl.
    rewrite app_nil_r, filter_below_S. by rewrite fmap_app.
Qed.

Section cluster_plot_facts.
Context {point : Type}.
Variable convex_hull : list point → result (list nat).
Variable clusters : list nat.
Variable X_pca : list point.

Local Abbreviation members id :=
  ((filter (λ lp, lp.1 = id) (zip clusters X_pca)).*2).

(** What one run of the loop adds to the figure. *)
Lemma plot_clusters_adds cluster_ids drawn0 drawn :
  plot_clusters convex_hull clusters X_pca cluster_ids drawn0 = Ok drawn →
  ∃ added, drawn = drawn0 ++ added
    ∧ (cluster_ids ≠ [] → length clusters = length X_pca)
    ∧ scattered added = (λ id, members id) <$> cluster_ids
    ∧ (∀ polygon colour, Fill polygon colour ∈ added →
         colour ∈ cluster_ids
         ∧ 2 < length (members colour)
         ∧ (∀ p, p ∈ polygon → p ∈ members colour)
         ∧ ∃ p ps, polygon = p :: ps ++ [p])
    ∧ (∀ id, id ∈ cluster_ids → 2 < length (members id) →
         ∃ polygon, Fill polygon id ∈ added).
Proof.
  revert drawn0 drawn.
  induction cluster_ids as [|id rest IH]; intros drawn0 drawn; simpl.
  - intros [= <-]. exists []. rewrite app_nil_r.
    split_and!; try done.
    + by intros ?? ?%elem_of_nil.
    + by intros ? ?%elem_of_nil.
  - unfold cluster_points_of. case_decide as Hlen; [|done]. simpl.
    destruct (2 <? length (members id)) eqn:Hbig.
    + apply Nat.ltb_lt in Hbig.
      destruct (convex_hull (members id)) as [vertices|] eqn:Hhull; [|done].
      simpl. destruct vertices as [|v vertices]; [done|]. simpl.
      destruct (members id !! v) as [q|] eqn:Hq; [|done].
      destruct (points_at (members id) (vertices ++ [v])) as [ps|] eqn:Hps;
        [|done].
      simpl. intros Hrest.
      destruct (IH _ _ Hrest) as (added & -> & _ & Hsc & Hfill & Hall).
      apply points_at_app in Hps as (ps' & qs & Hps' & Hqs & ->).
      simpl in Hqs. rewrite Hq in Hqs. simpl in Hqs. injection Hqs as <-.
      apply points_at_elem in Hps' as [_ Hps'].
      exists (Scatter (members id) id ("Cluster " +:+ pretty (id + 1))
              :: Fill (q :: ps' ++ [q]) id :: added).
      split_and!.
      * by rewrite <- !app_assoc.
      * done.
      * by rewrite ?scattered_Scatter, ?scattered_Fill, Hsc.
      * intros polygon colour [?|[Heq|Hin]%elem_of_cons]%elem_of_cons;
          [done| |].
        -- injection Heq as -> ->. split_and!; [by left|done| |by eexists _, _].
           intros p [->|[?| ->%list_elem_of_singleton]%elem_of_app]%elem_of_cons;
             eauto using list_elem_of_lookup_2.
        -- destruct (Hfill _ _ Hin) as (? & ? & ? & ?).
           split_and!; [by right|done..].
      * intros id' [->|Hin]%elem_of_cons Hbig'.
        -- eexists. right. by left.
        -- destruct (Hall _ Hin Hbig') as [polygon ?]. exists polygon.
           by do 2 right.
    + apply Nat.ltb_ge in Hbig. intros Hrest.
      destruct (IH _ _ Hrest) as (added & -> & _ & Hsc & Hfill & Hall).
      exists (Scatter (members id) id ("Cluster " +:+ pretty (id + 1))
              :: added).
      split_and!.
      * by rewrite <- !app_assoc.
      * done.
      * by rewrite ?scattered_Scatter, ?scattered_Fill, Hsc.
      * intros polygon colour [?|Hin]%elem_of_cons; [done|].
        destruct (Hfill _ _ Hin) as (? & ? & ? & ?).
        split_and!; [by right|done..].
      * intros id' [->|Hin]%elem_of_cons Hbig'; [lia|].
        destruct (Hall _ Hin Hbig') as [polygon ?]. exists polygon.
        by right.
Qed.

(** X19 (cluster_plot, src/functions/visualize.py 16-28): a figure that
    is saved holds one scatter plot per cluster id below [optimal_k], in
    the order of the ids and also for a cluster without points; together
    they show each point whose label is below [optimal_k] once, and no
    other point.  When every label is below [optimal_k] and there is a
    cluster at all, the scatter plots are a rearrangement of [X_pca]. *)
Theorem cluster_plot_scatters (optimal_k : nat) (drawn : list (drawing point)) :
  cluster_plot convex_hull clusters X_pca optimal_k = Ok drawn →
  length (scattered drawn) = optimal_k
  ∧ (∀ id, id < optimal_k → scattered drawn !! id = Some (members id))
  ∧ concat (scattered drawn)
    ≡ₚ (filter (λ lp, lp.1 < optimal_k) (zip clusters X_pca)).*2
  ∧ (0 < optimal_k → Forall (λ label, label < optimal_k) clusters →
     concat (scattered drawn) ≡ₚ X_pca).
Proof.
  unfold cluster_plot. intros Hplot.
  apply plot_clusters_adds in Hplot as (added & -> & Hlen & Hsc & _).
  simpl. rewrite Hsc. split_and!.
  - by rewrite length_fmap, length_seq.
  - intros id Hid. rewrite list_lookup_fmap, lookup_seq_lt by done. done.
  - apply concat_clusters_below.
  - intros Hk Hall. rewrite concat_clusters_below.
    assert (Hlen' : length clusters = length X_pca).
    { apply Hlen. destruct optimal_k; [lia|done]. }
    rewrite filter_all_elem.
    + rewrite snd_zip; [done|lia].
    + intros [label p] Hin. simpl.
      rewrite Forall_forall in Hall. apply Hall.
      apply (list_elem_of_fmap_2 fst) in Hin. rewrite fst_zip in Hin by lia.
      done.
Qed.

(** X20 (cluster_plot, src/functions/visualize.py 30-40): in a figure
    that is saved, a cluster has a filled hull exactly when it has more
    than two points; the hull has the cluster's colour, runs through
    points of that cluster only, and is closed: it ends where it
    starts. *)
Theorem cluster_plot_hulls (optimal_k : nat) (drawn : list (drawing point)) :
  cluster_plot convex_hull clusters X_pca optimal_k = Ok drawn →
  (∀ id, id < optimal_k →
     (∃ polygon, Fill polygon id ∈ drawn) ↔ 2 < length (members id))
  ∧ (∀ polygon colour, Fill polygon colour ∈ drawn →
       colour < optimal_k
       ∧ (∀ p, p ∈ polygon → p ∈ members colour)
       ∧ ∃ p ps, polygon = p :: ps ++ [p]).
Proof.
  unfold cluster_plot. intros Hplot.
  apply plot_clusters_adds in Hplot as (added & -> & _ & _ & Hfill & Hall).
  simpl. split.
  - intros id Hid. split.
    + intros [polygon Hin]. by destruct (Hfill _ _ Hin) as (_ & ? & _).
    + apply Hall. apply elem_of_seq. lia.
  - intros polygon colour Hin.
    destruct (Hfill _ _ Hin) as (Hc & _ & ? & ?).
    apply elem_of_seq in Hc. split_and!; [lia|done..].
Qed.
End cluster_plot_facts.

(** ** The bar charts *)

Lemma string_length_app (a b : string) :
  String.length (a +:+ b) = String.length a + String.length b.
Proof.
  induction a as [|c a IH]; [done|].
  rewrite string_app_cons. simpl. by rewrite IH.
Qed.

Lemma string_app_inj_r (a b t : string) : a +:+ t = b +:+ t → a = b.
Proof.
  revert b. induction a as [|c a IH]; intros [|c' b] Heq.
  - done.
  - apply (f_equal String.length) in Heq.
    rewrite !string_length_app in Heq. simpl in Heq. lia.
  - apply (f_equal String.length) in Heq.
    rewrite !string_length_app in Heq. simpl in Heq. lia.
  - rewrite !string_app_cons in Heq. injection Heq as -> Heq.
    f_equal. by apply IH.
Qed.

(** The file name tells the cluster. *)
Lemma chart_file_inj fname c c' top10 top10' :
  chart_file (chart_of fname c top10) = chart_file (chart_of fname c' top10') →
  c = c'.
Proof.
  simpl. intros Heq.
  apply (inj (String.app fname)) in Heq.
  apply (inj (String.app "_cluster")) in Heq.
  apply string_app_inj_r in Heq.
  apply (inj pretty) in Heq. lia.
Qed.

Lemma StronglySorted_filter {A} (R : relation A) (P : A → Prop)
    `{∀ x, Decision (P x)} (l : list A) :
  StronglySorted R l → StronglySorted R (filter P l).
Proof.
  induction 1 as [|x l Hl IH Hx]; [constructor|].
  rewrite filter_cons. case_decide; [|done].
  constructor; [done|].
  rewrite Forall_forall in *. intros y [_ ?]%list_elem_of_filter. auto.
Qed.

Lemma StronglySorted_le_lt (l : list nat) :
  StronglySorted (≤) l → NoDup l → StronglySorted (<) l.
Proof.
  induction 1 as [|x l Hl IH Hx]; [constructor|].
  intros [Hnot Hnd]%NoDup_cons. constructor; [auto|].
  rewrite Forall_forall in *. intros y Hy.
  destruct (decide (x = y)) as [->|]; [done|]. specialize (Hx y Hy). lia.
Qed.

Lemma StronglySorted_lt_NoDup (l : list nat) :
  StronglySorted (<) l → NoDup l.
Proof.
  induction 1 as [|x l Hl IH Hx]; constructor; [|done].
  rewrite Forall_forall in Hx. intros Hin. specialize (Hx x Hin). lia.
Qed.

Section bar_charts_facts.
Variable d : list (nat * list (string * nat)).
Variable optimal_k : nat.
Variable fname : string.

Local Abbreviation top10_of c := (default [] (dict_get d c)).

(** The loop in closed form: it saves the charts of the clusters whose
    list is not empty and whose colour exists, also when it raises. *)
Lemma bar_charts_loop_spec cs saved :
  StronglySorted (≤) cs → (∀ c, c ∈ cs → c ∈ dict_keys d) →
  bar_charts_loop d optimal_k fname cs saved
  = (saved ++ ((λ c, chart_of fname c (top10_of c))
                 <$> filter (λ c, c < optimal_k ∧ top10_of c ≠ []) cs),
     if decide (Forall (λ c, top10_of c ≠ [] → c < optimal_k) cs) then Ok () else Raise IndexError).
Proof.
  intros Hsorted. revert saved.
  induction Hsorted as [|c cs Hcs IH Hc]; intros saved Hkeys.
  - simpl. by rewrite app_nil_r.
  - simpl. destruct (dict_get d c) as [top10|] eqn:Hget.
    2:{ apply dict_get_None in Hget. destruct Hget. apply Hkeys. by left. }
    assert (Hkeys' : ∀ c', c' ∈ cs → c' ∈ dict_keys d).
    { intros c' ?. apply Hkeys. by right. }
    destruct top10 as [|item top10].
    + rewrite IH by done. rewrite filter_cons.
      destruct (decide (c < optimal_k ∧ top10_of c ≠ [])) as [[_ Hne]|_];
        [by rewrite Hget in Hne|].
      f_equal.
      destruct (decide _) as [H1|H1], (decide _) as [H2|H2]; try done.
      * destruct H2. constructor; [|done]. by rewrite Hget.
      * destruct H1. by apply Forall_cons_1 in H2 as [_ ?].
    + destruct (optimal_k <=? c) eqn:Hk.
      * apply Nat.leb_le in Hk. rewrite filter_none.
        2:{ intros c' [->|Hin]%elem_of_cons; [lia|].
            rewrite Forall_forall in Hc. specialize (Hc c' Hin). lia. }
        simpl. rewrite app_nil_r. f_equal. rewrite decide_False; [done|].
        intros [Hcol _]%Forall_cons_1. rewrite Hget in Hcol.
        specialize (Hcol ltac:(done)). lia.
      * apply Nat.leb_gt in Hk. rewrite IH by done.
        rewrite filter_cons.
        destruct (decide (c < optimal_k ∧ top10_of c ≠ [])) as [_|Hne];
          [|destruct Hne; by rewrite Hget].
        csimpl. rewrite Hget. simpl. rewrite <- app_assoc. simpl. f_equal.
        destruct (decide _) as [H1|H1], (decide _) as [H2|H2]; try done.
        -- destruct H2. by constructor.
        -- destruct H1. by apply Forall_cons_1 in H2 as [_ ?].
Qed.

Lemma cluster_bar_charts_spec :
  cluster_bar_charts d optimal_k fname
  = ((λ c, chart_of fname c (top10_of c))
       <$> filter (λ c, c < optimal_k ∧ top10_of c ≠ []) (merge_sort (≤) (dict_keys d)),
     if decide (Forall (λ c, top10_of c ≠ [] → c < optimal_k) (merge_sort (≤) (dict_keys d)))
     then Ok () else Raise IndexError).
Proof.
  unfold cluster_bar_charts. rewrite bar_charts_loop_spec; [done| |].
  - apply (StronglySorted_merge_sort _).
  - intros c. by rewrite merge_sort_Permutation.
Qed.

(** X21 (cluster_bar_charts, src/functions/visualize.py 69-87): a chart
    is saved for exactly the clusters whose list is not empty and whose
    colour is in the palette, that is, whose id is below [optimal_k];
    this also holds when the function raises: every such chart is on
    disk by then.  The function returns if every cluster with a list
    that is not empty is below [optimal_k], and raises [IndexError]
    otherwise. *)
Theorem cluster_bar_charts_saved :
  (∀ saved_chart,
     saved_chart ∈ (cluster_bar_charts d optimal_k fname).1
     ↔ ∃ cluster top10,
         dict_get d cluster = Some top10 ∧ top10 ≠ []
         ∧ cluster < optimal_k
         ∧ saved_chart = chart_of fname cluster top10)
  ∧ ((cluster_bar_charts d optimal_k fname).2 = Ok ()
     ↔ ∀ cluster top10,
         dict_get d cluster = Some top10 → top10 ≠ [] → cluster < optimal_k)
  ∧ ((cluster_bar_charts d optimal_k fname).2 ≠ Ok ()
     → (cluster_bar_charts d optimal_k fname).2 = Raise IndexError).
Proof.
  rewrite cluster_bar_charts_spec. simpl. split_and!.
  - intros saved_chart. rewrite list_elem_of_fmap. split.
    + intros (c & -> & [[Hk Htop] Hin]%list_elem_of_filter).
      destruct (dict_get d c) as [top10|] eqn:Hget; [|done].
      by exists c, top10.
    + intros (c & top10 & Hget & Htop & Hk & ->).
      exists c. rewrite Hget. split; [done|].
      apply list_elem_of_filter. rewrite Hget. split; [done|].
      rewrite merge_sort_Permutation.
      apply dict_get_Some_elem in Hget.
      by apply (list_elem_of_fmap_2 fst) in Hget.
  - case_decide as Hall; rewrite Forall_forall in Hall.
    + split; [|done]. intros _ c top10 Hget Htop.
      apply Hall; [|by rewrite Hget].
      rewrite merge_sort_Permutation.
      apply dict_get_Some_elem in Hget.
      by apply (list_elem_of_fmap_2 fst) in Hget.
    + split; [done|]. intros Hcol. destruct Hall. intros c _ Htop.
      destruct (dict_get d c) as [top10|] eqn:Hget; [|done]. eauto.
  - by case_decide.
Qed.

(** X22 (cluster_bar_charts, src/functions/visualize.py 69, 78, 86-87):
    the charts are saved in ascending order of the cluster id, one per
    cluster at most, and under file names that differ from one another:
    no chart overwrites another. *)
Theorem cluster_bar_charts_files :
  NoDup (dict_keys d) →
  StronglySorted (<)
    (chart_colour <$> (cluster_bar_charts d optimal_k fname).1)
  ∧ NoDup (chart_file <$> (cluster_bar_charts d optimal_k fname).1).
Proof.
  intros Hnd. rewrite cluster_bar_charts_spec. simpl.
  assert (Hsorted : StronglySorted (<)
            (filter (λ c, c < optimal_k ∧ top10_of c ≠ []) (merge_sort (≤) (dict_keys d)))).
  { apply StronglySorted_filter, StronglySorted_le_lt.
    - apply (StronglySorted_merge_sort _).
    - by rewrite merge_sort_Permutation. }
  split.
  - rewrite <- list_fmap_compose.
    erewrite list_fmap_ext; [by rewrite list_fmap_id|]. done.
  - rewrite <- list_fmap_compose. apply NoDup_fmap_2_strong.
    + intros c c' _ _. apply chart_file_inj.
    + by apply StronglySorted_lt_NoDup.
Qed.
End bar_charts_facts.

(** ** The summary and its bar charts *)

Lemma cluster_top_packages_get repos labels label :
  dict_get (cluster_top_packages repos labels) label
  = match label_members repos labels label with
    | [] => None
    | members => Some (most_common 10 (Counter (cluster_packages repos members)))
    end.
Proof.
  unfold cluster_top_packages.
  rewrite summarise_get by (apply group_repos_keys; constructor).
  rewrite group_repos_get. cbn [dict_get default app]. cbv zeta.
  fold (label_members repos labels label).
  by destruct (label_members repos labels label).
Qed.

Lemma label_members_label repos labels label :
  label_members repos labels label ≠ [] → label ∈ labels.
Proof.
  unfold label_members. intros Hne.
  destruct (filter _ _) as [|[r l] rest] eqn:Hf; [done|].
  assert (Hin : (r, l) ∈ filter (λ rl, rl.2 = label)
                          (zip (repo_names repos) labels)).
  { rewrite Hf. by left. }
  apply list_elem_of_filter in Hin as [Hl Hin]. simpl in Hl. subst l.
  by apply elem_of_zip_r in Hin.
Qed.

Lemma most_common_nil xs : most_common 10 (Counter xs) = [] ↔ xs = [].
Proof.
  split; [|by intros ->].
  intros Hnil. destruct xs as [|x xs]; [done|].
  apply (f_equal length) in Hnil. unfold most_common in Hnil.
  rewrite length_take, sorted_by_count_Permutation in Hnil.
  rewrite Counter_by_first_encounter in Hnil. unfold by_first_encounter in Hnil.
  rewrite length_fmap in Hnil. simpl in Hnil. lia.
Qed.

Lemma elem_of_occurrences repos labels label pkg :
  pkg ∈ occurrences repos labels label
  ↔ ∃ i name pkgs,
      repos !! i = Some (name, pkgs) ∧ labels !! i = Some label ∧ pkg ∈ pkgs.
Proof.
  unfold occurrences. rewrite elem_of_concat. split.
  - intros (pkgs & Hpkg & Hin).
    apply list_elem_of_fmap in Hin as ([name pkgs'] & -> & Hin).
    apply list_elem_of_fmap in Hin as ([[name' pkgs''] l] & [= <- <-] & Hin).
    apply list_elem_of_filter in Hin as [Hl Hin]. simpl in Hl. subst l.
    apply list_elem_of_lookup in Hin as [i Hi].
    apply lookup_zip_with_Some in Hi as (? & ? & [= <- <-] & ? & ?).
    by exists i, name, pkgs'.
  - intros (i & name & pkgs & Hrepo & Hlabel & Hpkg).
    exists pkgs. split; [done|].
    apply list_elem_of_fmap. exists (name, pkgs). split; [done|].
    apply list_elem_of_fmap. exists ((name, pkgs), label). split; [done|].
    apply list_elem_of_filter. split; [done|].
    apply list_elem_of_lookup. exists i.
    apply lookup_zip_with_Some. by exists (name, pkgs), label.
Qed.

(** X23 (main.py 81-96 and 102 with cluster_bar_charts,
    src/functions/visualize.py 69-87): with labels below [optimal_k], as
    the clustering gives them, the bar charts of the summary are all
    saved and the function returns; a cluster has a chart exactly when
    the mapping lists a package for one of the repositories with that
    label. *)
Theorem summary_bar_charts (repos : list (string * list string))
    (labels : list nat) (optimal_k : nat) (fname : string) :
  NoDup (dict_keys repos) →
  Forall (λ label, label < optimal_k) labels →
  (cluster_bar_charts (cluster_top_packages repos labels) optimal_k fname).2
  = Ok ()
  ∧ ∀ label,
      (∃ saved_chart,
         saved_chart
         ∈ (cluster_bar_charts (cluster_top_packages repos labels)
              optimal_k fname).1
         ∧ chart_colour saved_chart = label)
      ↔ ∃ i name pkgs pkg,
          repos !! i = Some (name, pkgs)
          ∧ labels !! i = Some label
          ∧ pkg ∈ pkgs.
Proof.
  intros Hnd Hall. rewrite Forall_forall in Hall.
  assert (Hlisted : ∀ label,
            cluster_packages repos (label_members repos labels label) ≠ []
            ↔ ∃ i name pkgs pkg,
                repos !! i = Some (name, pkgs)
                ∧ labels !! i = Some label
                ∧ pkg ∈ pkgs).
  { intros label. rewrite cluster_packages_occurrences by done. split.
    - intros Hne.
      destruct (occurrences repos labels label) as [|pkg rest] eqn:E;
        [done|].
      assert (Hpkg : pkg ∈ occurrences repos labels label)
        by (rewrite E; by left).
      apply elem_of_occurrences in Hpkg as (i & name & pkgs & ? & ? & ?).
      by exists i, name, pkgs, pkg.
    - intros (i & name & pkgs & pkg & ? & ? & ?) Hnil.
      assert (Hpkg : pkg ∈ occurrences repos labels label).
      { apply elem_of_occurrences. by exists i, name, pkgs. }
      rewrite Hnil in Hpkg. by apply elem_of_nil in Hpkg. }
  rewrite cluster_bar_charts_spec. simpl. split.
  - rewrite decide_True; [done|].
    apply Forall_forall. intros c _ Htop. apply Hall.
    apply (label_members_label repos). intros Hnil.
    rewrite cluster_top_packages_get, Hnil in Htop. done.
  - intros label. rewrite <- Hlisted. split.
    + intros (saved_chart & Hin & <-).
      apply list_elem_of_fmap in Hin
        as (c & -> & [[_ Htop] _]%list_elem_of_filter).
      simpl. rewrite cluster_top_packages_get in Htop.
      destruct (label_members repos labels c) as [|r members]; [done|].
      simpl in Htop. intros Hnil. apply Htop. by apply most_common_nil.
    + intros Hne.
      assert (Hmem : label_members repos labels label ≠ []).
      { intros Hnil. by rewrite Hnil in Hne. }
      assert (Hget : dict_get (cluster_top_packages repos labels) label
                = Some (most_common 10
                          (Counter (cluster_packages repos
                                      (label_members repos labels label))))).
      { rewrite cluster_top_packages_get.
        by destruct (label_members repos labels label). }
      exists (chart_of fname label
                (default [] (dict_get (cluster_top_packages repos labels)
                               label))).
      split; [|done].
      apply list_elem_of_fmap. exists label. split; [done|].
      apply list_elem_of_filter. split_and!.
      * by apply Hall, (label_members_label repos).
      * rewrite Hget. simpl. by rewrite most_common_nil.
      * rewrite merge_sort_Permutation.
        apply dict_get_Some_elem in Hget.
        by apply (list_elem_of_fmap_2 fst) in Hget.
Qed.

Lemma cluster_plot_scatters_witness :
  cluster_plot sample_hull sample_labels sample_points 2 = Ok sample_figure
  ∧ concat (scattered sample_figure) ≡ₚ sample_points.
Proof.
  assert (H : cluster_plot sample_hull sample_labels sample_points 2
              = Ok sample_figure) by reflexivity.
  split; [done|].
  apply (cluster_plot_scatters sample_hull sample_labels sample_points 2
           sample_figure H); [lia|].
  repeat constructor.
Defined.

Lemma cluster_plot_hulls_witness :
  cluster_plot sample_hull sample_labels sample_points 2 = Ok sample_figure
  ∧ ((∃ polygon, Fill polygon 1 ∈ sample_figure)
     ↔ 2 < length (filter (λ lp, lp.1 = 1)
                     (zip sample_labels sample_points)).*2).
Proof.
  assert (H : cluster_plot sample_hull sample_labels sample_points 2
              = Ok sample_figure) by reflexivity.
  split; [done|].
  apply (cluster_plot_hulls sample_hull sample_labels sample_points 2
           sample_figure H). lia.
Defined.

Lemma cluster_bar_charts_files_witness :
  StronglySorted (<)
    (chart_colour
       <$> (cluster_bar_charts (cluster_top_packages repos_abc [0; 0; 1])
              2 "outputs/bar").1)
  ∧ NoDup
      (chart_file
         <$> (cluster_bar_charts (cluster_top_packages repos_abc [0; 0; 1])
                2 "outputs/bar").1).
Proof.
  apply (cluster_bar_charts_files (cluster_top_packages repos_abc [0; 0; 1])
           2 "outputs/bar").
  apply (bool_decide_unpack _). by vm_compute.
Defined.

Lemma summary_bar_charts_witness :
  (cluster_bar_charts (cluster_top_packages repos_abc [0; 0; 1])
     2 "outputs/bar").2
  = Ok ()
  ∧ ∃ saved_chart,
      saved_chart
      ∈ (cluster_bar_charts (cluster_top_packages repos_abc [0; 0; 1])
           2 "outputs/bar").1
      ∧ chart_colour saved_chart = 1.
Proof.
  destruct (summary_bar_charts repos_abc [0; 0; 1] 2 "outputs/bar")
    as [Hreturns Hcharts].
  - apply (bool_decide_unpack _). by vm_compute.
  - repeat constructor.
  - split; [done|]. apply Hcharts.
    exists 2, "acme/three", ["c"], "c".
    split_and!; [reflexivity|reflexivity|by left].
Defined.
